(** * Result-Dashboard: extraction engine, roster loading, job state and
      artifact expiry, embedded from the Python sources

    Sources embedded here:
    - [Result_Downloader.py]: [extract_data_from_page],
      [process_single_student], the roster loop of [run_cli];
    - [dashboard_app.py]: the expiry ledger ([set_upload_expiry],
      [set_result_expiry], [save_expiries], [load_expiries], [cleaner_loop]),
      the batch worker [worker_process], the [/status] query, the manual
      correction [failed_submit] and [detailed_submit].

    How the program is modelled:
    - a Python [str] is a list of characters with codes 0..127 read as
      ASCII; codes from 128 on are kept as symbols that are neither word
      characters nor white space and have no other case;
    - the patterns of [re] are values of a small pattern syntax, run by a
      backtracking matcher with the greedy order of Python;
    - the page is the parsed tree BeautifulSoup hands out;
    - dictionaries are [gmap]s, the folders are sets of file names;
    - timestamps are whole epoch seconds;
    - what the surroundings answer (the uploaded file, the browser, the
      clock, whether a file can be written or removed) is an input of the
      step that asks;
    - the threads are a transition system whose steps are the blocks of
      the source that run between two releases of [STATE_LOCK]. *)

From Stdlib Require Import Ascii String ZArith QArith List Lia Bool DecimalString.
From stdpp Require Import base option list gmap strings.

Local Open Scope Z_scope.
Local Open Scope list_scope.

(** Python [str], restricted to ASCII code points. *)
Abbreviation pystr := (list ascii).

(** A string literal of the source. *)
Definition lit (s : string) : pystr := list_ascii_of_string s.

(* ================================================================== *)
(** ** Python string primitives *)
(* ================================================================== *)

Module PyStr.

Definition code (c : ascii) : N := N_of_ascii c.

Definition between (lo hi : N) (c : ascii) : bool :=
  ((lo <=? code c) && (code c <=? hi))%N.

(** [[0-9]] *)
Definition is_digit : ascii -> bool := between 48 57.
(** [[A-Z]] *)
Definition is_upper : ascii -> bool := between 65 90.
(** [[a-z]] *)
Definition is_lower : ascii -> bool := between 97 122.

(** [\w] on ASCII text: letters, digits and the underscore. *)
Definition is_word (c : ascii) : bool :=
  is_digit c || is_upper c || is_lower c || (code c =? 95)%N.

(** [str.isspace] / [\s] on ASCII text: TAB, LF, VT, FF, CR, the four
    separators FS, GS, RS, US and the space. *)
Definition is_space (c : ascii) : bool :=
  between 9 13 c || between 28 32 c.

Definition upper_char (c : ascii) : ascii :=
  if is_lower c then ascii_of_N (code c - 32) else c.

Definition lower_char (c : ascii) : ascii :=
  if is_upper c then ascii_of_N (code c + 32) else c.

(** [s.upper()] *)
Definition upper (s : pystr) : pystr := map upper_char s.

(** [s.lstrip()], [s.rstrip()], [s.strip()] *)
Fixpoint lstrip (s : pystr) : pystr :=
  match s with
  | c :: s' => if is_space c then lstrip s' else s
  | [] => []
  end.

Definition rstrip (s : pystr) : pystr := rev (lstrip (rev s)).

Definition strip (s : pystr) : pystr := rstrip (lstrip s).

(** [s.startswith(p)] *)
Fixpoint startswith (p s : pystr) : bool :=
  match p, s with
  | [], _ => true
  | a :: p', b :: s' => Ascii.eqb a b && startswith p' s'
  | _ :: _, [] => false
  end.

(** [needle in hay] *)
Fixpoint contains (needle hay : pystr) : bool :=
  startswith needle hay ||
  match hay with
  | [] => false
  | _ :: hay' => contains needle hay'
  end.

(** [sep.join(parts)] *)
Fixpoint join (sep : pystr) (parts : list pystr) : pystr :=
  match parts with
  | [] => []
  | [p] => p
  | p :: rest => p ++ sep ++ join sep rest
  end.

Definition digit_value (c : ascii) : Z := Z.of_N (code c) - 48.

(** [int(s)] for a string of decimal digits. *)
Definition int_of_digits (s : pystr) : Z :=
  fold_left (fun acc c => 10 * acc + digit_value c) s 0.

(** [str(n)] for an integer. *)
Definition str_of_int (n : Z) : pystr :=
  lit (NilZero.string_of_int (Z.to_int n)).

(** The digits of an integer literal after its sign: groups of digits
    separated by single underscores. [prev_digit] tells whether the
    character before is a digit. *)
Fixpoint int_body (s : pystr) (prev_digit : bool) (acc : Z) : option Z :=
  match s with
  | [] => if prev_digit then Some acc else None
  | c :: s' =>
      if is_digit c then int_body s' true (10 * acc + digit_value c)
      else if (code c =? 95)%N && prev_digit then
        match s' with
        | d :: _ => if is_digit d then int_body s' false acc else None
        | [] => None
        end
      else None
  end.

(** The whitespace [int()] skips around an ASCII literal: TAB, LF, VT,
    FF, CR and the space. The separators FS, GS, RS and US, which
    [str.strip()] removes, are not among them. *)
Definition is_int_space (c : ascii) : bool :=
  between 9 13 c || (code c =? 32)%N.

Fixpoint int_lstrip (s : pystr) : pystr :=
  match s with
  | c :: s' => if is_int_space c then int_lstrip s' else s
  | [] => []
  end.

Definition int_strip (s : pystr) : pystr := rev (int_lstrip (rev (int_lstrip s))).

(** [int(s)] for a string: surrounding whitespace, an optional sign, then
    the digits; [None] stands for [ValueError]. *)
Definition int_of_str (s : pystr) : option Z :=
  match int_strip s with
  | c :: s' =>
      if (code c =? 45)%N then Z.opp <$> int_body s' false 0
      else if (code c =? 43)%N then int_body s' false 0
      else int_body (c :: s') false 0
  | [] => None
  end.

End PyStr.

(* ================================================================== *)
(** ** The fragment of Python's [re] the sources use *)
(* ================================================================== *)

Module Re.
Import PyStr.

(** Pattern syntax: literals, classes, concatenation, greedy bounded or
    unbounded repetition, the anchors [^] and [\b], and the capturing
    group. *)
Inductive re : Type :=
| Chr (c : ascii)
| Cls (p : ascii -> bool)
| Seq (r1 r2 : re)
| Rep (r : re) (lo : nat) (hi : option nat)
| Bol
| WordB
| Grp (r : re).

(** Concatenation of a list of items, as a pattern is written. *)
Fixpoint cat (rs : list re) : re :=
  match rs with
  | [] => Rep Bol 0 (Some 0%nat)
  | [r] => r
  | r :: rs' => Seq r (cat rs')
  end.

(** A literal word. *)
Definition word (s : string) : re := cat (map Chr (lit s)).

(** Is the character before / after the position a word character? *)
Definition word_before (prev : option ascii) : bool :=
  match prev with Some c => is_word c | None => false end.

Definition word_after (s : pystr) : bool :=
  match s with c :: _ => is_word c | [] => false end.

(** One character against a literal or a class; [ic] is [re.IGNORECASE]. *)
Definition chr_ok (ic : bool) (c a : ascii) : bool :=
  Ascii.eqb c a || (ic && Ascii.eqb (upper_char c) (upper_char a)).

Definition cls_ok (ic : bool) (p : ascii -> bool) (a : ascii) : bool :=
  p a || (ic && (p (upper_char a) || p (lower_char a))).

Section Matcher.
Context {A : Type}.

(** A continuation receives the capture of group 1 so far, the character
    before the position and the text from the position on. *)
Definition cont : Type := option pystr -> option ascii -> pystr -> option A.

(** Greedy repetition: one more round first, stopping as the fallback.
    [n] bounds the rounds still allowed, [lo] those still required. *)
Fixpoint rep (mr : option pystr -> option ascii -> pystr -> cont -> option A)
    (lo n : nat) (cap : option pystr) (prev : option ascii) (s : pystr)
    (k : cont) : option A :=
  match n with
  | O => if (lo =? 0)%nat then k cap prev s else None
  | S n' =>
      match mr cap prev s (fun cap' prev' s' => rep mr (pred lo) n' cap' prev' s' k) with
      | Some x => Some x
      | None => if (lo =? 0)%nat then k cap prev s else None
      end
  end.

(** Backtracking matcher at one position. *)
Fixpoint run (ic : bool) (r : re) (cap : option pystr) (prev : option ascii)
    (s : pystr) (k : cont) : option A :=
  match r with
  | Chr c =>
      match s with
      | a :: s' => if chr_ok ic c a then k cap (Some a) s' else None
      | [] => None
      end
  | Cls p =>
      match s with
      | a :: s' => if cls_ok ic p a then k cap (Some a) s' else None
      | [] => None
      end
  | Seq r1 r2 =>
      run ic r1 cap prev s (fun cap' prev' s' => run ic r2 cap' prev' s' k)
  | Rep r' lo hi =>
      rep (run ic r') lo (default (length s) hi) cap prev s k
  | Bol => match prev with None => k cap prev s | Some _ => None end
  | WordB => if xorb (word_before prev) (word_after s) then k cap prev s else None
  | Grp r' =>
      run ic r' cap prev s
        (fun _ prev' s' => k (Some (take (length s - length s') s)) prev' s')
  end.
End Matcher.

(** A match at the position: group 1 and the text after the match. *)
Definition match_here (ic : bool) (r : re) (prev : option ascii) (s : pystr)
    : option (option pystr * pystr) :=
  run ic r None prev s (fun cap _ s' => Some (cap, s')).

(** [re.search]: the leftmost position with a match. *)
Fixpoint search_from (ic : bool) (r : re) (prev : option ascii) (s : pystr)
    : option (option pystr * pystr) :=
  match match_here ic r prev s with
  | Some m => Some m
  | None =>
      match s with
      | [] => None
      | a :: s' => search_from ic r (Some a) s'
      end
  end.

(** [re.search(r, s)], returning [m.group(1)] ([[]] for a pattern without
    a group). *)
Definition search (ic : bool) (r : re) (s : pystr) : option pystr :=
  (fun m => default [] (fst m)) <$> search_from ic r None s.

(** [re.findall] for a pattern with one group: the captures of the
    non-overlapping matches, left to right. [skip] counts the characters
    of the last match still to step over. *)
Fixpoint findall_from (ic : bool) (r : re) (prev : option ascii) (s : pystr)
    (skip : nat) : list pystr :=
  match skip with
  | S n =>
      match s with
      | [] => []
      | a :: s' => findall_from ic r (Some a) s' n
      end
  | O =>
      match match_here ic r prev s with
      | Some (cap, rest) =>
          default [] cap ::
          match s with
          | [] => []
          | a :: s' => findall_from ic r (Some a) s' (length s - length rest - 1)
          end
      | None =>
          match s with
          | [] => []
          | a :: s' => findall_from ic r (Some a) s' 0
          end
      end
  end.

Definition findall (ic : bool) (r : re) (s : pystr) : list pystr :=
  findall_from ic r None s 0.

End Re.

(* ================================================================== *)
(** ** The parsed page: the part of a BeautifulSoup tree the code reads *)
(* ================================================================== *)

Module Soup.

(** A node is a text node ([NavigableString]) or an element ([Tag]) with
    its lower-cased name and its children in document order. *)
#[warnings="-register-all"]
Inductive node : Type :=
| Text (s : pystr)
| Elem (tag : string) (children : list node).

(** [node.get_text()]: the text nodes below, concatenated. *)
Fixpoint get_text (n : node) : pystr :=
  match n with
  | Text s => s
  | Elem _ cs =>
      (fix go (l : list node) : pystr :=
         match l with
         | [] => []
         | c :: l' => get_text c ++ go l'
         end) cs
  end.

(** Everything below a node, in document order. *)
Fixpoint descendants (n : node) : list node :=
  match n with
  | Text _ => []
  | Elem _ cs =>
      (fix go (l : list node) : list node :=
         match l with
         | [] => []
         | c :: l' => c :: descendants c ++ go l'
         end) cs
  end.

Definition has_tag (tags : list string) (n : node) : bool :=
  match n with
  | Elem t _ => existsb (String.eqb t) tags
  | Text _ => false
  end.

(** [node.find_all(tags)] *)
Definition find_all (tags : list string) (n : node) : list node :=
  List.filter (has_tag tags) (descendants n).

End Soup.

(* ================================================================== *)
(** ** Result_Downloader.py: the extraction engine *)
(* ================================================================== *)

Module Extractor.
Import PyStr Re Soup.

Definition digits (lo hi : nat) : re := Rep (Cls is_digit) lo (Some hi).
Definition uppers (lo hi : nat) : re := Rep (Cls is_upper) lo (Some hi).
Definition is_roman (c : ascii) : bool :=
  Ascii.eqb c "I" || Ascii.eqb c "V" || Ascii.eqb c "X".
(** [[\s:]] *)
Definition is_space_or_colon (c : ascii) : bool :=
  is_space c || Ascii.eqb c ":".

(** The three subject-code patterns, in the order the source tries them:
    [^([A-Z]{2,3}-[A-Z]{2,4}-[0-9]{2,3}[A-Z]?)[\s:]],
    [^([A-Z]{2,3}-[A-Z]{2,4}-[IVX]+)[\s:]],
    [^([A-Z]{2,3}-[0-9]{2,3}[A-Z]?)[\s:]]. *)
Definition subject_patterns : list re :=
  [ cat [Bol;
         Grp (cat [uppers 2 3; Chr "-"; uppers 2 4; Chr "-"; digits 2 3; uppers 0 1]);
         Cls is_space_or_colon];
    cat [Bol;
         Grp (cat [uppers 2 3; Chr "-"; uppers 2 4; Chr "-"; Rep (Cls is_roman) 1 None]);
         Cls is_space_or_colon];
    cat [Bol;
         Grp (cat [uppers 2 3; Chr "-"; digits 2 3; uppers 0 1]);
         Cls is_space_or_colon] ].

(** [\b([0-9]{1,3}F)\b], searched with [re.IGNORECASE]. *)
Definition number_f_pattern : re :=
  cat [WordB; Grp (cat [digits 1 3; Chr "F"]); WordB].

(** [\bF\b], searched with [re.IGNORECASE]. *)
Definition f_pattern : re := cat [WordB; Chr "F"; WordB].

(** [\b([0-9]{2,3})\b] *)
Definition number_pattern : re := cat [WordB; Grp (digits 2 3); WordB].

(** [\bFAIL\b], [\bAB\b], [\bABSENT\b], searched with [re.IGNORECASE]. *)
Definition fail_patterns : list re :=
  [ cat [WordB; word "FAIL"; WordB];
    cat [WordB; word "AB"; WordB];
    cat [WordB; word "ABSENT"; WordB] ].

(** The loop over [subject_patterns]: the first pattern that matches the
    first cell gives the subject code. *)
Fixpoint first_match (ps : list re) (first_cell : pystr) : option pystr :=
  match ps with
  | [] => None
  | p :: ps' =>
      match search false p first_cell with
      | Some g => Some g
      | None => first_match ps' first_cell
      end
  end.

Definition subject_code_of (first_cell : pystr) : option pystr :=
  first_match subject_patterns first_cell.

(** [10 <= int(n) <= 100] *)
Definition in_mark_range (n : pystr) : bool :=
  (10 <=? int_of_digits n) && (int_of_digits n <=? 100).

(** [valid_marks] of a row text. *)
Definition valid_marks (row_text : pystr) : list pystr :=
  List.filter in_mark_range (findall false number_pattern row_text).

(** The value the source assigns to [marks_data[subject_code]] for a row
    text, [None] when it assigns nothing. *)
Definition mark_of_row (row_text : pystr) : option pystr :=
  match search true number_f_pattern row_text with
  | Some g => Some (upper g)
  | None =>
      if bool_decide (is_Some (search true f_pattern row_text)) then Some (lit "F")
      else
        match last (valid_marks row_text) with
        | Some v => Some v
        | None =>
            if existsb (fun p => bool_decide (is_Some (search true p row_text)))
                 fail_patterns
            then Some (lit "F")
            else None
        end
  end.

Definition row_cells (row : node) : list node := find_all ["td"; "th"]%string row.

(** [' '.join([cell.get_text().strip() for cell in cells])] *)
Definition row_text (cells : list node) : pystr :=
  join (lit " ") (map (fun c => strip (get_text c)) cells).

(** [cells[0].get_text().strip()] *)
Definition first_cell (row : node) : pystr :=
  match row_cells row with
  | c0 :: _ => strip (get_text c0)
  | [] => []
  end.

(** What one row contributes: its subject code and mark, if it has at
    least three cells, a subject code in the first cell and a mark. *)
Definition row_entry (row : node) : option (pystr * pystr) :=
  let cells := row_cells row in
  if (3 <=? length cells)%nat then
    match cells with
    | c0 :: _ =>
        match subject_code_of (strip (get_text c0)) with
        | Some subject_code =>
            match mark_of_row (row_text cells) with
            | Some v => Some (subject_code, v)
            | None => None
            end
        | None => None
        end
    | [] => None
    end
  else None.

(** The body of [for row in rows[1:]]. *)
Definition process_row (marks_data : gmap pystr pystr) (row : node)
    : gmap pystr pystr :=
  match row_entry row with
  | Some (subject_code, v) => <[subject_code := v]> marks_data
  | None => marks_data
  end.

(** ['TOTAL' in table_text or 'MARKS' in table_text] *)
Definition table_selected (table : node) : bool :=
  let table_text := upper (get_text table) in
  contains (lit "TOTAL") table_text || contains (lit "MARKS") table_text.

(** The body of [for table in tables]. *)
Definition process_table (marks_data : gmap pystr pystr) (table : node)
    : gmap pystr pystr :=
  if table_selected table
  then fold_left process_row (tail (find_all ["tr"]%string table)) marks_data
  else marks_data.

Definition extract_marks (soup : node) : gmap pystr pystr :=
  fold_left process_table (find_all ["table"]%string soup) ∅.

(** [extract_data_from_page]: [None] stands for a driver whose
    [page_source] raises; the handler returns the empty mapping. *)
Definition extract_data_from_page (page : option node) : gmap pystr pystr :=
  match page with
  | Some soup => extract_marks soup
  | None => ∅
  end.

(** The data rows of a page in the order the loops visit them. *)
Definition data_rows (soup : node) : list node :=
  flat_map (fun table =>
              if table_selected table then tail (find_all ["tr"]%string table) else [])
           (find_all ["table"]%string soup).

End Extractor.

(* ================================================================== *)
(** ** Tokens of a row text, stated without the matcher *)
(* ================================================================== *)

Module Tokens.
Import PyStr Re.

(** The character before the text that follows [pre], when [prev] is the
    character before [pre]. *)
Definition char_before (prev : option ascii) (pre : pystr) : option ascii :=
  match last pre with
  | Some c => Some c
  | None => prev
  end.

Definition all_digits (s : pystr) : Prop := Forall (fun c => is_digit c = true) s.

(** [tok], between the character [prev] and the text [rest], is a word of
    its own made of [lo] to [hi] digits. *)
Definition digit_word (lo hi : nat) (prev : option ascii) (tok rest : pystr) : Prop :=
  (lo <= length tok <= hi)%nat /\ all_digits tok /\
  word_before prev = false /\ word_after rest = false.

(** [tok], between [prev] and [rest], is a word of its own made of one to
    three digits and the letter F in either case. *)
Definition number_f_word (prev : option ascii) (tok rest : pystr) : Prop :=
  exists (d : pystr) (c : ascii),
    tok = d ++ [c] /\ (1 <= length d <= 3)%nat /\ all_digits d /\
    upper_char c = "F"%char /\
    word_before prev = false /\ word_after rest = false.

(** [tok], between [prev] and [rest], is the letter F in either case
    standing as a word of its own. *)
Definition f_word (prev : option ascii) (tok rest : pystr) : Prop :=
  exists c : ascii,
    tok = [c] /\ upper_char c = "F"%char /\
    word_before prev = false /\ word_after rest = false.

(** The text [s] holds the word [tok] of kind [W] after [pre]. *)
Definition holds_word (W : option ascii -> pystr -> pystr -> Prop)
    (s pre tok post : pystr) : Prop :=
  s = pre ++ tok ++ post /\ W (char_before None pre) tok post.

(** [tok], after [pre], is the first word of kind [W] in the text [s]:
    no such word begins further left. *)
Definition first_word (W : option ascii -> pystr -> pystr -> Prop)
    (s pre tok post : pystr) : Prop :=
  holds_word W s pre tok post /\
  forall p t q, holds_word W s p t q -> (length pre <= length p)%nat.

(** The three shapes of a stored mark: the fail marker, a number, a
    number followed by F. *)
Definition is_fail (v : pystr) : Prop := v = lit "F".

Definition is_numeric (v : pystr) : Prop :=
  (2 <= length v <= 3)%nat /\ all_digits v.

Definition is_numeric_fail (v : pystr) : Prop :=
  exists d : pystr, v = d ++ lit "F" /\ (1 <= length d <= 3)%nat /\ all_digits d.

(** The numeric component of a stored mark, if it has one. *)
Definition numeric_component (v : pystr) : option Z :=
  match List.filter is_digit v with
  | [] => None
  | ds => Some (int_of_digits ds)
  end.

End Tokens.

(* ================================================================== *)
(** ** Loading the roster (the loop over [df] in [run_cli] and
       [worker_process]) *)
(* ================================================================== *)

Module Roster.
Import PyStr.

(** A cell of the data frame: missing ([NaN], [None], [NaT]), a finite
    number with the text [str()] renders it as, a text, or another
    value, which [int()] refuses whatever it holds (a date, a time, an
    infinite float), with the text [str()] renders it as. *)
Inductive cell : Type :=
| NaN
| Num (q : Q) (repr : pystr)
| Str (s : pystr)
| Other (repr : pystr).

(** A row of the frame, by the three columns the loop reads:
    [Roll_Number r] is [row['Roll Number']], and [None] when the
    workbook has no such column, where the subscript raises [KeyError]. *)
Record row : Type := {
  Student_Name : option cell;
  Roll_Number : option cell;
  Registration_Number : option cell
}.

Record student : Type := {
  name : pystr;
  roll : pystr;
  reg : pystr
}.

(** [pd.isna(x)] *)
Definition isna (c : cell) : bool :=
  match c with NaN => true | _ => false end.

(** [str(x)] *)
Definition py_str (c : cell) : pystr :=
  match c with
  | NaN => lit "nan"
  | Num _ repr => repr
  | Str s => s
  | Other repr => repr
  end.

(** [int(x)]: a number truncates towards zero, a text is parsed; [None]
    stands for the [ValueError], [TypeError] or [OverflowError] Python
    raises. *)
Definition py_int (c : cell) : option Z :=
  match c with
  | NaN => None
  | Num q _ => Some (Z.quot (Qnum q) (Zpos (Qden q)))
  | Str s => int_of_str s
  | Other _ => None
  end.

(** [pd.isna(row['Roll Number']) or pd.isna(row['Registration Number'])
    or pd.isna(row['Student Name'])], read from left to right and no
    further than the first missing value; [None] when a column that is
    read is not there. *)
Definition has_missing (r : row) : option bool :=
  roll_c ← Roll_Number r;
  if isna roll_c then Some true
  else
    reg_c ← Registration_Number r;
    if isna reg_c then Some true
    else
      name_c ← Student_Name r;
      Some (isna name_c).

(** The row has all three identity fields. *)
Definition complete (r : row) : bool :=
  match Roll_Number r, Registration_Number r, Student_Name r with
  | Some roll_c, Some reg_c, Some name_c =>
      negb (isna roll_c || isna reg_c || isna name_c)
  | _, _, _ => false
  end.

(** The dictionary appended for a row that passed the guard; [None] when
    one of the two [int(...)] raises. *)
Definition student_of_row (r : row) : option student :=
  name_c ← Student_Name r;
  roll_n ← Roll_Number r ≫= py_int;
  reg_n ← Registration_Number r ≫= py_int;
  Some {| name := strip (py_str name_c);
          roll := str_of_int roll_n;
          reg := str_of_int reg_n |}.

(** The loop [for i in range(len(df))]; [None] when it raises. *)
Fixpoint load_students (df : list row) : option (list student) :=
  match df with
  | [] => Some []
  | r :: df' =>
      skip ← has_missing r;
      if (skip : bool) then load_students df'
      else
        st ← student_of_row r;
        rest ← load_students df';
        Some (st :: rest)
  end.

End Roster.

(* ================================================================== *)
(** ** dashboard_app.py: job state, expiry ledger, worker and handlers *)
(* ================================================================== *)

Module Dashboard.
Import PyStr Soup Roster.

(** A result dictionary: [name], [roll], [reg], [status], [marks]. *)
Record result : Type := {
  r_name : pystr;
  r_roll : pystr;
  r_reg : pystr;
  status : pystr;
  marks : gmap pystr pystr
}.

(** The global [STATE] (without [subject_info], which no code modelled
    here reads). *)
Record job_state : Type := {
  students : list student;
  results : list result;
  current_index : nat;
  running : bool;
  successful : nat;
  failed : nat;
  filename : option pystr
}.

(** Everything the threads share: [STATE], the two expiry dictionaries,
    the files of the two folders and the contents of [.expiries.json]
    ([None]: missing or unreadable). Timestamps are epoch seconds. *)
Record world : Type := {
  STATE : job_state;
  UPLOAD_EXPIRY : gmap pystr Z;
  RESULT_EXPIRY : gmap pystr Z;
  upload_files : gset pystr;
  output_files : gset pystr;
  expiry_file : option (gmap pystr Z * gmap pystr Z)
}.

Definition initial_state : job_state :=
  {| students := []; results := []; current_index := 0; running := false;
     successful := 0; failed := 0; filename := None |}.

Definition initial_world : world :=
  {| STATE := initial_state; UPLOAD_EXPIRY := ∅; RESULT_EXPIRY := ∅;
     upload_files := ∅; output_files := ∅; expiry_file := None |}.

Definition with_state (f : job_state -> job_state) (w : world) : world :=
  {| STATE := f (STATE w); UPLOAD_EXPIRY := UPLOAD_EXPIRY w;
     RESULT_EXPIRY := RESULT_EXPIRY w; upload_files := upload_files w;
     output_files := output_files w; expiry_file := expiry_file w |}.

Definition with_upload_expiry (m : gmap pystr Z) (w : world) : world :=
  {| STATE := STATE w; UPLOAD_EXPIRY := m;
     RESULT_EXPIRY := RESULT_EXPIRY w; upload_files := upload_files w;
     output_files := output_files w; expiry_file := expiry_file w |}.

Definition with_result_expiry (m : gmap pystr Z) (w : world) : world :=
  {| STATE := STATE w; UPLOAD_EXPIRY := UPLOAD_EXPIRY w;
     RESULT_EXPIRY := m; upload_files := upload_files w;
     output_files := output_files w; expiry_file := expiry_file w |}.

Definition with_upload_files (d : gset pystr) (w : world) : world :=
  {| STATE := STATE w; UPLOAD_EXPIRY := UPLOAD_EXPIRY w;
     RESULT_EXPIRY := RESULT_EXPIRY w; upload_files := d;
     output_files := output_files w; expiry_file := expiry_file w |}.

Definition with_output_files (d : gset pystr) (w : world) : world :=
  {| STATE := STATE w; UPLOAD_EXPIRY := UPLOAD_EXPIRY w;
     RESULT_EXPIRY := RESULT_EXPIRY w; upload_files := upload_files w;
     output_files := d; expiry_file := expiry_file w |}.

Definition with_expiry_file (e : option (gmap pystr Z * gmap pystr Z)) (w : world)
    : world :=
  {| STATE := STATE w; UPLOAD_EXPIRY := UPLOAD_EXPIRY w;
     RESULT_EXPIRY := RESULT_EXPIRY w; upload_files := upload_files w;
     output_files := output_files w; expiry_file := e |}.

(** [STATE['filename'] = f] *)
Definition set_filename (f : option pystr) (st : job_state) : job_state :=
  {| students := students st; results := results st;
     current_index := current_index st; running := running st;
     successful := successful st; failed := failed st; filename := f |}.

(* ---------------------------------------------------------------- *)
(** *** The expiry ledger *)

(** How an attempt to write [.expiries.json] ends: written, not opened
    (the old contents stay), or opened and left unreadable. The source
    swallows both failures. *)
Inductive io_outcome : Type := Written | NotOpened | Spoiled.

(** [save_expiries()] *)
Definition save_expiries (io : io_outcome) (w : world) : world :=
  match io with
  | Written => with_expiry_file (Some (UPLOAD_EXPIRY w, RESULT_EXPIRY w)) w
  | NotOpened => w
  | Spoiled => with_expiry_file None w
  end.

(** [set_upload_expiry(filename, seconds_from_now)] at time [now] *)
Definition set_upload_expiry (fname : pystr) (seconds_from_now now : Z)
    (io : io_outcome) (w : world) : world :=
  save_expiries io
    (with_upload_expiry (<[fname := now + seconds_from_now]> (UPLOAD_EXPIRY w)) w).

(** [set_result_expiry(filename, seconds_from_now)] at time [now] *)
Definition set_result_expiry (fname : pystr) (seconds_from_now now : Z)
    (io : io_outcome) (w : world) : world :=
  save_expiries io
    (with_result_expiry (<[fname := now + seconds_from_now]> (RESULT_EXPIRY w)) w).

(** The entries [load_expiries] keeps: [if v and v > now]. *)
Definition still_future (now : Z) (m : gmap pystr Z) : gmap pystr Z :=
  filter (fun kv => kv.2 ≠ 0 ∧ now < kv.2) m.

(** [load_expiries()] at time [now]: nothing happens without a readable
    file. *)
Definition load_expiries (now : Z) (w : world) : world :=
  match expiry_file w with
  | Some (ups, res) =>
      with_result_expiry (still_future now res)
        (with_upload_expiry (still_future now ups) w)
  | None => w
  end.

Inductive folder : Type := UPLOAD_FOLDER | OUTPUT_FOLDER.

(** [if os.path.exists(path): os.remove(path)] inside [try/except: pass];
    [rm_ok] tells whether the operating system carries out the removal. *)
Definition remove_if_exists (rm_ok : bool) (fname : pystr) (dir : gset pystr)
    : gset pystr :=
  if bool_decide (fname ∈ dir) then (if rm_ok then dir ∖ {[fname]} else dir)
  else dir.

(** The body of the loop over [UPLOAD_EXPIRY]. *)
Definition sweep_upload (now : Z) (rm : folder -> pystr -> bool) (w : world)
    (item : pystr * Z) : world :=
  let '(fname, exp) := item in
  if now >=? exp then
    with_upload_expiry (delete fname (UPLOAD_EXPIRY w))
      (with_upload_files
         (remove_if_exists (rm UPLOAD_FOLDER fname) fname (upload_files w)) w)
  else w.

(** [if STATE.get('filename') == fname: STATE['filename'] = None] *)
Definition clear_if_current (fname : pystr) (st : job_state) : job_state :=
  if bool_decide (filename st = Some fname) then set_filename None st else st.

(** The body of the loop over [RESULT_EXPIRY]. *)
Definition sweep_result (now : Z) (rm : folder -> pystr -> bool) (w : world)
    (item : pystr * Z) : world :=
  let '(fname, exp) := item in
  if now >=? exp then
    with_state (clear_if_current fname)
      (with_result_expiry (delete fname (RESULT_EXPIRY w))
         (with_output_files
            (remove_if_exists (rm OUTPUT_FOLDER fname) fname (output_files w)) w))
  else w.

(** One round of [cleaner_loop] at time [now]: both loops run over a copy
    of the items ([list(....items())]). *)
Definition sweep (now : Z) (rm : folder -> pystr -> bool) (w : world) : world :=
  let w1 := fold_left (sweep_upload now rm) (map_to_list (UPLOAD_EXPIRY w)) w in
  fold_left (sweep_result now rm) (map_to_list (RESULT_EXPIRY w1)) w1.





(* ---------------------------------------------------------------- *)
(** *** Saving a report and looking up one student *)

(** [save_results_to_excel(results, path)]: nothing is written for an
    empty list; [None] when the file cannot be written ([can_write]
    false) and the call raises. *)
Definition save_results_to_excel (can_write : bool) (rs : list result)
    (outname : pystr) (w : world) : option world :=
  match rs with
  | [] => Some w
  | _ :: _ =>
      if can_write then Some (with_output_files ({[outname]} ∪ output_files w) w)
      else None
  end.

(** What the browser steps of one lookup end in: the result page was
    reached (its parse, or [None] when [page_source] raises), or a step
    raised with a message. *)
Inductive lookup : Type :=
| Reached (page : option node)
| Raised (msg : pystr).

(** [process_single_student(driver, name, roll, reg)] *)
Definition process_single_student (l : lookup) (st : student) : result :=
  match l with
  | Reached page =>
      {| r_name := name st; r_roll := roll st; r_reg := reg st;
         status := lit "Success";
         marks := Extractor.extract_data_from_page page |}
  | Raised msg =>
      {| r_name := name st; r_roll := roll st; r_reg := reg st;
         status := lit "Failed: " ++ msg;
         marks := ∅ |}
  end.

(* ---------------------------------------------------------------- *)
(** *** The worker thread *)

(** The form fields of an upload. *)
Record job : Type := { class_name : pystr; semester : pystr }.

(** What the surroundings answer while the worker runs one block. *)
Record env : Type := {
  env_now : Z;                       (* time.time() *)
  env_timestamp : pystr;             (* datetime.now().strftime(...) *)
  env_excel : option (list row);     (* pd.read_excel; None: it raises *)
  env_driver : bool;                 (* create_driver_headless returns *)
  env_lookup : lookup;               (* the lookup of the student in flight *)
  env_save : bool;                   (* the report file can be written *)
  env_persist : io_outcome           (* writing .expiries.json *)
}.

(** Where the worker thread stands, between two blocks that take
    [STATE_LOCK]. [Absent]: no thread was started yet; [Crashed]: an
    exception left [worker_process]. *)
Inductive pc : Type :=
| Absent
| AtStart (j : job)
| AtLoad (j : job)
| AtPublish (j : job) (sts : list student)
| AtDriver (j : job) (sts : list student)
| AtNext (j : job) (sts : list student) (i : nat)
| AtProcess (j : job) (sts : list student) (i : nat) (st : student)
| AtSnapshot (j : job) (sts : list student) (i : nat)
| AtPointer (j : job) (sts : list student) (i : nat) (outname : pystr)
| Returned
| Crashed.

(** [(x or fallback).strip()] *)
Definition or_default (x fallback : pystr) : pystr :=
  strip (match x with [] => fallback | _ => x end).

(** The report name of a snapshot. *)
Definition snapshot_name (j : job) (timestamp : pystr) (w : world) : pystr :=
  let safe_class := or_default (class_name j) (lit "Class") in
  let safe_sem := or_default (semester j) (lit "Semester") in
  let base_name := safe_class ++ lit " " ++ safe_sem ++ lit " result.xlsx" in
  if bool_decide (base_name ∈ output_files w)
  then safe_class ++ lit " " ++ safe_sem ++ lit " result " ++ timestamp ++ lit ".xlsx"
  else base_name.

(** Lines 149-154. *)
Definition reset_state (st : job_state) : job_state :=
  {| students := students st; results := []; current_index := 0;
     running := true; successful := 0; failed := 0; filename := filename st |}.

(** Lines 167-168. *)
Definition set_students (sts : list student) (st : job_state) : job_state :=
  {| students := sts; results := results st;
     current_index := current_index st; running := running st;
     successful := successful st; failed := failed st; filename := filename st |}.

(** Lines 178-179. *)
Definition set_current_index (i : nat) (st : job_state) : job_state :=
  {| students := students st; results := results st;
     current_index := i; running := running st;
     successful := successful st; failed := failed st; filename := filename st |}.

(** Lines 198-203. *)
Definition append_result (r : result) (st : job_state) : job_state :=
  let ok := bool_decide (status r = lit "Success") in
  {| students := students st; results := results st ++ [r];
     current_index := current_index st; running := running st;
     successful := if ok then S (successful st) else successful st;
     failed := if ok then failed st else S (failed st);
     filename := filename st |}.

(** Lines 229-230. *)
Definition clear_running (st : job_state) : job_state :=
  {| students := students st; results := results st;
     current_index := current_index st; running := false;
     successful := successful st; failed := failed st; filename := filename st |}.

(** The next block of [worker_process]. *)
Definition worker_step (e : env) (p : pc) (w : world) : pc * world :=
  match p with
  | Absent | Returned | Crashed => (p, w)
  | AtStart j => (AtLoad j, with_state reset_state w)
  | AtLoad j =>
      match env_excel e with
      | Some df =>
          match load_students df with
          | Some sts => (AtPublish j sts, w)
          | None => (Crashed, w)
          end
      | None => (Crashed, w)
      end
  | AtPublish j sts => (AtDriver j sts, with_state (set_students sts) w)
  | AtDriver j sts =>
      if env_driver e then (AtNext j sts 0, w) else (Crashed, w)
  | AtNext j sts i =>
      match sts !! i with
      | Some st =>
          (AtProcess j sts (S i) st, with_state (set_current_index (S i)) w)
      | None => (Returned, with_state clear_running w)
      end
  | AtProcess j sts i st =>
      (AtSnapshot j sts i,
       with_state (append_result (process_single_student (env_lookup e) st)) w)
  | AtSnapshot j sts i =>
      if ((i mod 5 =? 0) || (i =? length sts))%nat then
        let outname := snapshot_name j (env_timestamp e) w in
        match save_results_to_excel (env_save e) (results (STATE w)) outname w with
        | Some w1 =>
            (AtPointer j sts i outname,
             set_result_expiry outname (20 * 60) (env_now e) (env_persist e) w1)
        | None => (Crashed, w)
        end
      else (AtNext j sts i, w)
  | AtPointer j sts i outname =>
      (AtNext j sts i, with_state (set_filename (Some outname)) w)
  end.

(* ---------------------------------------------------------------- *)
(** *** The request handlers *)

(** [STATE['results'][idx]['marks'] = marks] and
    [STATE['results'][idx]['status'] = 'Success (manual)'] *)
Definition correct_result (m : gmap pystr pystr) (r : result) : result :=
  {| r_name := r_name r; r_roll := r_roll r; r_reg := r_reg r;
     status := lit "Success (manual)"; marks := m |}.

Definition set_results (rs : list result) (st : job_state) : job_state :=
  {| students := students st; results := rs;
     current_index := current_index st; running := running st;
     successful := successful st; failed := failed st; filename := filename st |}.

(** [failed_submit(idx)] with the parsed [manual_marks]; an index out of
    range answers 404 and changes nothing; a report that cannot be written
    ends the handler after the record was changed. *)
Definition failed_submit (idx : Z) (m : gmap pystr pystr) (timestamp : pystr)
    (now : Z) (save_ok : bool) (io : io_outcome) (w : world) : world :=
  if (idx <? 0) || (Z.of_nat (length (results (STATE w))) <=? idx) then w
  else
    let w1 :=
      with_state (fun st => set_results (alter (correct_result m) (Z.to_nat idx) (results st)) st) w in
    let outname := lit "Dashboard_Results_" ++ timestamp ++ lit ".xlsx" in
    match save_results_to_excel save_ok (results (STATE w1)) outname w1 with
    | Some w2 =>
        with_state (set_filename (Some outname))
          (set_result_expiry outname (20 * 60) now io w2)
    | None => w1
    end.

(** [detailed_submit()], as far as it touches the report pointer, the
    ledger and the files. *)
Definition detailed_submit (timestamp : pystr) (now : Z) (save_ok : bool)
    (io : io_outcome) (w : world) : world :=
  let outname := lit "Dashboard_Results_" ++ timestamp ++ lit ".xlsx" in
  match save_results_to_excel save_ok (results (STATE w)) outname w with
  | Some w1 =>
      with_state (set_filename (Some outname))
        (set_result_expiry outname (20 * 60) now io w1)
  | None => w
  end.

(** The JSON object [/status] answers with. *)
Record status_view : Type := {
  total : nat;
  current : nat;
  sv_running : bool;
  sv_successful : nat;
  sv_failed : nat;
  current_student : option pystr;
  failed_list : list result;
  result_file : option pystr;
  result_expires_in : option Z;
  result_expires_at : option Z
}.

(** [r['status'] != 'Success'] *)
Definition not_success (r : result) : bool :=
  negb (bool_decide (status r = lit "Success")).

(** [status()] at time [now] *)
Definition status_query (now : Z) (w : world) : status_view :=
  let st := STATE w in
  let total := length (students st) in
  let current := current_index st in
  let expires_at :=
    match filename st with
    | Some (c :: f) => RESULT_EXPIRY w !! (c :: f)
    | _ => None
    end in
  {| total := total;
     current := current;
     sv_running := running st;
     sv_successful := successful st;
     sv_failed := failed st;
     current_student :=
       if ((0 <? current) && (current <=? total))%nat
       then name <$> students st !! pred current
       else None;
     failed_list := List.filter not_success (results st);
     result_file := filename st;
     result_expires_in := (fun e => Z.max 0 (e - now)) <$> expires_at;
     result_expires_at := expires_at |}.

(* ---------------------------------------------------------------- *)
(** *** The threads together *)

(** The whole system: where the worker stands and what is shared. *)
Definition system : Type := pc * world.

(** One atomic action of some thread: the worker runs its next block, a
    request handler runs, or the cleaner makes a round. *)
Inductive action : Type :=
| Work (e : env)
| Upload (fname : pystr) (j : job) (now : Z) (io : io_outcome)
| FailedSubmit (idx : Z) (m : gmap pystr pystr) (timestamp : pystr) (now : Z)
    (save_ok : bool) (io : io_outcome)
| DetailedSubmit (timestamp : pystr) (now : Z) (save_ok : bool) (io : io_outcome)
| Sweep (now : Z) (rm : folder -> pystr -> bool).

(** A worker thread is alive. *)
Definition alive (p : pc) : bool :=
  match p with
  | Absent | Returned | Crashed => false
  | _ => true
  end.

(** The actions considered: a roster is uploaded only while no worker is
    alive (one batch at a time); the worker moves only while alive. *)
Definition enabled (a : action) (s : system) : bool :=
  match a with
  | Work _ => alive s.1
  | Upload _ _ _ _ => negb (alive s.1)
  | _ => true
  end.

(** [upload()]: the file is saved, its expiry recorded, the worker
    thread started. *)
Definition do_action (a : action) (s : system) : system :=
  match a with
  | Work e => worker_step e s.1 s.2
  | Upload fname j now io =>
      (AtStart j,
       set_upload_expiry fname (10 * 60) now io
         (with_upload_files ({[fname]} ∪ upload_files s.2) s.2))
  | FailedSubmit idx m ts now save_ok io =>
      (s.1, failed_submit idx m ts now save_ok io s.2)
  | DetailedSubmit ts now save_ok io =>
      (s.1, detailed_submit ts now save_ok io s.2)
  | Sweep now rm => (s.1, sweep now rm s.2)
  end.

Definition run_actions (acts : list action) (s : system) : system :=
  fold_left (fun s a => do_action a s) acts s.

(** The states the system can be in. *)
Inductive reachable : system -> Prop :=
| reach_init : reachable (Absent, initial_world)
| reach_step a s : reachable s -> enabled a s = true -> reachable (do_action a s).

(* ---------------------------------------------------------------- *)
(** *** Properties stated about the job state *)

(** The counters agree with the list of results, which never runs ahead
    of the student in flight, who is within the roster. *)
Definition counters_invariant (st : job_state) : Prop :=
  (successful st + failed st = length (results st) /\
   length (results st) <= current_index st /\
   current_index st <= length (students st))%nat.

(** What holds of [STATE] while the worker stands at [p]. *)
Definition worker_invariant (p : pc) (st : job_state) : Prop :=
  match p with
  | Absent | Returned | Crashed | AtStart _ => counters_invariant st
  | AtLoad _ | AtPublish _ _ =>
      results st = [] /\ current_index st = 0%nat /\
      successful st = 0%nat /\ failed st = 0%nat
  | AtDriver _ sts =>
      students st = sts /\ results st = [] /\ current_index st = 0%nat /\
      successful st = 0%nat /\ failed st = 0%nat
  | AtNext _ sts i | AtSnapshot _ sts i | AtPointer _ sts i _ =>
      (students st = sts /\ successful st + failed st = length (results st) /\
       length (results st) = i /\ current_index st = i /\ i <= length sts)%nat
  | AtProcess _ sts i _ =>
      (students st = sts /\ successful st + failed st = length (results st) /\
       S (length (results st)) = i /\ current_index st = i /\ i <= length sts)%nat
  end.

(** Two job states that agree on everything the counters invariant reads. *)
Definition same_counters (st st' : job_state) : Prop :=
  students st' = students st /\
  length (results st') = length (results st) /\
  current_index st' = current_index st /\
  successful st' = successful st /\
  failed st' = failed st /\
  running st' = running st.

Definition is_upload (a : action) : bool :=
  match a with Upload _ _ _ _ => true | _ => false end.

(** Every action of the list is enabled when its turn comes. *)
Fixpoint all_enabled (acts : list action) (s : system) : bool :=
  match acts with
  | [] => true
  | a :: acts' => enabled a s && all_enabled acts' (do_action a s)
  end.

Definition is_work (a : action) : bool :=
  match a with Work _ => true | _ => false end.

(** An action other than a round of the cleaner leaves the ledger entry
    of the report [f] as it is: it does not register [f] anew. *)
Definition keeps_entry (f : pystr) (a : action) (s : system) : bool :=
  match a with
  | Sweep _ _ => true
  | _ => bool_decide (RESULT_EXPIRY (do_action a s).2 !! f = RESULT_EXPIRY s.2 !! f)
  end.

(** Along the run [acts] from [s] the report [f] is not registered
    anew. *)
Fixpoint not_registered_anew (f : pystr) (acts : list action) (s : system) : bool :=
  match acts with
  | [] => true
  | a :: acts' => keeps_entry f a s && not_registered_anew f acts' (do_action a s)
  end.

(** The worker has registered the report [f] and has not yet stored
    [STATE['filename'] = outname] (lines 221-224 of [worker_process]). *)
Definition pointer_write_pending (f : pystr) (p : pc) : bool :=
  match p with
  | AtPointer _ _ _ outname => bool_decide (outname = f)
  | _ => false
  end.

(** Along the run [acts] from [s] the worker never stores the pointer to
    the report [f] at a time when [f] has no ledger entry, that is,
    after the cleaner dropped the entry the worker had just written. *)
Fixpoint no_late_pointer_write (f : pystr) (acts : list action) (s : system) : bool :=
  match acts with
  | [] => true
  | a :: acts' =>
      negb (is_work a && pointer_write_pending f s.1 &&
            bool_decide (RESULT_EXPIRY s.2 !! f = None)) &&
      no_late_pointer_write f acts' (do_action a s)
  end.

(** A restart of the process: the module-level dictionaries and [STATE]
    start afresh, the folders and [.expiries.json] stay as they are. *)
Definition restart (w : world) : world :=
  {| STATE := initial_state; UPLOAD_EXPIRY := ∅; RESULT_EXPIRY := ∅;
     upload_files := upload_files w; output_files := output_files w;
     expiry_file := expiry_file w |}.

End Dashboard.


(* ================================================================== *)
(** ** Sample inputs used by the examples below *)
(* ================================================================== *)

Module Samples.
Import PyStr Soup Roster Dashboard.

Definition td (s : string) : node := Elem "td" [Text (lit s)].
Definition th (s : string) : node := Elem "th" [Text (lit s)].
Definition tr (cells : list node) : node := Elem "tr" cells.
Definition header : node := tr [th "Subject"; th "Max"; th "Total Marks"].

Definition alice : student :=
  {| name := lit "Alice"; roll := lit "101"; reg := lit "5001" |}.
Definition bob : student :=
  {| name := lit "Bob"; roll := lit "102"; reg := lit "5002" |}.

Definition alice_row : row :=
  {| Student_Name := Some (Str (lit "Alice"));
     Roll_Number := Some (Num (101 # 1) (lit "101.0"));
     Registration_Number := Some (Num (5001 # 1) (lit "5001.0")) |}.
Definition bob_row : row :=
  {| Student_Name := Some (Str (lit " Bob "));
     Roll_Number := Some (Str (lit "102"));
     Registration_Number := Some (Num (5002 # 1) (lit "5002")) |}.

Definition a_job : job := {| class_name := lit "CSE"; semester := [] |}.

(** The page of the end-to-end scenario: one row [CS-CS-101: Total 85]. *)
Definition alice_page : node :=
  Elem "[document]"
    [Elem "table" [header; tr [td "CS-CS-101: Algorithms"; td "Total"; td "85"]]].

(** A page whose table repeats the subject code CS-CS-101. *)
Definition first_row : node := tr [td "CS-CS-101: Algorithms"; td "Total"; td "85"].
Definition second_row : node := tr [td "CS-CS-101: Algorithms"; td "Total"; td "40"].
Definition repeated_page : node :=
  Elem "[document]" [Elem "table" [header; first_row; second_row]].

(** A page with marks outside 10..100 in front of an F. *)
Definition small_fail_row : node := tr [td "CS-CS-103: Networks"; td "100"; td "5F"].
Definition large_fail_row : node := tr [td "CS-CS-104: Compilers"; td "100"; td "999f"].
Definition odd_page : node :=
  Elem "[document]" [Elem "table" [header; small_fail_row; large_fail_row]].

(** A row that holds a bare F, a number and the token 29F. *)
Definition mixed_row : node := tr [td "CS-CS-102: Logic"; td "F 100"; td "Marks 29F"].

(** The row of the positional example. *)
Definition max_row : node := tr [td "CS-CS-101: Algorithms"; td "Max:100"; td "Obtained:76"].
Definition max_page : node :=
  Elem "[document]" [Elem "table" [header; max_row]].

Definition env0 : env :=
  {| env_now := 1000; env_timestamp := lit "20250101_120000";
     env_excel := Some [alice_row; bob_row]; env_driver := true;
     env_lookup := Reached (Some alice_page); env_save := true;
     env_persist := Written |}.

(** The same surroundings with a lookup that fails at the view link. *)
Definition env_no_view : env :=
  {| env_now := 1010; env_timestamp := lit "20250101_120010";
     env_excel := Some [alice_row; bob_row]; env_driver := true;
     env_lookup := Raised (lit "View link not found"); env_save := true;
     env_persist := Written |}.

(** Surroundings in which the uploaded file cannot be read. *)
Definition env_unreadable : env :=
  {| env_now := 1000; env_timestamp := lit "20250101_120000";
     env_excel := None; env_driver := true;
     env_lookup := Raised []; env_save := true; env_persist := Written |}.

Definition upload1 : action := Upload (lit "upload_00ff.xlsx") a_job 990 Written.

(** A two-student batch run to its end: Alice succeeds, Bob fails. *)
Definition two_student_run : list action :=
  [upload1; Work env0; Work env0; Work env0; Work env0;
   Work env0; Work env0; Work env0;
   Work env_no_view; Work env_no_view; Work env_no_view; Work env_no_view;
   Work env_no_view].

Definition start : system := (Absent, initial_world).

(** A row with every field present whose roll number is no number. *)
Definition carol_row : row :=
  {| Student_Name := Some (Str (lit "Carol"));
     Roll_Number := Some (Str (lit "abc"));
     Registration_Number := Some (Num (5003 # 1) (lit "5003")) |}.

(** A row without a registration number. *)
Definition dave_row : row :=
  {| Student_Name := Some (Str (lit "Dave"));
     Roll_Number := Some (Num (104 # 1) (lit "104"));
     Registration_Number := Some NaN |}.

(** A row with every field present whose roll number ends in the
    separator US, which [str.strip()] removes and [int()] does not. *)
Definition erin_row : row :=
  {| Student_Name := Some (Str (lit "Erin"));
     Roll_Number := Some (Str (lit "105" ++ [ascii_of_N 31]));
     Registration_Number := Some (Num (5005 # 1) (lit "5005")) |}.

(** A row of a workbook that has no column 'Student Name'. *)
Definition nameless_row : row :=
  {| Student_Name := None;
     Roll_Number := Some (Num (106 # 1) (lit "106"));
     Registration_Number := Some (Num (5006 # 1) (lit "5006")) |}.

(** A row of the same workbook without a roll number: the guard stops
    at the first missing value and never reads the name. *)
Definition nameless_blank_row : row :=
  {| Student_Name := None;
     Roll_Number := Some NaN;
     Registration_Number := Some (Num (5007 # 1) (lit "5007")) |}.

Definition report : pystr := lit "CSE Semester result.xlsx".

(** A world in which [report] was written and registered at time 0 for
    20 minutes, the ledger written to disk. *)
Definition world_with_report : world :=
  set_result_expiry report (20 * 60) 0 Written
    (with_state (set_filename (Some report))
       (with_output_files {[report]} initial_world)).


(** A worker that registered [report] at time 0 and is about to store
    the pointer to it; the cleaner makes its round at 1200 first. *)
Definition slow_pointer_write : list action :=
  [ Sweep 1200 (fun _ _ => true); Work env0 ].

Definition rm_always : folder -> pystr -> bool := fun _ _ => true.
Definition rm_never : folder -> pystr -> bool := fun _ _ => false.

End Samples.

(* ================================================================== *)
(** ** Further properties stated about a batch run *)
(* ================================================================== *)

Module Progress.
Import PyStr Roster Dashboard.

(** The student a result record was made for. *)
Definition identity (r : result) : student :=
  {| name := r_name r; roll := r_roll r; reg := r_reg r |}.

(** The results so far are those of the first students of the roster, in
    the order of the roster. *)
Definition in_roster_order (st : job_state) : Prop :=
  identity <$> results st = take (length (results st)) (students st).

(** What holds of [STATE] at each place of the worker, besides the
    counters: the order of the results, the student in flight, and the
    [running] flag. *)
Definition progress_invariant (p : pc) (st : job_state) : Prop :=
  in_roster_order st /\
  match p with
  | Absent => running st = false
  | AtStart _ => True
  | AtLoad _ | AtPublish _ _ | AtDriver _ _ | AtNext _ _ _
  | AtSnapshot _ _ _ | AtPointer _ _ _ _ | Crashed => running st = true
  | AtProcess _ sts i s => running st = true /\ sts !! pred i = Some s
  | Returned =>
      running st = false /\ length (results st) = length (students st)
  end.

Definition is_sweep (a : action) : bool :=
  match a with Sweep _ _ => true | _ => false end.

(** An action of the worker or of a handler other than [upload]. *)
Definition is_quiet (a : action) : bool := negb (is_sweep a) && negb (is_upload a).

(** What the worker and the handlers other than [upload] keep of a
    world, for a name [f]: the upload side as it is, the file [f], the
    entry of [f] in the ledger of the reports, and a report pointer. *)
Definition kept (f : pystr) (w w' : world) : Prop :=
  UPLOAD_EXPIRY w' = UPLOAD_EXPIRY w /\
  upload_files w' = upload_files w /\
  (f ∈ output_files w -> f ∈ output_files w') /\
  (is_Some (RESULT_EXPIRY w !! f) -> is_Some (RESULT_EXPIRY w' !! f)) /\
  (is_Some (filename (STATE w)) -> is_Some (filename (STATE w'))).

(** The entries of a ledger that lie later than [now]. *)
Definition later_than_now (now : Z) (m : gmap pystr Z) : gmap pystr Z :=
  filter (fun kv => now < kv.2) m.

End Progress.


(* ================================================================== *)
(** ** The request forms ([dashboard_app.py], the POST handlers) *)
(* ================================================================== *)

Module Forms.
Import PyStr Roster Dashboard.

(** The line boundaries of [str.splitlines] on ASCII text: LF, VT, FF, CR
    and the separators FS, GS, RS. *)
Definition is_linebreak (c : ascii) : bool :=
  between 10 13 c || between 28 30 c.

Definition is_cr (c : ascii) : bool := (code c =? 13)%N.
Definition is_lf (c : ascii) : bool := (code c =? 10)%N.

(** What follows a line boundary [c]: CR LF counts as one boundary. *)
Definition after_break (c : ascii) (s : pystr) : pystr :=
  if is_cr c then
    match s with
    | d :: s' => if is_lf d then s' else s
    | [] => s
    end
  else s.

(** [s.splitlines()]: the boundaries are dropped, and a boundary at the
    very end opens no further line. *)
Fixpoint splitlines (s : pystr) : list pystr :=
  match s with
  | [] => []
  | c :: s' =>
      if is_linebreak c then
        [] :: splitlines (after_break c s')
      else
        match splitlines s' with
        | l :: ls => (c :: l) :: ls
        | [] => [[c]]
        end
  end.

(** [s.split(sep)] for a separator of one character: one part more than
    there are separators. *)
Fixpoint split (sep : ascii) (s : pystr) : list pystr :=
  match s with
  | [] => [[]]
  | c :: s' =>
      if Ascii.eqb c sep then [] :: split sep s'
      else
        match split sep s' with
        | p :: ps => (c :: p) :: ps
        | [] => [[c]]
        end
  end.

Definition comma : ascii := ","%char.

(** [parts = [p.strip() for p in line.split(',')]] *)
Definition line_parts (line : pystr) : list pystr := strip <$> split comma line.

(** The body of the loop over the lines of [manual_marks]. *)
Definition add_line (marks : gmap pystr pystr) (line : pystr) : gmap pystr pystr :=
  let parts := line_parts line in
  if (4 <=? length parts)%nat then
    match parts !! 0%nat, parts !! 3%nat with
    | Some code, Some obtained => <[code := obtained]> marks
    | _, _ => marks
    end
  else marks.

(** Lines 310-317 of [failed_submit]: the marks read from the text area,
    one line [CODE,NAME,TOTAL,OBTAINED] per subject. *)
Definition parse_manual_marks (manual : pystr) : gmap pystr pystr :=
  fold_left add_line (splitlines manual) ∅.

(** [failed_submit(idx)] as the request reaches it: [manual] is the
    field [manual_marks] of the form, [None] when it is missing. *)
Definition failed_submit_request (idx : Z) (manual : option pystr)
    (timestamp : pystr) (now : Z) (save_ok : bool) (io : io_outcome) (w : world)
    : world :=
  failed_submit idx (parse_manual_marks (default [] manual)) timestamp now save_ok io w.

(** One line of the text area as the page asks for it. *)
Definition render_line (rec : pystr * pystr * pystr * pystr) : pystr :=
  let '(code, name, total, obtained) := rec in
  code ++ [comma] ++ name ++ [comma] ++ total ++ [comma] ++ obtained.

Definition newline : ascii := ascii_of_N 10.

(** A text without commas and line boundaries. *)
Definition plain_field (s : pystr) : Prop :=
  Forall (fun c => is_linebreak c = false /\ c <> comma) s.

Definition plain_record (rec : pystr * pystr * pystr * pystr) : Prop :=
  let '(code, name, total, obtained) := rec in
  plain_field code /\ plain_field name /\ plain_field total /\ plain_field obtained.

(** What one line of the text area defines: the subject and its mark,
    nothing for a line of fewer than four parts. *)
Definition line_entry (line : pystr) : option (pystr * pystr) :=
  match line_parts line with
  | code :: _ :: _ :: obtained :: _ => Some (code, obtained)
  | _ => None
  end.

(** An entry of [subject_info]. *)
Record subject : Type := { subject_name : pystr; total_marks : Z }.

#[export] Instance subject_eq_dec : EqDecision subject.
Proof. solve_decision. Defined.

(** The body of the loop over [request.form.items()] in
    [detailed_submit]; [int(total_val)] that raises gives [None], and
    [if name and total_marks] drops an empty name, [None] and 0. *)
Definition add_subject (form : gmap pystr pystr) (key val : pystr)
    (info : gmap pystr subject) : gmap pystr subject :=
  if startswith (lit "code_") key then
    let code := drop 5 key in
    let name := strip val in
    let total_val := strip (default [] (form !! (lit "total_" ++ code))) in
    match name, int_of_str total_val with
    | _ :: _, Some total =>
        if total =? 0 then info
        else <[code := {| subject_name := name; total_marks := total |}]> info
    | _, _ => info
    end
  else info.

(** What the fields [code_<code>] (with value [val]) and [total_<code>]
    of a form say about the subject [code]. *)
Definition subject_entry (form : gmap pystr pystr) (code val : pystr)
    : option subject :=
  match strip val, int_of_str (strip (default [] (form !! (lit "total_" ++ code)))) with
  | _ :: _, Some total =>
      if total =? 0 then None
      else Some {| subject_name := strip val; total_marks := total |}
  | _, _ => None
  end.

(** Lines 364-376 of [detailed_submit]: [subject_info] read from the
    form, a dictionary from field names to values. *)
Definition parse_subject_info (form : gmap pystr pystr) : gmap pystr subject :=
  map_fold (add_subject form) ∅ form.

(** [s.lower()] *)
Definition lower (s : pystr) : pystr := map lower_char s.

(** What [download_results] answers. *)
Inductive download : Type :=
| NoResultsJson          (* {'error': 'no_results'}, 404 *)
| NoResultsText          (* 'No results yet', 404 *)
| SendFile (fname : pystr)   (* the file, as an attachment *)
| FileMissing (fname : pystr). (* send_from_directory finds no file: 404 *)

(** [download_results()]; [accept] is the header [Accept], empty when
    the request has none. *)
Definition download_results (accept : pystr) (w : world) : download :=
  match filename (STATE w) with
  | Some (c :: f) =>
      if bool_decide ((c :: f) ∈ output_files w) then SendFile (c :: f)
      else FileMissing (c :: f)
  | _ =>
      if contains (lit "application/json") (lower accept) then NoResultsJson
      else NoResultsText
  end.

(** [failed_detail(idx)]: the record shown, [None] for 404. *)
Definition failed_detail (idx : Z) (w : world) : option result :=
  if (idx <? 0) || (Z.of_nat (length (results (STATE w))) <=? idx) then None
  else results (STATE w) !! Z.to_nat idx.

End Forms.


(* ================================================================== *)
(** ** The browser steps of one lookup ([Result_Downloader.py]) *)
(* ================================================================== *)

Module Navigation.
Import PyStr Soup Roster Dashboard.

(** What [wait_for_element] answers for one control: nothing within the
    timeout ([None]), or the element; [fault] is the message of the
    exception that using the element ([clear], [send_keys], [click])
    raises, if it raises. *)
Inductive element : Type :=
| Missing
| Present (fault : option pystr).

(** The answers of the browser during one lookup, in the order the
    source asks for them. [wait_for_page_load] and
    [wait_for_result_content] swallow every exception and their answers
    are only logged, so they do not appear. *)
Record browser : Type := {
  roll_input : element;        (* By.ID, "txtRollNo" *)
  reg_input : element;         (* By.ID, "txtRegistrationNo" *)
  submit_btn : element;        (* By.ID, "cmdbtnProceed" *)
  confirm_img : element;       (* By.NAME, "imgComfirm" *)
  confirm_cmd : element;       (* By.NAME, "cmdconfirm" *)
  view_link : element;         (* By.LINK_TEXT, "View" *)
  page_source : option node    (* the parse of the result page *)
}.

(** The steps inside [try]: a value, or the message of the exception. *)
Definition step (A : Type) : Type := pystr + A.

#[export] Instance step_ret : MRet step := fun A x => inr x.
#[export] Instance step_bind : MBind step := fun A B f m =>
  match m with
  | inl msg => inl msg
  | inr x => f x
  end.

Definition raise {A : Type} (msg : pystr) : step A := inl msg.

(** [e = wait_for_element(...); if not e: raise Exception(msg)], then the
    use of the element. *)
Definition require (e : element) (msg : string) : step unit :=
  match e with
  | Missing => raise (lit msg)
  | Present (Some fault) => raise fault
  | Present None => mret tt
  end.

(** [btn = wait_for_element(...); if btn: btn.click()]: tells whether
    the button was there. *)
Definition click_if_present (e : element) : step bool :=
  match e with
  | Missing => mret false
  | Present (Some fault) => raise fault
  | Present None => mret true
  end.

(** The loop over the two confirm buttons, left at the first one found. *)
Definition confirm (b : browser) : step unit :=
  found ← click_if_present (confirm_img b);
  if (found : bool) return step unit then mret tt
  else click_if_present (confirm_cmd b);; mret tt.

(** The body of [try] in [process_single_student] up to the extraction. *)
Definition steps (b : browser) : step unit :=
  require (roll_input b) "Roll input not found";;
  require (reg_input b) "Registration input not found";;
  require (submit_btn b) "Submit button not found";;
  confirm b;;
  require (view_link b) "View link not found".

(** What the browser steps end in. *)
Definition navigate (b : browser) : lookup :=
  match steps b with
  | inl msg => Raised msg
  | inr _ => Reached (page_source b)
  end.

(** [process_single_student(driver, name, roll, reg)] against a browser. *)
Definition lookup_student (b : browser) (st : student) : result :=
  process_single_student (navigate b) st.

(** The control responds: it is there and using it raises nothing. *)
Definition responds (e : element) : Prop := e = Present None.

(** The control, if it is there, responds. *)
Definition harmless (e : element) : Prop := e = Missing \/ e = Present None.

(** The confirm step raises nothing. *)
Definition confirm_passes (b : browser) : Prop :=
  responds (confirm_img b) \/
  (confirm_img b = Missing /\ harmless (confirm_cmd b)).

(** The same browser with other answers for the two confirm buttons. *)
Definition with_confirm (img cmd : element) (b : browser) : browser :=
  {| roll_input := roll_input b; reg_input := reg_input b;
     submit_btn := submit_btn b; confirm_img := img; confirm_cmd := cmd;
     view_link := view_link b; page_source := page_source b |}.

End Navigation.


(* ================================================================== *)
(** ** The report table ([save_results_to_excel] and [/results]) *)
(* ================================================================== *)

Module Report.
Import PyStr Roster Dashboard Tokens.

(** A list in the order [R]: every element stands in [R] to all later
    ones. *)
Fixpoint ascending (R : pystr -> pystr -> Prop) (l : list pystr) : Prop :=
  match l with
  | [] => True
  | x :: l' => Forall (R x) l' /\ ascending R l'
  end.

(** [a <= b] on strings: by code points, a prefix first. *)
Fixpoint str_leb (a b : pystr) : bool :=
  match a, b with
  | [], _ => true
  | _ :: _, [] => false
  | x :: a', y :: b' =>
      (code x <? code y)%N || ((code x =? code y)%N && str_leb a' b')
  end.

(** [sorted(l)] for a list of strings. *)
Fixpoint insert_sorted (x : pystr) (l : list pystr) : list pystr :=
  match l with
  | [] => [x]
  | y :: l' => if str_leb x y then x :: l else y :: insert_sorted x l'
  end.

Definition sorted (l : list pystr) : list pystr := foldr insert_sorted [] l.

(** [if result['marks']: all_subjects.update(result['marks'].keys())] *)
Definition update_subjects (acc : gset pystr) (r : result) : gset pystr :=
  if bool_decide (marks r = ∅) then acc else acc ∪ dom (marks r).

(** [all_subjects = sorted(list(all_subjects))] after the loop over the
    results. *)
Definition all_subjects (rs : list result) : list pystr :=
  sorted (elements (fold_left update_subjects rs ∅)).

Definition NA : pystr := lit "N/A".

(** One row of [excel_data]: a dictionary from column names to cells,
    first the four fixed ones, then the loop over the subjects. *)
Definition fixed_row (r : result) : gmap pystr pystr :=
  <[lit "Status" := status r]>
    (<[lit "Registration_Number" := r_reg r]>
       (<[lit "Roll_Number" := r_roll r]>
          (<[lit "Student_Name" := r_name r]> ∅))).

Definition excel_row (subjects : list pystr) (r : result) : gmap pystr pystr :=
  fold_left (fun row s => <[s := default NA (marks r !! s)]> row) subjects
    (fixed_row r).

(** [excel_data] of [save_results_to_excel]; [None]: no results, nothing
    is written. *)
Definition excel_data (rs : list result) : option (list (gmap pystr pystr)) :=
  match rs with
  | [] => None
  | _ => Some (excel_row (all_subjects rs) <$> rs)
  end.

Definition fixed_columns : list pystr :=
  [lit "Student_Name"; lit "Roll_Number"; lit "Registration_Number"; lit "Status"].

(** [digits = ''.join([c for c in str(raw) if c.isdigit()])] and
    [val = int(digits) if digits else 0] *)
Definition cell_value (raw : pystr) : Z :=
  match List.filter is_digit raw with
  | [] => 0
  | ds => int_of_digits ds
  end.

(** The column [Total] of one row of [/results]: the loop over
    [all_subjects]. *)
Definition row_total (subjects : list pystr) (r : result) : Z :=
  fold_left (fun total s => total + cell_value (default NA (marks r !! s))) subjects 0.

(** The totals shown by [/results], one per result. *)
Definition results_totals (rs : list result) : list Z :=
  row_total (all_subjects rs) <$> rs.

(** [detailed()]: the subject codes the page asks names and totals for;
    [None] stands for the redirect when there is none. *)
Definition detailed (w : world) : option (list pystr) :=
  match all_subjects (results (STATE w)) with
  | [] => None
  | s :: l => Some (s :: l)
  end.

(** The sum of a list of integers. *)
Definition sumZ (l : list Z) : Z := foldr Z.add 0 l.

(** [a < b] on strings. *)
Definition str_lt (a b : pystr) : Prop := str_leb a b = true /\ a <> b.

End Report.


(* ================================================================== *)
(** ** What the patterns accept, stated without the matcher *)
(* ================================================================== *)

Module Accepts.
Import PyStr Re Extractor Tokens.

Section Rounds.
Variable one : option pystr -> option ascii -> pystr -> pystr -> option pystr -> Prop.

(** Between [lo] and [n] rounds of [one], each on the text the one
    before left. *)
Inductive rounds : nat -> nat -> option pystr -> option ascii -> pystr -> pystr ->
                   option pystr -> Prop :=
| rounds_stop n cap prev rest : rounds 0 n cap prev [] rest cap
| rounds_more lo n cap prev u v rest cap1 cap2 :
    one cap prev u (v ++ rest) cap1 ->
    rounds (pred lo) n cap1 (char_before prev u) v rest cap2 ->
    rounds lo (S n) cap prev (u ++ v) rest cap2.

End Rounds.

(** [accepts ic r cap prev u rest cap']: the pattern [r] matches the
    text [u], which stands after the character [prev] and before [rest];
    [cap] is group 1 before the match and [cap'] after it. *)
Fixpoint accepts (ic : bool) (r : re) (cap : option pystr) (prev : option ascii)
    (u rest : pystr) (cap' : option pystr) : Prop :=
  match r with
  | Chr c => exists a, u = [a] /\ chr_ok ic c a = true /\ cap' = cap
  | Cls p => exists a, u = [a] /\ cls_ok ic p a = true /\ cap' = cap
  | Seq r1 r2 =>
      exists u1 u2 cap1,
        u = u1 ++ u2 /\
        accepts ic r1 cap prev u1 (u2 ++ rest) cap1 /\
        accepts ic r2 cap1 (char_before prev u1) u2 rest cap'
  | Rep r' lo hi =>
      rounds (accepts ic r') lo (default (length (u ++ rest)) hi) cap prev u rest cap'
  | Bol => prev = None /\ u = [] /\ cap' = cap
  | WordB => xorb (word_before prev) (word_after rest) = true /\ u = [] /\ cap' = cap
  | Grp r' => (exists cap1, accepts ic r' cap prev u rest cap1) /\ cap' = Some u
  end.

(** Between [lo] and [hi] characters of a class. *)
Definition run_of (p : ascii -> bool) (lo hi : nat) (s : pystr) : Prop :=
  (lo <= length s <= hi)%nat /\ Forall (fun c => p c = true) s.

Definition dash : ascii := "-"%char.

(** The three shapes of a subject code: [CS-CSE-101A], [CS-CSE-IV],
    [CS-101A]. *)
Definition numbered_code (code : pystr) : Prop :=
  exists a b d o,
    code = a ++ dash :: b ++ dash :: d ++ o /\
    run_of is_upper 2 3 a /\ run_of is_upper 2 4 b /\
    run_of is_digit 2 3 d /\ run_of is_upper 0 1 o.

Definition roman_code (code : pystr) : Prop :=
  exists a b n,
    code = a ++ dash :: b ++ dash :: n /\
    run_of is_upper 2 3 a /\ run_of is_upper 2 4 b /\
    n <> [] /\ Forall (fun c => is_roman c = true) n.

Definition short_code (code : pystr) : Prop :=
  exists a d o,
    code = a ++ dash :: d ++ o /\
    run_of is_upper 2 3 a /\ run_of is_digit 2 3 d /\ run_of is_upper 0 1 o.

Definition code_shape (code : pystr) : Prop :=
  numbered_code code \/ roman_code code \/ short_code code.

End Accepts.


(* ================================================================== *)
(** ** The command-line run ([Result_Downloader.py], [run_cli]) *)
(* ================================================================== *)

Module Cli.
Import PyStr Roster Dashboard Forms Report.

(** [while True: subject_name = input(...).strip(); if subject_name: break];
    [inputs] are the lines still to be typed, [None] stands for the
    [EOFError] of an [input] without a line. *)
Fixpoint ask_name (inputs : list pystr) : option (pystr * list pystr) :=
  match inputs with
  | [] => None
  | x :: rest =>
      match strip x with
      | [] => ask_name rest
      | c :: name => Some (c :: name, rest)
      end
  end.

(** The loop that asks for the total marks until a positive integer is
    typed. *)
Fixpoint ask_total (inputs : list pystr) : option (Z * list pystr) :=
  match inputs with
  | [] => None
  | x :: rest =>
      match int_of_str (strip x) with
      | Some total => if 0 <? total then Some (total, rest) else ask_total rest
      | None => ask_total rest
      end
  end.

(** The loop over [sorted(all_subjects)]. *)
Fixpoint collect_from (subjects : list pystr) (inputs : list pystr)
    (info : gmap pystr subject) : option (gmap pystr subject * list pystr) :=
  match subjects with
  | [] => Some (info, inputs)
  | s :: subjects' =>
      match ask_name inputs with
      | Some (name, rest) =>
          match ask_total rest with
          | Some (total, rest') =>
              collect_from subjects' rest'
                (<[s := {| subject_name := name; total_marks := total |}]> info)
          | None => None
          end
      | None => None
      end
  end.

(** [collect_subject_names(all_subjects)] with the lines typed; the
    lines left over are returned as well. *)
Definition collect_subject_names (all_subjects : gset pystr) (inputs : list pystr)
    : option (gmap pystr subject * list pystr) :=
  collect_from (sorted (elements all_subjects)) inputs ∅.

(** The two lines typed for each subject, in the order asked. *)
Definition answers_for (ans : pystr -> pystr * pystr) (subjects : list pystr)
    : list pystr :=
  flat_map (fun s => [(ans s).1; (ans s).2]) subjects.

(** Two lines that are accepted at once: a name that is not blank and a
    total that reads as an integer greater than 0. *)
Definition valid_answer (a : pystr * pystr) : Prop :=
  strip a.1 <> [] /\ exists t, int_of_str (strip a.2) = Some t /\ 0 < t.

(** What the surroundings answer during a run of [run_cli]. *)
Record cli_env : Type := {
  cli_excel : option (list row);   (* pd.read_excel; None: it raises *)
  cli_driver : bool;               (* webdriver.Chrome(...) returns *)
  cli_setup : bool;                (* opening the site and the window raise nothing *)
  cli_lookup : nat -> lookup;      (* the lookup of the student at an index *)
  cli_reload : nat -> bool;        (* the reload after that student raises nothing *)
  cli_timestamp : pystr;           (* datetime.now().strftime(...) *)
  cli_inputs : list pystr;         (* the lines typed *)
  cli_save : bool                  (* the report file can be written *)
}.

(** A report: its file name, the records and the subject information. *)
Definition saved_report : Type :=
  pystr * list result * option (gmap pystr subject).

(** What a run leaves behind: the report written, the counts logged at
    the end ([successful], [failed]) when the run reaches its end, and
    whether [driver.quit()] was called. *)
Record cli_outcome : Type := {
  cli_report : option saved_report;
  cli_counts : option (nat * nat);
  cli_quit : bool
}.

(** [all_results.append(result)] and the two counters. *)
Definition count_result (acc : list result * nat * nat) (r : result)
    : list result * nat * nat :=
  let '(rs, ok, bad) := acc in
  if bool_decide (status r = lit "Success") then (rs ++ [r], S ok, bad)
  else (rs ++ [r], ok, S bad).


(** The loop over the students; [i] counts from 0. The page is loaded
    again after every student but the last, and an exception there ends
    the loop ([None]). *)
Fixpoint process_students (e : cli_env) (i : nat) (sts : list student)
    (acc : list result * nat * nat) : option (list result * nat * nat) :=
  match sts with
  | [] => Some acc
  | st :: rest =>
      let acc' := count_result acc (process_single_student (cli_lookup e i) st) in
      match rest with
      | [] => Some acc'
      | _ :: _ => if cli_reload e i then process_students e (S i) rest acc' else None
      end
  end.

(** The question whether to collect subject information: [None] when an
    [input] finds no line. *)
Definition ask_subject_info (interactive : bool) (subjects : gset pystr)
    (inputs : list pystr) : option (option (gmap pystr subject)) :=
  if negb (bool_decide (subjects = ∅)) && interactive then
    match inputs with
    | [] => None
    | x :: rest =>
        let collect_info := lower (strip x) in
        if bool_decide (collect_info ∈ [lit "y"; lit "yes"]) then
          match collect_subject_names subjects rest with
          | Some (info, _) => Some (Some info)
          | None => None
          end
        else Some None
    end
  else Some None.

(** The part of [run_cli] inside the inner [try]; [None]: an exception
    leaves it. *)
Definition with_driver (interactive : bool) (e : cli_env) (sts : list student)
    : option (option saved_report * (nat * nat)) :=
  if cli_setup e then
    match process_students e 0 sts ([], 0%nat, 0%nat) with
    | Some (rs, ok, bad) =>
        let filename := lit "Complete_Results_" ++ cli_timestamp e ++ lit ".xlsx" in
        match ask_subject_info interactive (fold_left update_subjects rs ∅)
                (cli_inputs e) with
        | Some info =>
            match rs with
            | [] => Some (None, (ok, bad))
            | _ :: _ =>
                if cli_save e then Some (Some (filename, rs, info), (ok, bad))
                else None
            end
        | None => None
        end
    | None => None
    end
  else None.

(** [result['status'] == 'Success'] *)
Definition is_success (r : result) : bool :=
  bool_decide (status r = lit "Success").

Definition nothing_done (quit : bool) : cli_outcome :=
  {| cli_report := None; cli_counts := None; cli_quit := quit |}.

(** [run_cli(excel_path, interactive)]: every exception is logged, none
    leaves the function. *)
Definition run_cli (interactive : bool) (e : cli_env) : cli_outcome :=
  match cli_excel e ≫= load_students with
  | Some sts =>
      if cli_driver e then
        match with_driver interactive e sts with
        | Some (rep, counts) =>
            {| cli_report := rep; cli_counts := Some counts; cli_quit := true |}
        | None => nothing_done true
        end
      else nothing_done false
  | None => nothing_done false
  end.

End Cli.


(* ================================================================== *)
(** ** Further sample inputs *)
(* ================================================================== *)

Module MoreSamples.
Import PyStr Soup Roster Dashboard Forms Navigation Samples.

(** A browser in which every control responds and no confirm button
    appears. *)
Definition plain_browser : browser :=
  {| roll_input := Present None; reg_input := Present None;
     submit_btn := Present None; confirm_img := Missing; confirm_cmd := Missing;
     view_link := Present None; page_source := Some alice_page |}.

(** The same site without the view link. *)
Definition browser_without_view : browser :=
  {| roll_input := Present None; reg_input := Present None;
     submit_btn := Present None; confirm_img := Missing; confirm_cmd := Missing;
     view_link := Missing; page_source := None |}.

Definition alice_result : result :=
  {| r_name := lit "Alice"; r_roll := lit "101"; r_reg := lit "5001";
     status := lit "Success";
     marks := {[ lit "CS-CS-101" := lit "85"; lit "CS-CS-102" := lit "29F" ]} |}.

Definition bob_result : result :=
  {| r_name := lit "Bob"; r_roll := lit "102"; r_reg := lit "5002";
     status := lit "Success";
     marks := {[ lit "CS-CS-103" := lit "F" ]} |}.

(** The lines typed for two subjects: a blank line and the totals 0 and
    abc are asked again. *)
Definition typed_lines : list pystr :=
  [ lit "  "; lit " Algorithms "; lit "0"; lit "abc"; lit "100";
    lit "Logic"; lit "+50"; lit "left over" ].

Definition two_subjects : gset pystr := {[ lit "CS-CS-102"; lit "CS-CS-101" ]}.

Definition typed_answers (s : pystr) : pystr * pystr :=
  if bool_decide (s = lit "CS-CS-101") then (lit " Algorithms ", lit "100")
  else (lit "Logic", lit "+50").

(** A command-line run over the two students of the roster: Alice's
    lookup reaches her page, Bob's fails at the view link. *)
Definition cli_env0 : Cli.cli_env :=
  {| Cli.cli_excel := Some [alice_row; bob_row]; Cli.cli_driver := true;
     Cli.cli_setup := true;
     Cli.cli_lookup := fun i => match i with
                                | O => navigate plain_browser
                                | _ => navigate browser_without_view
                                end;
     Cli.cli_reload := fun _ => true;
     Cli.cli_timestamp := lit "20250101_120000";
     Cli.cli_inputs := [lit "n"]; Cli.cli_save := true |}.

(** The same run with a browser that fails to load the page again after
    the first student. *)
Definition cli_env_no_reload : Cli.cli_env :=
  {| Cli.cli_excel := Some [alice_row; bob_row]; Cli.cli_driver := true;
     Cli.cli_setup := true;
     Cli.cli_lookup := fun _ => navigate plain_browser;
     Cli.cli_reload := fun _ => false;
     Cli.cli_timestamp := lit "20250101_120000";
     Cli.cli_inputs := []; Cli.cli_save := true |}.

(** A world that holds the two records, and a form that fills in the
    three subjects the page [/detailed] lists for it. *)
Definition world_with_results : world :=
  with_state (set_results [alice_result; bob_result]) initial_world.

Definition subjects_form : gmap pystr pystr :=
  <[lit "code_CS-CS-101" := lit " Algorithms "]>
    (<[lit "total_CS-CS-101" := lit "100"]>
       (<[lit "code_CS-CS-102" := lit "Logic"]>
          (<[lit "total_CS-CS-102" := lit "50"]>
             (<[lit "code_CS-CS-103" := lit "Networks"]>
                (<[lit "total_CS-CS-103" := lit "-75"]> ∅))))).

End MoreSamples.
(* ================================================================== *)
(** * Theorems *)
(* ================================================================== *)

Import PyStr Re Soup Extractor Tokens Roster Dashboard Samples.

(* ------------------------------------------------------------------ *)
(** ** The status query and manual correction *)

Lemma not_success_spec (r : result) :
  not_success r = true <-> status r <> lit "Success".
Proof.
  unfold not_success. rewrite negb_true_iff, bool_decide_eq_false. tauto.
Qed.

Lemma manual_status_is_not_success (m : gmap pystr pystr) (r : result) :
  not_success (correct_result m r) = true.
Proof. reflexivity. Qed.

Lemma failed_submit_result (idx : Z) (m : gmap pystr pystr) (ts : pystr) (now : Z)
    (save_ok : bool) (io : io_outcome) (w : world) (r : result) :
  0 <= idx ->
  results (STATE w) !! Z.to_nat idx = Some r ->
  results (STATE (failed_submit idx m ts now save_ok io w)) !! Z.to_nat idx
  = Some (correct_result m r).
Proof.
  intros Hidx Hr. unfold failed_submit.
  pose proof (lookup_lt_Some _ _ _ Hr) as Hlt.
  replace (idx <? 0) with false by (symmetry; apply Z.ltb_ge; lia).
  replace (Z.of_nat (length (results (STATE w))) <=? idx) with false
    by (symmetry; apply Z.leb_gt; lia).
  cbn [orb].
  assert (Hw1 : results (STATE (with_state
            (fun st => set_results (alter (correct_result m) (Z.to_nat idx) (results st)) st) w))
          !! Z.to_nat idx = Some (correct_result m r)).
  { cbn. rewrite list_lookup_alter_eq, Hr. reflexivity. }
  destruct (save_results_to_excel _ _ _ _) as [w2|] eqn:Hsave; [|exact Hw1].
  unfold save_results_to_excel in Hsave.
  destruct (results _) as [|r0 rs] eqn:Hrs in Hsave.
  - rewrite Hrs in Hw1. rewrite lookup_nil in Hw1. discriminate.
  - destruct save_ok; [|discriminate]. injection Hsave as <-.
    destruct io; exact Hw1.
Qed.

(** C10. The failure list of the status query holds exactly the results
    whose status is not the string [Success], and a record repaired by
    [failed_submit], whose status is then [Success (manual)], is in it. *)
Theorem status_failed_list_keeps_manual (now : Z) (w : world) :
  (forall r : result,
      r ∈ failed_list (status_query now w)
      <-> r ∈ results (STATE w) /\ status r <> lit "Success") /\
  (forall (idx : Z) (m : gmap pystr pystr) (ts : pystr) (now' : Z)
          (save_ok : bool) (io : io_outcome) (r : result),
      0 <= idx ->
      results (STATE w) !! Z.to_nat idx = Some r ->
      let w' := failed_submit idx m ts now' save_ok io w in
      exists r' : result,
        results (STATE w') !! Z.to_nat idx = Some r' /\
        status r' = lit "Success (manual)" /\
        marks r' = m /\
        r' ∈ failed_list (status_query now w')).
Proof.
  split.
  - intros r. cbn. rewrite list_elem_of_In, filter_In, <- list_elem_of_In.
    rewrite not_success_spec. tauto.
  - intros idx m ts now' save_ok io r Hidx Hr w'.
    exists (correct_result m r).
    pose proof (failed_submit_result idx m ts now' save_ok io w r Hidx Hr) as Hl.
    repeat split; try assumption.
    cbn. rewrite list_elem_of_In, filter_In, <- list_elem_of_In. split.
    + eapply list_elem_of_lookup_2. exact Hl.
    + apply manual_status_is_not_success.
Qed.

(* ------------------------------------------------------------------ *)
(** ** The counters of a batch run *)

Lemma same_counters_refl (st : job_state) : same_counters st st.
Proof. repeat split. Qed.

Lemma same_counters_trans (a b c : job_state) :
  same_counters a b -> same_counters b c -> same_counters a c.
Proof.
  unfold same_counters. intros (?&?&?&?&?&?) (?&?&?&?&?&?).
  repeat split; congruence.
Qed.

Lemma worker_invariant_same (p : pc) (st st' : job_state) :
  same_counters st st' -> worker_invariant p st -> worker_invariant p st'.
Proof.
  intros (Hs & Hl & Hc & Hok & Hko & _) H.
  assert (Hnil : results st = [] -> results st' = []).
  { intros E. rewrite E in Hl. now apply length_zero_iff_nil. }
  destruct p; cbn in *; unfold counters_invariant in *;
    rewrite ?Hs, ?Hl, ?Hc, ?Hok, ?Hko; intuition.
Qed.

Lemma worker_invariant_counters (p : pc) (st : job_state) :
  worker_invariant p st -> counters_invariant st.
Proof.
  destruct p; cbn; unfold counters_invariant; intros H;
    try exact H; destruct_and?; subst;
    repeat match goal with H : results _ = [] |- _ => rewrite H in * end;
    repeat match goal with H : _ = 0%nat |- _ => rewrite H in * end;
    cbn; repeat split; try lia.
Qed.

Lemma same_counters_set_filename (f : option pystr) (st : job_state) :
  same_counters st (set_filename f st).
Proof. repeat split. Qed.

Lemma same_counters_clear_if_current (f : pystr) (st : job_state) :
  same_counters st (clear_if_current f st).
Proof. unfold clear_if_current. case_bool_decide; repeat split. Qed.

Lemma STATE_save_expiries (io : io_outcome) (w : world) :
  STATE (save_expiries io w) = STATE w.
Proof. now destruct io. Qed.

Lemma STATE_set_result_expiry (f : pystr) (ttl now : Z) (io : io_outcome) (w : world) :
  STATE (set_result_expiry f ttl now io w) = STATE w.
Proof. unfold set_result_expiry. now rewrite STATE_save_expiries. Qed.

Lemma STATE_set_upload_expiry (f : pystr) (ttl now : Z) (io : io_outcome) (w : world) :
  STATE (set_upload_expiry f ttl now io w) = STATE w.
Proof. unfold set_upload_expiry. now rewrite STATE_save_expiries. Qed.

Lemma STATE_save_results (ok : bool) (rs : list result) (f : pystr) (w w' : world) :
  save_results_to_excel ok rs f w = Some w' -> STATE w' = STATE w.
Proof.
  unfold save_results_to_excel. destruct rs; [|destruct ok]; intros [= <-]; reflexivity.
Qed.

Lemma same_counters_sweep_upload (now : Z) (rm : folder -> pystr -> bool)
    (items : list (pystr * Z)) (w : world) :
  STATE (fold_left (sweep_upload now rm) items w) = STATE w.
Proof.
  revert w. induction items as [|[f e] items IH]; intros w; [reflexivity|].
  cbn [fold_left]. rewrite IH. unfold sweep_upload.
  now destruct (now >=? e).
Qed.

Lemma same_counters_sweep_result (now : Z) (rm : folder -> pystr -> bool)
    (items : list (pystr * Z)) (w : world) :
  same_counters (STATE w) (STATE (fold_left (sweep_result now rm) items w)).
Proof.
  revert w. induction items as [|[f e] items IH]; intros w; [apply same_counters_refl|].
  cbn [fold_left]. eapply same_counters_trans; [|apply IH].
  unfold sweep_result. destruct (now >=? e); [|apply same_counters_refl].
  cbn. apply same_counters_clear_if_current.
Qed.

Lemma same_counters_sweep (now : Z) (rm : folder -> pystr -> bool) (w : world) :
  same_counters (STATE w) (STATE (sweep now rm w)).
Proof.
  unfold sweep.
  eapply same_counters_trans; [|apply same_counters_sweep_result].
  rewrite same_counters_sweep_upload. apply same_counters_refl.
Qed.

Lemma same_counters_detailed_submit (ts : pystr) (now : Z) (ok : bool)
    (io : io_outcome) (w : world) :
  same_counters (STATE w) (STATE (detailed_submit ts now ok io w)).
Proof.
  unfold detailed_submit.
  destruct (save_results_to_excel _ _ _ _) as [w1|] eqn:E; [|apply same_counters_refl].
  cbn. rewrite STATE_set_result_expiry, (STATE_save_results _ _ _ _ _ E).
  apply same_counters_set_filename.
Qed.

Lemma same_counters_failed_submit (idx : Z) (m : gmap pystr pystr) (ts : pystr)
    (now : Z) (ok : bool) (io : io_outcome) (w : world) :
  same_counters (STATE w) (STATE (failed_submit idx m ts now ok io w)).
Proof.
  unfold failed_submit.
  destruct ((idx <? 0) || _); [apply same_counters_refl|].
  match goal with |- context [save_results_to_excel ok ?rs ?o ?w1] =>
    assert (H1 : same_counters (STATE w) (STATE w1))
  end.
  { cbn. repeat split. cbn. apply length_alter. }
  destruct (save_results_to_excel _ _ _ _) as [w2|] eqn:E; [|exact H1].
  eapply same_counters_trans; [exact H1|].
  cbn. rewrite STATE_set_result_expiry, (STATE_save_results _ _ _ _ _ E).
  apply same_counters_set_filename.
Qed.

Lemma worker_step_invariant (e : env) (p : pc) (w : world) :
  worker_invariant p (STATE w) ->
  worker_invariant (worker_step e p w).1 (STATE (worker_step e p w).2).
Proof.
  intros H. destruct p; cbn [worker_step]; try exact H.
  - (* AtStart *) cbn. repeat split.
  - (* AtLoad *)
    destruct (env_excel e) as [df|]; [destruct (load_students df)|]; cbn [fst snd];
      try exact H; eapply (worker_invariant_counters (AtLoad j)); exact H.
  - (* AtPublish *) cbn in *. intuition.
  - (* AtDriver *)
    destruct (env_driver e); cbn [fst snd].
    + cbn in *. destruct H as (Hs & Hr & Hc & Hok & Hko).
      rewrite Hr, Hc, Hok, Hko. cbn. repeat split; try assumption; lia.
    + eapply (worker_invariant_counters (AtDriver j sts)); exact H.
  - (* AtNext *)
    destruct (sts !! i) as [st|] eqn:E; cbn [fst snd].
    + apply lookup_lt_Some in E. cbn in *. destruct H as (?&?&?&?&?).
      repeat split; try assumption; lia.
    + cbn in *. unfold counters_invariant. cbn. destruct H as (?&?&?&?&?).
      subst sts. repeat split; try assumption; lia.
  - (* AtProcess *)
    cbn in *. destruct H as (Hs & Hsum & Hlen & Hc & Hle).
    rewrite length_app. cbn. case_bool_decide; repeat split; try assumption; lia.
  - (* AtSnapshot *)
    destruct ((i mod 5 =? 0)%nat || _); cbn [fst snd]; [|exact H].
    destruct (save_results_to_excel _ _ _ _) as [w1|] eqn:E; cbn [fst snd].
    + rewrite STATE_set_result_expiry, (STATE_save_results _ _ _ _ _ E). exact H.
    + eapply (worker_invariant_counters (AtSnapshot j sts i)); exact H.
Qed.

Lemma do_action_invariant (a : action) (s : system) :
  enabled a s = true ->
  worker_invariant s.1 (STATE s.2) ->
  worker_invariant (do_action a s).1 (STATE (do_action a s).2).
Proof.
  destruct s as [p w]. intros Hen H. destruct a; cbn [do_action fst snd] in *.
  - now apply worker_step_invariant.
  - rewrite STATE_set_upload_expiry. cbn.
    destruct p; try discriminate Hen; exact H.
  - eapply worker_invariant_same; [apply same_counters_failed_submit|exact H].
  - eapply worker_invariant_same; [apply same_counters_detailed_submit|exact H].
  - eapply worker_invariant_same; [apply same_counters_sweep|exact H].
Qed.

Lemma reachable_worker_invariant (s : system) :
  reachable s -> worker_invariant s.1 (STATE s.2).
Proof.
  induction 1 as [|a s Hr IH Hen].
  - cbn. unfold counters_invariant. cbn. lia.
  - now apply do_action_invariant.
Qed.

(** C2. In every state the system can be in between two lock-protected
    blocks, with one batch run at a time, the counters add up to the
    number of results, which is at most the current index, which is at
    most the roster length; the status query reports counters within that
    bound. *)
Theorem counters_invariant_always (s : system) (now : Z) :
  reachable s ->
  counters_invariant (STATE s.2) /\
  let v := status_query now s.2 in
  (sv_successful v + sv_failed v = length (results (STATE s.2)) /\
   sv_successful v + sv_failed v <= current v /\
   current v <= total v)%nat.
Proof.
  intros Hr.
  pose proof (worker_invariant_counters _ _ (reachable_worker_invariant s Hr)) as H.
  split; [exact H|]. unfold counters_invariant in H. cbn. lia.
Qed.

Lemma reachable_run (acts : list action) (s : system) :
  reachable s -> all_enabled acts s = true -> reachable (run_actions acts s).
Proof.
  revert s. induction acts as [|a acts IH]; intros s Hs Hen; [exact Hs|].
  cbn in Hen. apply andb_true_iff in Hen as [Ha Hrest].
  cbn. apply IH; [now constructor|exact Hrest].
Qed.

Lemma counters_invariant_always_witness :
  counters_invariant (STATE (run_actions two_student_run start).2) /\
  let v := status_query 2000 (run_actions two_student_run start).2 in
  (sv_successful v + sv_failed v = length (results (STATE (run_actions two_student_run start).2)) /\
   sv_successful v + sv_failed v <= current v /\
   current v <= total v)%nat.
Proof.
  apply (counters_invariant_always (run_actions two_student_run start) 2000).
  apply reachable_run; [apply reach_init|reflexivity].
Defined.

(** The end-to-end scenario of the specification: Alice's page yields one
    mark, Bob's lookup fails at the view link. *)
Example two_student_scenario :
  let s := run_actions two_student_run start in
  s.1 = Returned /\
  successful (STATE s.2) = 1%nat /\ failed (STATE s.2) = 1%nat /\
  current_index (STATE s.2) = 2%nat /\ running (STATE s.2) = false /\
  ((fun r => (marks r !! lit "CS-CS-101", size (marks r))) <$> results (STATE s.2))
  = [ (Some (lit "85"), 1%nat); (None, 0%nat) ] /\
  (status <$> results (STATE s.2)) = [lit "Success"; lit "Failed: View link not found"].
Proof. intros s. split_and!; vm_compute; reflexivity. Qed.

Lemma status_failed_list_keeps_manual_witness :
  let w := (run_actions two_student_run start).2 in
  let m : gmap pystr pystr := {[ lit "CS-CS-101" := lit "40" ]} in
  let w' := failed_submit 1 m (lit "20250101_130000") 3000 true Written w in
  exists r' : result,
    results (STATE w') !! Z.to_nat 1 = Some r' /\
    status r' = lit "Success (manual)" /\
    marks r' = m /\
    r' ∈ failed_list (status_query 3000 w').
Proof.
  intros w m.
  refine (proj2 (status_failed_list_keeps_manual 3000 w) 1 m (lit "20250101_130000")
            3000 true Written
            {| r_name := lit "Bob"; r_roll := lit "102"; r_reg := lit "5002";
               status := lit "Failed: View link not found"; marks := ∅ |} _ _).
  - lia.
  - vm_compute. reflexivity.
Defined.

(* ------------------------------------------------------------------ *)
(** ** A batch-fatal error *)

Lemma crashed_stays_crashed (a : action) (s : system) :
  is_upload a = false -> s.1 = Crashed -> running (STATE s.2) = true ->
  (do_action a s).1 = Crashed /\ running (STATE (do_action a s).2) = true.
Proof.
  destruct s as [p w]. cbn [fst snd]. intros Ha -> Hrun.
  destruct a; try discriminate Ha; cbn [do_action fst snd worker_step].
  - now split.
  - split; [reflexivity|].
    destruct (same_counters_failed_submit idx m timestamp now save_ok io w) as (_&_&_&_&_&->).
    exact Hrun.
  - split; [reflexivity|].
    destruct (same_counters_detailed_submit timestamp now save_ok io w) as (_&_&_&_&_&->).
    exact Hrun.
  - split; [reflexivity|].
    destruct (same_counters_sweep now rm w) as (_&_&_&_&_&->).
    exact Hrun.
Qed.

Lemma crashed_forever (acts : list action) (s : system) :
  forallb (fun a => negb (is_upload a)) acts = true ->
  s.1 = Crashed -> running (STATE s.2) = true ->
  (run_actions acts s).1 = Crashed /\ running (STATE (run_actions acts s).2) = true.
Proof.
  revert s. induction acts as [|a acts IH]; intros s Hall Hp Hrun; [now split|].
  cbn in Hall. apply andb_true_iff in Hall as [Ha Hall].
  apply negb_true_iff in Ha.
  destruct (crashed_stays_crashed a s Ha Hp Hrun) as [Hp' Hrun'].
  cbn. now apply IH.
Qed.

(** C3 (what the code does). When the uploaded roster cannot be read, or
    the browser cannot be started, the exception leaves [worker_process]:
    the worker is gone while [running] is still set, and nothing but a
    further upload ever changes that. *)
Theorem batch_fatal_error_leaves_running_set
    (fname : pystr) (j : job) (now : Z) (io : io_outcome) (e0 e1 e2 e3 : env)
    (later : list action) :
  forallb (fun a => negb (is_upload a)) later = true ->
  env_excel e1 = None \/
  (exists df sts, env_excel e1 = Some df /\ load_students df = Some sts /\
                  env_driver e3 = false) ->
  let s := run_actions (Upload fname j now io :: Work e0 :: Work e1 :: Work e2 :: Work e3 :: later)
             start in
  s.1 = Crashed /\ running (STATE s.2) = true.
Proof.
  intros Hlater Hfatal s. subst s. unfold start.
  cbn [run_actions fold_left do_action worker_step fst snd].
  destruct Hfatal as [Hx | (df & sts & Hx & Hl & Hd)].
  - rewrite Hx. cbn [fst snd worker_step].
    apply crashed_forever; [exact Hlater|reflexivity|].
    cbn. now destruct io.
  - rewrite Hx, Hl. cbn [fst snd worker_step]. rewrite Hd.
    apply crashed_forever; [exact Hlater|reflexivity|].
    cbn. now destruct io.
Qed.

Lemma batch_fatal_error_leaves_running_set_witness :
  let s := run_actions
             (upload1 :: Work env0 :: Work env_unreadable :: Work env0 :: Work env0 ::
              [Sweep 5000 (fun _ _ => true); DetailedSubmit [] 5000 true Written])
             start in
  s.1 = Crashed /\ running (STATE s.2) = true.
Proof.
  apply (batch_fatal_error_leaves_running_set (lit "upload_00ff.xlsx") a_job 990 Written
           env0 env_unreadable env0 env0
           [Sweep 5000 (fun _ _ => true); DetailedSubmit [] 5000 true Written]).
  - reflexivity.
  - left. reflexivity.
Defined.

(* ------------------------------------------------------------------ *)
(** ** Loading the roster *)

Lemma has_missing_complete (r : row) :
  has_missing r = Some false <-> complete r = true.
Proof.
  unfold has_missing, complete.
  destruct (Roll_Number r) as [[]|], (Registration_Number r) as [[]|],
           (Student_Name r) as [[]|]; cbn; split; congruence.
Qed.

Lemma has_missing_skips (r : row) :
  has_missing r = Some true -> complete r = false.
Proof.
  intros H. destruct (complete r) eqn:Hc; [|reflexivity].
  apply has_missing_complete in Hc. congruence.
Qed.

Lemma has_missing_raises (r : row) :
  has_missing r = None
  <-> Roll_Number r = None \/
      (exists roll_c, Roll_Number r = Some roll_c /\ isna roll_c = false /\
         (Registration_Number r = None \/
          exists reg_c, Registration_Number r = Some reg_c /\ isna reg_c = false /\
            Student_Name r = None)).
Proof.
  unfold has_missing. destruct (Roll_Number r) as [roll_c|]; cbn; [|tauto].
  destruct (isna roll_c) eqn:E1.
  { split; [discriminate|]. intros [H|(c & H & Hc & _)]; congruence. }
  destruct (Registration_Number r) as [reg_c|]; cbn;
    [|split; [intros _; right; exists roll_c; auto|reflexivity]].
  destruct (isna reg_c) eqn:E2.
  { split; [discriminate|].
    intros [H|(c & H & Hc & [H'|(c' & H' & Hc' & _)])]; congruence. }
  destruct (Student_Name r) as [name_c|]; cbn;
    [|split; [intros _; right; exists roll_c; split; [reflexivity|];
              split; [exact E1|]; right; exists reg_c; auto|reflexivity]].
  split; [discriminate|].
  intros [H|(c & H & Hc & [H'|(c' & H' & Hc' & H'')])]; congruence.
Qed.

Lemma load_students_filter (df : list row) :
  (forall r, r ∈ df -> has_missing r <> None) ->
  load_students df = mapM student_of_row (List.filter complete df).
Proof.
  induction df as [|r df IH]; [reflexivity|]. intros Hdf.
  assert (IH' := IH (fun r' Hr' => Hdf r' (list_elem_of_further _ _ _ Hr'))).
  cbn [load_students List.filter].
  destruct (has_missing r) as [[]|] eqn:Hm; cbn.
  - now rewrite (has_missing_skips r Hm).
  - rewrite (proj1 (has_missing_complete r) Hm). cbn. now rewrite IH'.
  - now contradiction (Hdf r (list_elem_of_here _ _)).
Qed.

Lemma student_of_row_None (r : row) :
  complete r = true ->
  student_of_row r = None
  <-> Roll_Number r ≫= py_int = None \/ Registration_Number r ≫= py_int = None.
Proof.
  unfold student_of_row, complete.
  destruct (Student_Name r) as [name_c|]; [|now destruct (Roll_Number r), (Registration_Number r)].
  intros _. cbn.
  destruct (Roll_Number r ≫= py_int), (Registration_Number r ≫= py_int); cbn;
    split; intros H; try discriminate; try tauto; destruct H; discriminate.
Qed.

Lemma load_students_None (df : list row) :
  load_students df = None
  <-> exists r, r ∈ df /\
        (has_missing r = None \/ (complete r = true /\ student_of_row r = None)).
Proof.
  induction df as [|r df IH].
  - split; [discriminate|]. intros (r & Hr & _). inversion Hr.
  - cbn [load_students]. destruct (has_missing r) as [[]|] eqn:Hm; cbn.
    + rewrite IH. split; intros (r' & Hr' & H'); exists r'.
      * split; [now apply list_elem_of_further|exact H'].
      * apply elem_of_cons in Hr' as [->|Hr']; [|auto].
        rewrite (has_missing_skips r Hm) in H'. destruct H' as [H'|[H' _]]; congruence.
    + destruct (student_of_row r) as [st|] eqn:Hs; cbn.
      * destruct (load_students df) as [rest|] eqn:Hl; cbn.
        -- split; [discriminate|]. intros (r' & Hr' & H').
           apply elem_of_cons in Hr' as [->|Hr'];
             [destruct H' as [H'|[_ H']]; congruence|].
           assert (Some rest = None) by (apply IH; eauto). discriminate.
        -- split; [|reflexivity]. intros _.
           destruct (proj1 IH eq_refl) as (r' & Hr' & H').
           exists r'. split; [now apply list_elem_of_further|exact H'].
      * split; [|reflexivity]. intros _. exists r.
        split; [apply list_elem_of_here|].
        right. split; [now apply has_missing_complete|exact Hs].
    + split; [|reflexivity]. intros _. exists r.
      split; [apply list_elem_of_here|now left].
Qed.

Lemma load_students_skips_incomplete (df1 df2 : list row) (r : row) :
  has_missing r = Some true ->
  load_students (df1 ++ r :: df2) = load_students (df1 ++ df2).
Proof.
  intros Hm. induction df1 as [|r1 df1 IH]; cbn [app load_students].
  - now rewrite Hm.
  - now rewrite IH.
Qed.

(** C6 (as amended). In a workbook that has the three columns, loading
    yields a student for exactly the rows whose three fields are all
    present, in order; rows with a missing field are dropped and never
    make loading fail. Loading raises exactly when the guard reads a
    column the workbook does not have, or a row with all fields present
    has a roll or registration number that [int()] rejects. The guard
    reads roll number, registration number and name in this order and
    stops at the first missing value. *)
Theorem load_students_drops_missing_only (df : list row) :
  ((forall r, r ∈ df -> has_missing r <> None) ->
   load_students df = mapM student_of_row (List.filter complete df)) /\
  (forall sts, load_students df = Some sts ->
     mapM student_of_row (List.filter complete df) = Some sts /\
     length sts = length (List.filter complete df)) /\
  (forall df1 df2 r, df = df1 ++ r :: df2 -> has_missing r = Some true ->
     load_students df = load_students (df1 ++ df2)) /\
  (load_students df = None <->
   exists r, r ∈ df /\
     (has_missing r = None \/
      (complete r = true /\
       (Roll_Number r ≫= py_int = None \/ Registration_Number r ≫= py_int = None)))) /\
  (forall r, (has_missing r = Some false <-> complete r = true) /\
             (has_missing r = None
              <-> Roll_Number r = None \/
                  (exists roll_c, Roll_Number r = Some roll_c /\ isna roll_c = false /\
                     (Registration_Number r = None \/
                      exists reg_c, Registration_Number r = Some reg_c /\
                        isna reg_c = false /\ Student_Name r = None)))).
Proof.
  split_and!.
  - apply load_students_filter.
  - intros sts Hl.
    assert (Hdf : forall r, r ∈ df -> has_missing r <> None).
    { intros r Hr Hm. assert (Hn : load_students df = None) by (apply load_students_None; eauto).
      congruence. }
    rewrite (load_students_filter df Hdf) in Hl. split; [exact Hl|].
    apply length_mapM in Hl. now symmetry.
  - intros df1 df2 r -> Hm. now apply load_students_skips_incomplete.
  - rewrite load_students_None. split; intros (r & Hr & [Hm|[Hc Hs]]); exists r;
      (split; [exact Hr|]); try (now left); right; (split; [exact Hc|]);
      now apply (student_of_row_None r Hc).
  - intros r. split; [apply has_missing_complete|apply has_missing_raises].
Qed.

Lemma load_students_drops_missing_only_witness :
  load_students [alice_row; dave_row; bob_row] = load_students ([alice_row] ++ [bob_row]).
Proof.
  exact (proj1 (proj2 (proj2 (load_students_drops_missing_only [alice_row; dave_row; bob_row])))
           [alice_row] [bob_row] dave_row eq_refl eq_refl).
Defined.

(** C6 (the claim as stated fails). A row whose fields are all present
    but whose roll number is the text [abc] is not dropped: loading the
    roster raises. So it does for a roll number that ends in a character
    [int()] does not skip, and for a workbook without the column
    'Student Name', unless its rows all lack a roll or registration
    number, where the guard never reads the name. *)
Lemma unparseable_row_makes_loading_raise :
  complete carol_row = true /\
  Roll_Number carol_row ≫= py_int = None /\
  load_students [alice_row; carol_row; bob_row] = None /\
  load_students [alice_row; bob_row] = Some [alice; bob] /\
  complete erin_row = true /\
  load_students [alice_row; erin_row] = None /\
  load_students [alice_row; nameless_row] = None /\
  load_students [nameless_blank_row] = Some [].
Proof. split_and!; vm_compute; reflexivity. Qed.

(* ------------------------------------------------------------------ *)
(** ** One round of the cleaner *)

Section SweepFacts.
Variables (now : Z) (rm : folder -> pystr -> bool).

Lemma sweep_upload_frame (items : list (pystr * Z)) (w : world) :
  let w' := fold_left (sweep_upload now rm) items w in
  STATE w' = STATE w /\ RESULT_EXPIRY w' = RESULT_EXPIRY w /\
  output_files w' = output_files w /\ expiry_file w' = expiry_file w.
Proof.
  revert w. induction items as [|[f e] items IH]; intros w; [now cbn|].
  cbn [fold_left]. destruct (IH (sweep_upload now rm w (f, e))) as (-> & -> & -> & ->).
  unfold sweep_upload. now destruct (now >=? e).
Qed.

Lemma sweep_result_frame (items : list (pystr * Z)) (w : world) :
  let w' := fold_left (sweep_result now rm) items w in
  UPLOAD_EXPIRY w' = UPLOAD_EXPIRY w /\ upload_files w' = upload_files w /\
  expiry_file w' = expiry_file w.
Proof.
  revert w. induction items as [|[f e] items IH]; intros w; [now cbn|].
  cbn [fold_left]. destruct (IH (sweep_result now rm w (f, e))) as (-> & -> & ->).
  unfold sweep_result. now destruct (now >=? e).
Qed.

(** An entry the round does not find expired stays as it is. *)
Lemma sweep_result_keeps (items : list (pystr * Z)) (w : world) (f : pystr) :
  (forall e, (f, e) ∈ items -> now < e) ->
  RESULT_EXPIRY (fold_left (sweep_result now rm) items w) !! f = RESULT_EXPIRY w !! f.
Proof.
  revert w. induction items as [|[g e] items IH]; intros w Hf; [reflexivity|].
  cbn [fold_left]. rewrite IH.
  - unfold sweep_result. destruct (now >=? e) eqn:Hge; [|reflexivity].
    cbn. apply lookup_delete_ne. intros ->.
    specialize (Hf e (list_elem_of_here _ _)). lia.
  - intros e' He'. apply Hf. now apply list_elem_of_further.
Qed.

(** Entries only disappear. *)
Lemma sweep_result_shrinks (items : list (pystr * Z)) (w : world) (f : pystr) :
  RESULT_EXPIRY w !! f = None ->
  RESULT_EXPIRY (fold_left (sweep_result now rm) items w) !! f = None.
Proof.
  revert w. induction items as [|[g e] items IH]; intros w Hf; [exact Hf|].
  cbn [fold_left]. apply IH.
  unfold sweep_result. destruct (now >=? e); [|exact Hf].
  cbn. rewrite lookup_delete_None. now right.
Qed.

(** An expired entry is gone after the round. *)
Lemma sweep_result_drops (items : list (pystr * Z)) (w : world) (f : pystr) (e : Z) :
  (f, e) ∈ items -> e <= now ->
  RESULT_EXPIRY (fold_left (sweep_result now rm) items w) !! f = None.
Proof.
  revert w. induction items as [|[g e'] items IH]; intros w Hin He; [inversion Hin|].
  cbn [fold_left]. apply elem_of_cons in Hin as [[= <- <-]|Hin].
  - apply sweep_result_shrinks. unfold sweep_result.
    replace (now >=? e) with true by (symmetry; apply Z.geb_le; lia).
    cbn. apply lookup_delete_eq.
  - now apply IH.
Qed.

(** The pointer is only ever cleared. *)
Lemma sweep_result_pointer_from (items : list (pystr * Z)) (w : world) (f : pystr) :
  filename (STATE (fold_left (sweep_result now rm) items w)) = Some f ->
  filename (STATE w) = Some f.
Proof.
  revert w. induction items as [|[g e] items IH]; intros w Hf; [exact Hf|].
  cbn [fold_left] in Hf. apply IH in Hf.
  unfold sweep_result in Hf. destruct (now >=? e); [|exact Hf].
  cbn in Hf. unfold clear_if_current in Hf.
  case_bool_decide; [discriminate Hf|exact Hf].
Qed.

(** The pointer does not name an expired entry after the round. *)
Lemma sweep_result_clears (items : list (pystr * Z)) (w : world) (f : pystr) (e : Z) :
  (f, e) ∈ items -> e <= now ->
  filename (STATE (fold_left (sweep_result now rm) items w)) <> Some f.
Proof.
  revert w. induction items as [|[g e'] items IH]; intros w Hin He; [inversion Hin|].
  cbn [fold_left]. apply elem_of_cons in Hin as [[= <- <-]|Hin].
  - intros Hf. apply sweep_result_pointer_from in Hf.
    unfold sweep_result in Hf.
    replace (now >=? e) with true in Hf by (symmetry; apply Z.geb_le; lia).
    cbn in Hf. unfold clear_if_current in Hf.
    case_bool_decide; [discriminate Hf|contradiction].
  - now apply IH.
Qed.


(** Files only disappear. *)
Lemma sweep_result_files_from (items : list (pystr * Z)) (w : world) (f : pystr) :
  f ∈ output_files (fold_left (sweep_result now rm) items w) -> f ∈ output_files w.
Proof.
  revert w. induction items as [|[g e] items IH]; intros w Hf; [exact Hf|].
  cbn [fold_left] in Hf. apply IH in Hf.
  unfold sweep_result in Hf. destruct (now >=? e); [|exact Hf].
  cbn in Hf. unfold remove_if_exists in Hf.
  case_bool_decide; [destruct (rm OUTPUT_FOLDER g)|]; try exact Hf.
  now apply elem_of_difference in Hf as [Hf _].
Qed.

(** The file of an expired entry is gone when its removal is carried out. *)
Lemma sweep_result_removes (items : list (pystr * Z)) (w : world) (f : pystr) (e : Z) :
  (f, e) ∈ items -> e <= now -> rm OUTPUT_FOLDER f = true ->
  f ∉ output_files (fold_left (sweep_result now rm) items w).
Proof.
  revert w. induction items as [|[g e'] items IH]; intros w Hin He Hrm; [inversion Hin|].
  cbn [fold_left]. apply elem_of_cons in Hin as [[= <- <-]|Hin].
  - intros Hf. apply sweep_result_files_from in Hf.
    unfold sweep_result in Hf.
    replace (now >=? e) with true in Hf by (symmetry; apply Z.geb_le; lia).
    cbn in Hf. unfold remove_if_exists in Hf. rewrite Hrm in Hf.
    case_bool_decide as Hg; [|contradiction].
    apply elem_of_difference in Hf as [_ Hf]. apply Hf. now apply elem_of_singleton.
  - now apply IH.
Qed.


Lemma sweep_expiry_file (w : world) : expiry_file (sweep now rm w) = expiry_file w.
Proof.
  unfold sweep.
  destruct (sweep_result_frame
              (map_to_list (RESULT_EXPIRY (fold_left (sweep_upload now rm)
                                             (map_to_list (UPLOAD_EXPIRY w)) w)))
              (fold_left (sweep_upload now rm) (map_to_list (UPLOAD_EXPIRY w)) w))
    as (_ & _ & ->).
  now destruct (sweep_upload_frame (map_to_list (UPLOAD_EXPIRY w)) w) as (_ & _ & _ & ->).
Qed.

(** What a round does to one report: an entry that has expired is
    dropped, a pointer to it cleared, its file removed if the removal is
    carried out. *)
Lemma sweep_expired (w : world) (f : pystr) (e : Z) :
  RESULT_EXPIRY w !! f = Some e -> e <= now ->
  RESULT_EXPIRY (sweep now rm w) !! f = None /\
  filename (STATE (sweep now rm w)) <> Some f /\
  (rm OUTPUT_FOLDER f = true -> f ∉ output_files (sweep now rm w)).
Proof.
  intros Hf He. unfold sweep.
  destruct (sweep_upload_frame (map_to_list (UPLOAD_EXPIRY w)) w) as (Hs & Hr & Ho & _).
  cbn zeta in *.
  set (w1 := fold_left (sweep_upload now rm) (map_to_list (UPLOAD_EXPIRY w)) w) in *.
  assert (Hin : (f, e) ∈ map_to_list (RESULT_EXPIRY w1)).
  { apply elem_of_map_to_list. now rewrite Hr. }
  split_and!.
  - eapply sweep_result_drops; eauto.
  - eapply sweep_result_clears; eauto.
  - intros Hrm. eapply sweep_result_removes; eauto.
Qed.


(** A round never adds an entry, a pointer or a file. *)
Lemma sweep_only_removes (w : world) (f : pystr) :
  (RESULT_EXPIRY w !! f = None -> RESULT_EXPIRY (sweep now rm w) !! f = None) /\
  (filename (STATE (sweep now rm w)) = Some f -> filename (STATE w) = Some f) /\
  (f ∈ output_files (sweep now rm w) -> f ∈ output_files w).
Proof.
  unfold sweep.
  destruct (sweep_upload_frame (map_to_list (UPLOAD_EXPIRY w)) w) as (Hs & Hr & Ho & _).
  cbn zeta in *.
  set (w1 := fold_left (sweep_upload now rm) (map_to_list (UPLOAD_EXPIRY w)) w) in *.
  split_and!.
  - intros Hf. apply sweep_result_shrinks. now rewrite Hr.
  - intros Hp. apply sweep_result_pointer_from in Hp. now rewrite <- Hs.
  - intros Hp. apply sweep_result_files_from in Hp. now rewrite <- Ho.
Qed.

End SweepFacts.

(* ------------------------------------------------------------------ *)
(** ** The ledger on disk *)

Lemma eq_by_decide {A : Type} `{EqDecision A} (x y : A) :
  bool_decide (x = y) = true -> x = y.
Proof. apply bool_decide_eq_true. Qed.

Lemma by_decide (P : Prop) `{Decision P} : bool_decide P = true -> P.
Proof. apply bool_decide_eq_true. Qed.

Lemma neq_by_decide {A : Type} `{EqDecision A} (x y : A) :
  bool_decide (x = y) = false -> x <> y.
Proof. apply bool_decide_eq_false. Qed.

Lemma still_future_lookup (now : Z) (m : gmap pystr Z) (f : pystr) (e : Z) :
  still_future now m !! f = Some e <-> m !! f = Some e /\ e <> 0 /\ now < e.
Proof. unfold still_future. rewrite map_lookup_filter_Some. cbn. tauto. Qed.

Lemma loaded_entries_are_future (now : Z) (w : world) (f : pystr) (e : Z) :
  RESULT_EXPIRY (load_expiries now (restart w)) !! f = Some e \/
  UPLOAD_EXPIRY (load_expiries now (restart w)) !! f = Some e ->
  now < e.
Proof.
  unfold load_expiries. cbn.
  destruct (expiry_file w) as [[ups res]|]; cbn.
  - rewrite !still_future_lookup. tauto.
  - rewrite !lookup_empty. intros [H|H]; discriminate.
Qed.

(** C5 (as amended). Registering an expiry writes the ledger to disk, so
    that after a successful write the file equals the two dictionaries; a
    round of the cleaner leaves the file as it was; and an entry the round
    removed is in the ledger neither after a restart nor after a later
    [load_expiries], which keeps future entries only. *)
Theorem ledger_written_on_registration_only
    (w : world) (f : pystr) (ttl now : Z) (rm : folder -> pystr -> bool) :
  (let w' := set_upload_expiry f ttl now Written w in
   expiry_file w' = Some (UPLOAD_EXPIRY w', RESULT_EXPIRY w')) /\
  (let w' := set_result_expiry f ttl now Written w in
   expiry_file w' = Some (UPLOAD_EXPIRY w', RESULT_EXPIRY w')) /\
  expiry_file (sweep now rm w) = expiry_file w /\
  (forall now' g e,
      RESULT_EXPIRY (load_expiries now' (restart (sweep now rm w))) !! g = Some e \/
      UPLOAD_EXPIRY (load_expiries now' (restart (sweep now rm w))) !! g = Some e ->
      now' < e) /\
  (forall now' g e,
      expiry_file w = Some (UPLOAD_EXPIRY w, RESULT_EXPIRY w) ->
      RESULT_EXPIRY w !! g = Some e -> e <= now -> now <= now' ->
      RESULT_EXPIRY (sweep now rm w) !! g = None /\
      RESULT_EXPIRY (restart (sweep now rm w)) !! g = None /\
      RESULT_EXPIRY (load_expiries now' (restart (sweep now rm w))) !! g = None).
Proof.
  split_and!.
  - reflexivity.
  - reflexivity.
  - apply sweep_expiry_file.
  - intros now' g e. apply loaded_entries_are_future.
  - intros now' g e Hsync Hg He Hnow. split_and!.
    + now apply (sweep_expired now rm w g e).
    + apply lookup_empty.
    + unfold load_expiries. cbn. rewrite sweep_expiry_file, Hsync. cbn.
      apply eq_None_not_Some. intros [e' He'].
      apply still_future_lookup in He' as (He' & _ & Hlt).
      rewrite Hg in He'. injection He' as <-. lia.
Qed.

Lemma ledger_written_on_registration_only_witness :
  RESULT_EXPIRY (sweep 1500 rm_always world_with_report) !! report = None /\
  RESULT_EXPIRY (restart (sweep 1500 rm_always world_with_report)) !! report = None /\
  RESULT_EXPIRY (load_expiries 1600 (restart (sweep 1500 rm_always world_with_report)))
    !! report = None.
Proof.
  refine (proj2 (proj2 (proj2 (proj2
            (ledger_written_on_registration_only world_with_report report 0 1500 rm_always))))
            1600 report 1200 _ _ _ _).
  - apply eq_by_decide. vm_compute. reflexivity.
  - vm_compute. reflexivity.
  - lia.
  - lia.
Defined.

(** C5 (the claim as stated fails). After a round of the cleaner has
    removed the expired report from the ledger, the file on disk still
    lists it: the ledger on disk differs from the ledger in memory. *)
Lemma sweep_leaves_ledger_file_stale :
  let w := sweep 1200 rm_always world_with_report in
  RESULT_EXPIRY world_with_report !! report = Some 1200 /\
  RESULT_EXPIRY w !! report = None /\
  expiry_file w = Some (∅, {[ report := 1200 ]}) /\
  expiry_file w <> Some (UPLOAD_EXPIRY w, RESULT_EXPIRY w).
Proof.
  intros w. split_and!.
  - vm_compute. reflexivity.
  - vm_compute. reflexivity.
  - apply eq_by_decide. vm_compute. reflexivity.
  - apply neq_by_decide. vm_compute. reflexivity.
Qed.

(* ------------------------------------------------------------------ *)
(** ** Eviction of an expired report *)

















(** The pointer of a report can outlive its entry: a worker that
    registered the report and is about to store the pointer, overtaken
    by the round of the cleaner at the expiry, stores a pointer to a
    report that is gone. *)
Lemma late_pointer_write_leaves_pointer :
  let s : system := (AtPointer a_job [alice] 1 report, world_with_report) in
  let s' := run_actions slow_pointer_write s in
  not_registered_anew report slow_pointer_write s = true /\
  no_late_pointer_write report slow_pointer_write s = false /\
  RESULT_EXPIRY s'.2 !! report = None /\
  (report ∉ output_files s'.2) /\
  filename (STATE s'.2) = Some report.
Proof.
  intros s s'. split_and!.
  - vm_compute. reflexivity.
  - vm_compute. reflexivity.
  - vm_compute. reflexivity.
  - refine (by_decide _ _); vm_compute; reflexivity.
  - apply eq_by_decide. vm_compute. reflexivity.
Qed.

(* ------------------------------------------------------------------ *)
(** ** Characters *)

Ltac each_char c := destruct c as [[] [] [] [] [] [] [] []].

Lemma digit_is_word (c : ascii) : is_digit c = true -> is_word c = true.
Proof. each_char c; vm_compute; congruence. Qed.

Lemma digit_upper (c : ascii) : is_digit c = true -> upper_char c = c.
Proof. each_char c; vm_compute; congruence. Qed.

Lemma cls_ok_plain (p : ascii -> bool) (a : ascii) : cls_ok false p a = p a.
Proof. unfold cls_ok. now rewrite orb_false_r. Qed.

Lemma cls_ok_digit (ic : bool) (a : ascii) : cls_ok ic is_digit a = is_digit a.
Proof. destruct ic; [|apply cls_ok_plain]. each_char a; reflexivity. Qed.

Lemma chr_ok_F (a : ascii) :
  chr_ok true "F" a = true <-> upper_char a = "F"%char.
Proof. each_char a; vm_compute; split; congruence. Qed.

Lemma upper_F_is_word (a : ascii) :
  upper_char a = "F"%char -> is_word a = true /\ is_digit a = false.
Proof. each_char a; vm_compute; intros H; try discriminate H; split; reflexivity. Qed.

(* ------------------------------------------------------------------ *)
(** ** The number patterns at one position *)

Local Arguments is_digit : simpl never.
Local Arguments is_word : simpl never.
Local Arguments cls_ok : simpl never.
Local Arguments chr_ok : simpl never.
Local Arguments upper_char : simpl never.

Lemma sub_succ3 (n : nat) : (S (S (S n)) - n = 3)%nat.
Proof. lia. Qed.
Lemma sub_succ2 (n : nat) : (S (S n) - n = 2)%nat.
Proof. lia. Qed.
Lemma sub_succ4 (n : nat) : (S (S (S (S n))) - n = 4)%nat.
Proof. lia. Qed.
Lemma sub_succ1 (n : nat) : (S n - n = 1)%nat.
Proof. lia. Qed.

(** Splits on every test of the matcher that stands in hypothesis [H]. *)
Ltac split_tests H :=
  repeat match type of H with
         | context [if ?b then _ else _] => destruct b eqn:?
         end;
  try discriminate H.

(** Turns the recorded tests into facts on word characters. *)
Ltac word_facts :=
  repeat match goal with
         | H : is_digit ?c = true |- _ =>
             lazymatch goal with
             | _ : is_word c = true |- _ => fail
             | _ => pose proof (digit_is_word c H)
             end
         | H : chr_ok true "F" ?c = true |- _ =>
             apply chr_ok_F in H;
             destruct (upper_F_is_word c H)
         end;
  unfold word_before, word_after in *;
  repeat match goal with
         | H : is_word ?c = _ |- _ => rewrite H in *
         end.

Lemma number_match_sound (prev : option ascii) (s : pystr) (cap : option pystr)
    (rest : pystr) :
  match_here false number_pattern prev s = Some (cap, rest) ->
  exists tok, cap = Some tok /\ s = tok ++ rest /\ digit_word 2 3 prev tok rest.
Proof.
  intros H. unfold match_here, number_pattern, digits in H.
  destruct s as [|a [|b [|c [|d s]]]]; simpl in H;
    rewrite ?cls_ok_plain, ?sub_succ3, ?sub_succ2 in H; simpl in H;
    split_tests H; injection H as <- <-; word_facts.
  all: eexists; split; [reflexivity|]; split; [reflexivity|].
  all: unfold digit_word, all_digits, word_before, word_after in *; cbn [length].
  all: split; [lia|]; split; [repeat constructor; assumption|].
  all: destruct prev as [p|]; [destruct (is_word p)|]; try discriminate.
  all: repeat match goal with
              | |- context [is_word ?d] => destruct (is_word d)
              end; try discriminate; split; reflexivity.
Qed.

Ltac digits_of H :=
  repeat match type of H with
         | Forall _ (_ :: _) => apply Forall_cons in H as [? H]
         end.

Lemma not_word_not_digit (c : ascii) : is_word c = false -> is_digit c = false.
Proof.
  intros H. destruct (is_digit c) eqn:E; [|reflexivity].
  apply digit_is_word in E. congruence.
Qed.

Lemma number_match_complete (prev : option ascii) (tok rest : pystr) :
  digit_word 2 3 prev tok rest ->
  match_here false number_pattern prev (tok ++ rest) = Some (Some tok, rest).
Proof.
  intros (Hlen & Hd & Hb & Ha). unfold all_digits in Hd.
  destruct tok as [|a [|b [|c [|d tok]]]]; cbn [length] in Hlen; try lia;
    digits_of Hd; word_facts;
    unfold match_here, number_pattern, digits;
    destruct rest as [|x rest]; simpl;
    rewrite ?cls_ok_plain, ?sub_succ3, ?sub_succ2; simpl;
    unfold word_before in *;
    repeat match goal with
           | H : is_digit _ = _ |- _ => rewrite H
           | H : is_word _ = _ |- _ => rewrite H
           end;
    try rewrite Hb; simpl; try reflexivity.
  rewrite (not_word_not_digit x Ha). reflexivity.
Qed.

Lemma number_f_match_sound (prev : option ascii) (s : pystr) (cap : option pystr)
    (rest : pystr) :
  match_here true number_f_pattern prev s = Some (cap, rest) ->
  exists tok, cap = Some tok /\ s = tok ++ rest /\ number_f_word prev tok rest.
Proof.
  intros H. unfold match_here, number_f_pattern, digits in H.
  destruct s as [|a [|b [|c [|d [|e s]]]]]; simpl in H;
    rewrite ?cls_ok_digit, ?sub_succ4, ?sub_succ3, ?sub_succ2, ?sub_succ1 in H;
    simpl in H; split_tests H; injection H as <- <-; word_facts.
  all: eexists; split; [reflexivity|]; split; [reflexivity|].
  all: unfold number_f_word, all_digits, word_before, word_after in *.
  all: match goal with
       | |- exists d c, ?l = _ /\ _ =>
           match l with
           | [?a; ?f] => exists [a], f
           | [?a; ?b; ?f] => exists [a; b], f
           | [?a; ?b; ?c; ?f] => exists [a; b; c], f
           end
       end.
  all: split; [reflexivity|]; cbn [length]; split; [lia|];
       split; [repeat constructor; assumption|]; split; [assumption|].
  all: destruct prev as [p|]; [destruct (is_word p)|]; try discriminate.
  all: repeat match goal with
              | |- context [is_word ?d] => destruct (is_word d)
              end; try discriminate; split; reflexivity.
Qed.

Lemma number_f_match_complete (prev : option ascii) (tok rest : pystr) :
  number_f_word prev tok rest ->
  match_here true number_f_pattern prev (tok ++ rest) = Some (Some tok, rest).
Proof.
  intros (d & f & -> & Hlen & Hd & Hf & Hb & Ha). unfold all_digits in Hd.
  destruct (upper_F_is_word f Hf) as [Hfw Hfd].
  destruct d as [|a [|b [|c [|x d]]]]; cbn [length] in Hlen; try lia;
    digits_of Hd; word_facts;
    pose proof (proj2 (chr_ok_F f) Hf) as Hok;
    unfold match_here, number_f_pattern, digits;
    destruct rest as [|y rest]; simpl;
    rewrite ?cls_ok_digit, ?sub_succ4, ?sub_succ3, ?sub_succ2, ?sub_succ1; simpl;
    unfold word_before in *;
    repeat match goal with
           | H : is_digit _ = _ |- _ => rewrite H
           | H : is_word _ = _ |- _ => rewrite H
           | H : chr_ok _ _ _ = _ |- _ => rewrite H
           end;
    try rewrite Hb; simpl; reflexivity.
Qed.

(* ------------------------------------------------------------------ *)
(** ** Searching a text *)

Lemma char_before_cons (prev : option ascii) (a : ascii) (pre : pystr) :
  char_before prev (a :: pre) = char_before (Some a) pre.
Proof. unfold char_before. rewrite last_cons. now destruct (last pre). Qed.

Lemma char_before_app (prev : option ascii) (a b : pystr) :
  char_before prev (a ++ b) = char_before (char_before prev a) b.
Proof.
  revert prev. induction a as [|x a IH]; intros prev; [reflexivity|].
  cbn [app]. now rewrite !char_before_cons.
Qed.

Lemma search_from_unfold (ic : bool) (r : re) (prev : option ascii) (s : pystr) :
  search_from ic r prev s =
  match match_here ic r prev s with
  | Some m => Some m
  | None =>
      match s with
      | [] => None
      | a :: s' => search_from ic r (Some a) s'
      end
  end.
Proof. now destruct s. Qed.

(** A match somewhere makes the search succeed. *)
Lemma search_from_complete (ic : bool) (r : re) (pre post : pystr) (prev : option ascii) :
  is_Some (match_here ic r (char_before prev pre) post) ->
  is_Some (search_from ic r prev (pre ++ post)).
Proof.
  revert prev. induction pre as [|a pre IH]; intros prev Hm.
  - cbn [app]. rewrite search_from_unfold.
    change (char_before prev []) with prev in Hm. destruct Hm as [m ->]. eauto.
  - cbn [app]. rewrite search_from_unfold.
    destruct (match_here ic r prev (a :: pre ++ post)); [eauto|].
    apply IH. now rewrite char_before_cons in Hm.
Qed.

(** What the search returns is a match at some position. *)
Lemma search_from_sound (ic : bool) (r : re) (s : pystr) (prev : option ascii)
    (m : option pystr * pystr) :
  search_from ic r prev s = Some m ->
  exists pre post, s = pre ++ post /\
                   match_here ic r (char_before prev pre) post = Some m.
Proof.
  revert prev. induction s as [|a s IH]; intros prev; rewrite search_from_unfold.
  - destruct (match_here ic r prev []) eqn:E; [|discriminate].
    intros [= <-]. now exists [], [].
  - destruct (match_here ic r prev (a :: s)) eqn:E.
    + intros [= <-]. now exists [], (a :: s).
    + intros H. destruct (IH _ H) as (pre & post & -> & Hm).
      exists (a :: pre), post. split; [reflexivity|]. now rewrite char_before_cons.
Qed.

(* ------------------------------------------------------------------ *)
(** ** All numbers of a text *)

Abbreviation numbers_from := (findall_from false number_pattern).

Lemma findall_skip (ic : bool) (r : re) (a rest : pystr) (prev : option ascii) :
  findall_from ic r prev (a ++ rest) (length a)
  = findall_from ic r (char_before prev a) rest 0.
Proof.
  revert prev. induction a as [|x a IH]; intros prev; [reflexivity|].
  cbn [app length findall_from]. rewrite IH. now rewrite char_before_cons.
Qed.

Lemma numbers_from_nil (prev : option ascii) (skip : nat) : numbers_from prev [] skip = [].
Proof.
  destruct skip; [|reflexivity]. cbn [findall_from].
  destruct (match_here false number_pattern prev []) as [[cap rest]|] eqn:E; [|reflexivity].
  apply number_match_sound in E as (tok & _ & Hs & (Hlen & _)).
  symmetry in Hs. apply app_eq_nil in Hs as [-> _]. cbn in Hlen. lia.
Qed.

(** One step of the scan at a position where nothing is skipped. *)
Lemma numbers_from_step (prev : option ascii) (c : ascii) (s : pystr) :
  (exists tok rest,
      c :: s = tok ++ rest /\ digit_word 2 3 prev tok rest /\
      numbers_from prev (c :: s) 0
      = tok :: numbers_from (Some c) s (length tok - 1)) \/
  (match_here false number_pattern prev (c :: s) = None /\
   numbers_from prev (c :: s) 0 = numbers_from (Some c) s 0).
Proof.
  cbn [findall_from].
  destruct (match_here false number_pattern prev (c :: s)) as [[cap rest]|] eqn:E.
  - left. apply number_match_sound in E as (tok & -> & Hs & Hw).
    exists tok, rest. split_and!; [exact Hs|exact Hw|].
    cbn [default]. f_equal. f_equal.
    apply (f_equal length) in Hs. rewrite length_app in Hs. cbn [length] in *. lia.
  - right. now split.
Qed.

(** Every number found is a word of two or three digits of the text. *)
Lemma numbers_from_sound (s : pystr) (prev : option ascii) (skip : nat) (x : pystr) :
  x ∈ numbers_from prev s skip ->
  exists a b, s = a ++ x ++ b /\ digit_word 2 3 (char_before prev a) x b.
Proof.
  revert prev skip. induction s as [|c s IH]; intros prev skip Hx.
  - rewrite numbers_from_nil in Hx. inversion Hx.
  - assert (Hlater : forall n, x ∈ numbers_from (Some c) s n ->
              exists a b, c :: s = a ++ x ++ b /\ digit_word 2 3 (char_before prev a) x b).
    { intros n Hn. destruct (IH _ _ Hn) as (a & b & -> & Hw).
      exists (c :: a), b. split; [reflexivity|]. now rewrite char_before_cons. }
    destruct skip as [|n]; [|now apply (Hlater n)].
    destruct (numbers_from_step prev c s) as [(tok & rest & Hs & Hw & Heq)|[_ Heq]];
      rewrite Heq in Hx.
    + apply elem_of_cons in Hx as [->|Hx]; [|now apply (Hlater _ Hx)].
      now exists [], rest.
    + now apply (Hlater _ Hx).
Qed.

(** The scan passes a prefix that ends outside a word and goes on after
    it with nothing to skip. *)
Lemma numbers_from_prefix (pre rest : pystr) (prev : option ascii) (skip : nat) :
  all_digits (take skip (pre ++ rest)) ->
  (pre = [] -> skip = 0%nat) ->
  word_before (char_before prev pre) = false ->
  exists l, numbers_from prev (pre ++ rest) skip
            = l ++ numbers_from (char_before prev pre) rest 0.
Proof.
  revert prev skip. induction pre as [|c pre IH]; intros prev skip Hskip Hnil Hb.
  - rewrite (Hnil eq_refl). now exists [].
  - rewrite char_before_cons in Hb.
    assert (Hc : is_digit c = true -> pre = [] -> False).
    { intros Hd ->. cbn in Hb. apply digit_is_word in Hd. congruence. }
    cbn [app]. destruct skip as [|n].
    + destruct (numbers_from_step prev c (pre ++ rest))
        as [(tok & rest1 & Hs & (Hlen & Hd & _) & ->)|[_ ->]].
      * destruct tok as [|c' t]; [cbn in Hlen; lia|].
        cbn [app] in Hs. injection Hs as <- Hs.
        unfold all_digits in Hd. apply Forall_cons in Hd as [Hdc Hdt].
        destruct (IH (Some c) (length (c :: t) - 1)%nat) as [l Hl].
        -- cbn [length]. rewrite Nat.sub_succ, Nat.sub_0_r, Hs.
           now rewrite take_app_length.
        -- intros Hp. exfalso. now apply Hc.
        -- exact Hb.
        -- rewrite Hl. rewrite char_before_cons. now exists ((c :: t) :: l).
      * destruct (IH (Some c) 0%nat) as [l Hl];
          [apply Forall_nil_2|reflexivity|exact Hb|].
        rewrite Hl, char_before_cons. now exists l.
    + cbn [findall_from]. cbn [app take] in Hskip.
      unfold all_digits in Hskip. apply Forall_cons in Hskip as [Hdc Hdt].
      destruct (IH (Some c) n) as [l Hl]; [exact Hdt| |exact Hb|].
      * intros Hp. exfalso. now apply Hc.
      * rewrite Hl, char_before_cons. now exists l.
Qed.

(** The numbers of a text around one of its number words. *)
Lemma findall_around_word (pre tok post : pystr) :
  digit_word 2 3 (char_before None pre) tok post ->
  exists l, findall false number_pattern (pre ++ tok ++ post)
            = l ++ tok :: numbers_from (char_before None (pre ++ tok)) post 0.
Proof.
  intros Hw. unfold findall.
  destruct (numbers_from_prefix pre (tok ++ post) None 0) as [l ->].
  - apply Forall_nil_2.
  - reflexivity.
  - now destruct Hw as (_ & _ & Hb & _).
  - exists l. f_equal.
    pose proof (number_match_complete _ _ _ Hw) as Hm.
    destruct Hw as (Hlen & _).
    destruct tok as [|c t]; [cbn in Hlen; lia|].
    cbn [app findall_from] in *. rewrite Hm. cbn [default]. f_equal.
    replace (length (c :: t ++ post) - length post - 1)%nat with (length t)
      by (cbn [length]; rewrite length_app; lia).
    rewrite findall_skip. now rewrite char_before_app, char_before_cons.
Qed.

(* ------------------------------------------------------------------ *)
(** ** The mark of a row text *)

Lemma f_match_sound (prev : option ascii) (s : pystr) (cap : option pystr)
    (rest : pystr) :
  match_here true f_pattern prev s = Some (cap, rest) ->
  exists tok, s = tok ++ rest /\ f_word prev tok rest.
Proof.
  intros H. unfold match_here, f_pattern in H.
  destruct s as [|a [|b s]]; simpl in H; split_tests H; injection H as <- <-;
    word_facts.
  all: exists [a]; split; [reflexivity|]; exists a.
  all: unfold word_before, word_after in *.
  all: split; [reflexivity|]; split; [assumption|].
  all: destruct prev as [p|]; [destruct (is_word p)|]; try discriminate.
  all: repeat match goal with
              | |- context [is_word ?d] => destruct (is_word d)
              end; try discriminate; split; reflexivity.
Qed.

Lemma upper_app (a b : pystr) : upper (a ++ b) = upper a ++ upper b.
Proof. apply map_app. Qed.

Lemma upper_digits (d : pystr) : all_digits d -> upper d = d.
Proof.
  induction 1 as [|c d Hc _ IH]; [reflexivity|].
  unfold upper in *. cbn [map]. rewrite IH, digit_upper by exact Hc. reflexivity.
Qed.

(** The search for a number followed by F finds such a word whenever the
    text holds one, and nothing else. *)
Lemma search_number_f (s : pystr) :
  (forall g, search true number_f_pattern s = Some g ->
     exists pre post, holds_word number_f_word s pre g post) /\
  (forall pre tok post, holds_word number_f_word s pre tok post ->
     is_Some (search true number_f_pattern s)).
Proof.
  unfold search, holds_word. split.
  - intros g Hg. apply fmap_Some in Hg as ([cap rest] & Hs & ->).
    apply search_from_sound in Hs as (pre & post & -> & Hm).
    apply number_f_match_sound in Hm as (tok & -> & -> & Hw).
    now exists pre, rest.
  - intros pre tok post [-> Hw]. apply fmap_is_Some.
    apply search_from_complete. rewrite (number_f_match_complete _ _ _ Hw). eauto.
Qed.

Lemma search_f_sound (s : pystr) :
  is_Some (search true f_pattern s) ->
  exists pre tok post, holds_word f_word s pre tok post.
Proof.
  unfold search, holds_word. intros Hs. apply fmap_is_Some in Hs as [[cap rest] Hs].
  apply search_from_sound in Hs as (pre & post & -> & Hm).
  apply f_match_sound in Hm as (tok & -> & Hw).
  now exists pre, tok, rest.
Qed.

Lemma number_f_word_shape (prev : option ascii) (tok rest : pystr) :
  number_f_word prev tok rest ->
  exists d, upper tok = d ++ lit "F" /\ (1 <= length d <= 3)%nat /\ all_digits d.
Proof.
  intros (d & c & -> & Hlen & Hd & Hc & _). exists d. split; [|now split].
  rewrite upper_app, upper_digits by exact Hd.
  cbn. unfold lit. cbn. now rewrite Hc.
Qed.

(** A row text that holds a number followed by F is given such a token. *)
Lemma mark_of_row_number_f (s pre tok post : pystr) :
  holds_word number_f_word s pre tok post ->
  exists d, mark_of_row s = Some (d ++ lit "F") /\
            (1 <= length d <= 3)%nat /\ all_digits d.
Proof.
  intros Hw. destruct (search_number_f s) as [Hsound Hcomplete].
  destruct (Hcomplete _ _ _ Hw) as [g Hg].
  destruct (Hsound g Hg) as (pre' & post' & _ & Hw').
  destruct (number_f_word_shape _ _ _ Hw') as (d & Hd & Hlen & Hall).
  exists d. unfold mark_of_row. rewrite Hg, Hd. now split.
Qed.

(** The search returns the match at the first position that has one. *)
Lemma search_from_leftmost (ic : bool) (r : re) (s : pystr) (prev : option ascii)
    (m : option pystr * pystr) :
  search_from ic r prev s = Some m ->
  exists pre post, s = pre ++ post /\
    match_here ic r (char_before prev pre) post = Some m /\
    forall pre' post', s = pre' ++ post' -> (length pre' < length pre)%nat ->
      match_here ic r (char_before prev pre') post' = None.
Proof.
  revert prev. induction s as [|a s IH]; intros prev; rewrite search_from_unfold.
  - destruct (match_here ic r prev []) eqn:E; [|discriminate].
    intros [= <-]. exists [], []. split; [reflexivity|]. split; [exact E|].
    intros pre' post' _ H. cbn in H. lia.
  - destruct (match_here ic r prev (a :: s)) eqn:E.
    + intros [= <-]. exists [], (a :: s). split; [reflexivity|]. split; [exact E|].
      intros pre' post' _ H. cbn in H. lia.
    + intros H. destruct (IH _ H) as (pre & post & -> & Hm & Hfirst).
      exists (a :: pre), post. split; [reflexivity|].
      split; [now rewrite char_before_cons|].
      intros pre' post' Heq Hlen. destruct pre' as [|b pre'].
      * cbn in Heq. subst post'. exact E.
      * cbn in Heq. injection Heq as <- Heq. rewrite char_before_cons.
        apply Hfirst; [exact Heq|cbn in Hlen; lia].
Qed.

(** What the search for a number followed by F returns is the first such
    word of the text. *)
Lemma search_number_f_first (s g : pystr) :
  search true number_f_pattern s = Some g ->
  exists pre post, first_word number_f_word s pre g post.
Proof.
  unfold search, first_word, holds_word. intros Hg.
  apply fmap_Some in Hg as ([cap rest] & Hs & ->).
  apply search_from_leftmost in Hs as (pre & post & -> & Hm & Hfirst).
  pose proof Hm as Hm'. apply number_f_match_sound in Hm' as (tok & -> & -> & Hw).
  exists pre, rest. split; [now split|].
  intros p t q [Heq Hw'].
  destruct (Nat.le_gt_cases (length pre) (length p)) as [Hle|Hlt]; [exact Hle|].
  pose proof (Hfirst p (t ++ q) Heq Hlt) as Hnone.
  rewrite (number_f_match_complete _ _ _ Hw') in Hnone. discriminate.
Qed.

(** At one position a text holds at most one number followed by F. *)
Lemma number_f_word_at (s pre tok post pre' tok' post' : pystr) :
  holds_word number_f_word s pre tok post ->
  holds_word number_f_word s pre' tok' post' ->
  length pre = length pre' -> tok = tok'.
Proof.
  intros [-> Hw] [Heq Hw'] Hlen.
  apply app_inj_1 in Heq as [-> Heq]; [|exact Hlen].
  apply number_f_match_complete in Hw, Hw'. rewrite Heq in Hw. congruence.
Qed.

Lemma first_number_f_word_unique (s pre tok post pre' tok' post' : pystr) :
  first_word number_f_word s pre tok post ->
  first_word number_f_word s pre' tok' post' ->
  tok = tok'.
Proof.
  intros [Hw Hfirst] [Hw' Hfirst'].
  apply (number_f_word_at s pre tok post pre' tok' post' Hw Hw').
  pose proof (Hfirst _ _ _ Hw'). pose proof (Hfirst' _ _ _ Hw). lia.
Qed.

(** A row text that holds a number followed by F is given the first such
    word of the text, in upper case. *)
Lemma mark_of_row_first_number_f (s pre tok post : pystr) :
  holds_word number_f_word s pre tok post ->
  exists pre0 tok0 post0,
    first_word number_f_word s pre0 tok0 post0 /\
    mark_of_row s = Some (upper tok0).
Proof.
  intros Hw. destruct (search_number_f s) as [_ Hcomplete].
  destruct (Hcomplete _ _ _ Hw) as [g Hg].
  destruct (search_number_f_first s g Hg) as (pre0 & post0 & Hfirst).
  exists pre0, g, post0. split; [exact Hfirst|].
  unfold mark_of_row. now rewrite Hg.
Qed.

Lemma digit_value_bounds (c : ascii) : is_digit c = true -> 0 <= digit_value c <= 9.
Proof.
  unfold is_digit, between, digit_value.
  rewrite andb_true_iff, !N.leb_le. lia.
Qed.

Lemma int_of_digits_bounds (d : pystr) :
  all_digits d -> (length d <= 3)%nat -> 0 <= int_of_digits d <= 999.
Proof.
  intros Hd Hlen. unfold all_digits in Hd.
  destruct d as [|a [|b [|c [|x d]]]]; cbn [length] in Hlen; try lia;
    digits_of Hd; unfold int_of_digits; cbn [fold_left];
    repeat match goal with
           | H : is_digit _ = true |- _ => apply digit_value_bounds in H
           end; lia.
Qed.

(** Every mark given to a row text is the fail marker, a number of two or
    three digits within 10..100, or one to three digits followed by F. *)
Lemma mark_of_row_shape (s v : pystr) :
  mark_of_row s = Some v ->
  is_fail v \/
  (is_numeric v /\ 10 <= int_of_digits v <= 100) \/
  (exists d, v = d ++ lit "F" /\ (1 <= length d <= 3)%nat /\ all_digits d /\
             0 <= int_of_digits d <= 999).
Proof.
  unfold mark_of_row. destruct (search_number_f s) as [Hsound _].
  destruct (search true number_f_pattern s) as [g|] eqn:Hg.
  - intros [= <-]. right. right.
    destruct (Hsound g eq_refl) as (pre & post & _ & Hw).
    destruct (number_f_word_shape _ _ _ Hw) as (d & Hd & Hlen & Hall).
    exists d. split_and!; [exact Hd|lia|lia|exact Hall|apply int_of_digits_bounds|
                           apply int_of_digits_bounds]; try assumption; lia.
  - case_bool_decide; [intros [= <-]; now left|].
    destruct (last (valid_marks s)) as [x|] eqn:Hlast.
    + intros [= <-]. right. left.
      apply last_Some in Hlast as [l Hl].
      assert (Hin : In x (valid_marks s)).
      { rewrite Hl. apply in_or_app. right. now left. }
      unfold valid_marks in Hin. apply filter_In in Hin as [Hin Hrange].
      apply list_elem_of_In, numbers_from_sound in Hin as (a & b & _ & Hlen & Hd & _).
      unfold in_mark_range in Hrange. apply andb_true_iff in Hrange as [H1 H2].
      split; [now split|]. lia.
    + destruct (existsb _ fail_patterns); [intros [= <-]; now left|discriminate].
Qed.

Lemma filter_none {A : Type} (f : A -> bool) (l : list A) :
  (forall x, In x l -> f x = false) -> List.filter f l = [].
Proof.
  induction l as [|x l IH]; intros H; [reflexivity|].
  cbn. rewrite (H x (or_introl eq_refl)). apply IH. intros y Hy. apply H. now right.
Qed.

(** A row text without fail tokens is given its last number within
    10..100. *)
Lemma mark_of_row_last_number (s pre tok post : pystr) :
  holds_word (digit_word 2 3) s pre tok post ->
  in_mark_range tok = true ->
  (forall a t b, holds_word (digit_word 2 3) s (pre ++ tok ++ a) t b ->
                 in_mark_range t = false) ->
  (forall a t b, ~ holds_word number_f_word s a t b) ->
  (forall a t b, ~ holds_word f_word s a t b) ->
  mark_of_row s = Some tok.
Proof.
  intros [Hs Hw] Hrange Hlater Hnf Hf. unfold mark_of_row.
  destruct (search true number_f_pattern s) as [g|] eqn:Hg.
  { destruct (proj1 (search_number_f s) g Hg) as (a & b & Hh). now destruct (Hnf a g b). }
  case_bool_decide as Hsf.
  { destruct (search_f_sound s Hsf) as (a & t & b & Hh). now destruct (Hf a t b). }
  destruct (findall_around_word pre tok post Hw) as [l Hl].
  unfold valid_marks. rewrite Hs, Hl, List.filter_app. cbn [List.filter].
  rewrite Hrange, (filter_none _ (numbers_from _ post 0)).
  - now rewrite last_snoc.
  - intros x Hx. apply list_elem_of_In, numbers_from_sound in Hx as (a & b & -> & Hx).
    apply (Hlater a x b). split.
    + rewrite Hs. now rewrite <- !app_assoc.
    + rewrite <- char_before_app in Hx. now rewrite !app_assoc.
Qed.

(* ------------------------------------------------------------------ *)
(** ** Rows and pages *)

Lemma row_entry_Some (row : node) (code v : pystr) :
  row_entry row = Some (code, v) <->
  (3 <= length (row_cells row))%nat /\
  subject_code_of (first_cell row) = Some code /\
  mark_of_row (row_text (row_cells row)) = Some v.
Proof.
  unfold row_entry, first_cell. cbn zeta.
  destruct (3 <=? length (row_cells row))%nat eqn:Hlen.
  - apply Nat.leb_le in Hlen.
    destruct (row_cells row) as [|c0 cells] eqn:Hc; [cbn in Hlen; lia|].
    destruct (subject_code_of (strip (get_text c0))) as [code'|];
      [destruct (mark_of_row (row_text (c0 :: cells))) as [v'|]|];
      split; try (intros [= <- <-]; now split_and!);
      try discriminate; intros (_ & H1 & H2); congruence.
  - apply Nat.leb_gt in Hlen. split; [discriminate|]. intros (H & _). lia.
Qed.

Lemma fold_left_flat_map {A B C : Type} (f : A -> B -> A) (g : C -> list B)
    (l : list C) (a : A) :
  fold_left f (flat_map g l) a = fold_left (fun a x => fold_left f (g x) a) l a.
Proof.
  revert a. induction l as [|x l IH]; intros a; [reflexivity|].
  cbn. now rewrite fold_left_app, IH.
Qed.

Lemma fold_left_same {A B : Type} (f g : A -> B -> A) (l : list B) (a : A) :
  (forall a x, f a x = g a x) -> fold_left f l a = fold_left g l a.
Proof.
  intros H. revert a. induction l as [|x l IH]; intros a; [reflexivity|].
  cbn. now rewrite H, IH.
Qed.

(** The nested loops of the source visit the data rows one after the
    other. *)
Lemma extract_marks_data_rows (soup : node) :
  extract_marks soup = fold_left process_row (data_rows soup) ∅.
Proof.
  unfold extract_marks, data_rows. rewrite fold_left_flat_map.
  apply fold_left_same. intros m table. unfold process_table.
  now destruct (table_selected table).
Qed.

(** The value under a code after a run of rows is that of the last row
    with an entry for the code. *)
Lemma process_rows_last (before after : list node) (row : node) (code v : pystr)
    (m : gmap pystr pystr) :
  row_entry row = Some (code, v) ->
  (forall r v', r ∈ after -> row_entry r <> Some (code, v')) ->
  fold_left process_row (before ++ row :: after) m !! code = Some v.
Proof.
  intros Hrow Hafter. rewrite fold_left_app. cbn [fold_left].
  set (m1 := fold_left process_row before m).
  assert (H1 : process_row m1 row !! code = Some v).
  { unfold process_row. rewrite Hrow. apply lookup_insert_eq. }
  clearbody m1. revert H1. generalize (process_row m1 row). clear m1.
  induction after as [|r after IH]; intros m1 H1; [exact H1|].
  cbn [fold_left]. apply IH.
  - intros r' v' Hr'. apply Hafter. now apply list_elem_of_further.
  - unfold process_row. destruct (row_entry r) as [[c' v']|] eqn:Hr; [|exact H1].
    rewrite lookup_insert_ne; [exact H1|].
    intros ->. apply (Hafter r v'); [apply list_elem_of_here|exact Hr].
Qed.

(** Whatever is stored under a code was there before or is the entry of
    one of the rows. *)
Lemma process_rows_origin (rows : list node) (m : gmap pystr pystr) (code v : pystr) :
  fold_left process_row rows m !! code = Some v ->
  m !! code = Some v \/ exists r, r ∈ rows /\ row_entry r = Some (code, v).
Proof.
  revert m. induction rows as [|r rows IH]; intros m H; [now left|].
  cbn [fold_left] in H. apply IH in H as [H|(r' & Hr' & He)].
  - unfold process_row in H. destruct (row_entry r) as [[c' v']|] eqn:Hr; [|now left].
    destruct (decide (c' = code)) as [->|Hne].
    + rewrite lookup_insert_eq in H. injection H as ->. right. exists r.
      split; [apply list_elem_of_here|exact Hr].
    + rewrite lookup_insert_ne in H by exact Hne. now left.
  - right. exists r'. split; [now apply list_elem_of_further|exact He].
Qed.

Lemma process_row_lookup (row : node) (code v : pystr) (m : gmap pystr pystr) :
  row_entry row = Some (code, v) -> process_row m row !! code = Some v.
Proof. intros H. unfold process_row. rewrite H. apply lookup_insert_eq. Qed.

Lemma page_lookup_last (soup : node) (before after : list node) (row : node)
    (code v : pystr) :
  row_entry row = Some (code, v) ->
  data_rows soup = before ++ row :: after ->
  (forall r v', r ∈ after -> row_entry r <> Some (code, v')) ->
  extract_data_from_page (Some soup) !! code = Some v.
Proof.
  intros Hrow Hrows Hafter. cbn [extract_data_from_page].
  rewrite extract_marks_data_rows, Hrows. now apply process_rows_last.
Qed.

Lemma filter_digits (d : pystr) : all_digits d -> List.filter is_digit d = d.
Proof.
  induction 1 as [|c d Hc _ IH]; [reflexivity|]. cbn. now rewrite Hc, IH.
Qed.

Lemma numeric_component_digits (d : pystr) :
  all_digits d -> (1 <= length d)%nat ->
  numeric_component d = Some (int_of_digits d) /\
  numeric_component (d ++ lit "F") = Some (int_of_digits d).
Proof.
  intros Hd Hlen. unfold numeric_component.
  rewrite List.filter_app, filter_digits by exact Hd.
  change (List.filter is_digit (lit "F")) with (@nil ascii). rewrite app_nil_r.
  destruct d; [cbn in Hlen; lia|]. now split.
Qed.

Lemma numeric_fail_is_neither (d : pystr) :
  (1 <= length d)%nat -> ~ is_fail (d ++ lit "F") /\ ~ is_numeric (d ++ lit "F").
Proof.
  intros Hlen. split.
  - unfold is_fail. intros H. apply (f_equal length) in H.
    rewrite length_app in H. cbn in H. lia.
  - intros [_ H]. unfold all_digits in H. apply Forall_app in H as [_ H].
    apply Forall_cons in H as [H _]. discriminate H.
Qed.

(* ------------------------------------------------------------------ *)
(** ** The claims on the extraction engine *)

(** C7. A data row (at least three cells, a subject code in the first)
    whose text holds a word of one to three digits followed by F stores
    under its code the first such word of its text, in upper case: a
    token of that shape, never the bare fail marker and never a number,
    whatever else the row holds. That token is also what the page yields
    for the code when no later row has an entry for it. *)
Theorem numeric_fail_takes_precedence (row : node) (code pre tok post : pystr) :
  (3 <= length (row_cells row))%nat ->
  subject_code_of (first_cell row) = Some code ->
  holds_word number_f_word (row_text (row_cells row)) pre tok post ->
  exists pre0 tok0 post0,
    first_word number_f_word (row_text (row_cells row)) pre0 tok0 post0 /\
    (first_word number_f_word (row_text (row_cells row)) pre tok post -> tok0 = tok) /\
    row_entry row = Some (code, upper tok0) /\
    is_numeric_fail (upper tok0) /\ ~ is_fail (upper tok0) /\ ~ is_numeric (upper tok0) /\
    (forall marks_data : gmap pystr pystr,
        process_row marks_data row !! code = Some (upper tok0)) /\
    (forall soup before after,
        data_rows soup = before ++ row :: after ->
        (forall r v', r ∈ after -> row_entry r <> Some (code, v')) ->
        extract_data_from_page (Some soup) !! code = Some (upper tok0)).
Proof.
  intros Hcells Hcode Hw.
  destruct (mark_of_row_first_number_f _ _ _ _ Hw) as (pre0 & tok0 & post0 & Hfirst & Hm).
  assert (Hrow : row_entry row = Some (code, upper tok0)).
  { apply row_entry_Some. now split_and!. }
  destruct Hfirst as [[Heq Hw0] Hleft].
  destruct (number_f_word_shape _ _ _ Hw0) as (d & Hd & Hlen & Hall).
  destruct (numeric_fail_is_neither d) as [Hnf Hnn]; [lia|].
  exists pre0, tok0, post0. split_and!.
  - split; [now split|exact Hleft].
  - intros Hfirst'. symmetry.
    apply (first_number_f_word_unique _ pre tok post pre0 tok0 post0 Hfirst').
    split; [now split|exact Hleft].
  - exact Hrow.
  - exists d. now split_and!.
  - now rewrite Hd.
  - now rewrite Hd.
  - intros m. now apply process_row_lookup.
  - intros soup before after Hrows Hafter. now apply (page_lookup_last soup before after row).
Qed.

Lemma numeric_fail_takes_precedence_witness :
  exists tok0,
    row_entry mixed_row = Some (lit "CS-CS-102", upper tok0) /\
    upper tok0 = lit "29F" /\
    is_numeric_fail (upper tok0) /\ ~ is_fail (upper tok0) /\ ~ is_numeric (upper tok0).
Proof.
  destruct (numeric_fail_takes_precedence mixed_row (lit "CS-CS-102")
              (lit "CS-CS-102: Logic F 100 Marks ") (lit "29F") [])
    as (pre0 & tok0 & post0 & _ & _ & Hrow & Hnf & Hf & Hn & _).
  - vm_compute. lia.
  - vm_compute. reflexivity.
  - split; [vm_compute; reflexivity|].
    exists (lit "29"), "F"%char.
    split_and!; try (vm_compute; reflexivity); try (vm_compute; lia).
    repeat constructor.
  - exists tok0. split_and!; try assumption.
    assert (Hc : row_entry mixed_row = Some (lit "CS-CS-102", lit "29F"))
      by (vm_compute; reflexivity).
    congruence.
Defined.

(** C8. The row text [Max:100 Obtained:76] yields 76; and a data row
    without fail token (no word of digits followed by F, no word F) whose
    text holds a word of two or three digits within 10..100, with no such
    word after it, stores that word under its code. *)
Theorem last_number_in_range_is_recorded :
  mark_of_row (lit "Max:100 Obtained:76") = Some (lit "76") /\
  forall (row : node) (code pre tok post : pystr),
    (3 <= length (row_cells row))%nat ->
    subject_code_of (first_cell row) = Some code ->
    holds_word (digit_word 2 3) (row_text (row_cells row)) pre tok post ->
    in_mark_range tok = true ->
    (forall a t b,
        holds_word (digit_word 2 3) (row_text (row_cells row)) (pre ++ tok ++ a) t b ->
        in_mark_range t = false) ->
    (forall a t b, ~ holds_word number_f_word (row_text (row_cells row)) a t b) ->
    (forall a t b, ~ holds_word f_word (row_text (row_cells row)) a t b) ->
    row_entry row = Some (code, tok) /\
    (forall marks_data : gmap pystr pystr, process_row marks_data row !! code = Some tok) /\
    (forall soup before after,
        data_rows soup = before ++ row :: after ->
        (forall r v', r ∈ after -> row_entry r <> Some (code, v')) ->
        extract_data_from_page (Some soup) !! code = Some tok).
Proof.
  split; [vm_compute; reflexivity|].
  intros row code pre tok post Hcells Hcode Hw Hrange Hlater Hnf Hf.
  assert (Hrow : row_entry row = Some (code, tok)).
  { apply row_entry_Some. split_and!; [exact Hcells|exact Hcode|].
    now apply (mark_of_row_last_number _ pre tok post). }
  split_and!; [exact Hrow| |].
  - intros m. now apply process_row_lookup.
  - intros soup before after Hrows Hafter. now apply (page_lookup_last soup before after row).
Qed.

(** C4 (as amended). Every mark the engine stores is the fail marker, or
    a number of two or three digits whose value is within 10..100, or one
    to three digits followed by F, whose value is anywhere in 0..999. *)
Theorem stored_marks_shape (page : option node) (code v : pystr) :
  extract_data_from_page page !! code = Some v ->
  is_fail v \/
  (is_numeric v /\
   exists n, numeric_component v = Some n /\ n = int_of_digits v /\ 10 <= n <= 100) \/
  (is_numeric_fail v /\
   exists n, numeric_component v = Some n /\ 0 <= n <= 999).
Proof.
  intros H. destruct page as [soup|];
    [|cbn [extract_data_from_page] in H; now rewrite lookup_empty in H].
  cbn [extract_data_from_page] in H. rewrite extract_marks_data_rows in H.
  apply process_rows_origin in H as [H|(r & _ & Hr)];
    [now rewrite lookup_empty in H|].
  apply row_entry_Some in Hr as (_ & _ & Hm).
  apply mark_of_row_shape in Hm as [Hf|[[Hn Hrange]|(d & -> & Hlen & Hd & Hrange)]].
  - now left.
  - right. left. split; [exact Hn|]. exists (int_of_digits v).
    destruct Hn as [Hlen Hd].
    destruct (numeric_component_digits v Hd) as [-> _]; [lia|]. now split_and!.
  - right. right. split; [now exists d|]. exists (int_of_digits d).
    destruct (numeric_component_digits d Hd) as [_ ->]; [lia|]. now split.
Qed.

Lemma stored_marks_shape_witness :
  is_fail (lit "5F") \/
  (is_numeric (lit "5F") /\
   exists n, numeric_component (lit "5F") = Some n /\ n = int_of_digits (lit "5F") /\
             10 <= n <= 100) \/
  (is_numeric_fail (lit "5F") /\
   exists n, numeric_component (lit "5F") = Some n /\ 0 <= n <= 999).
Proof.
  apply (stored_marks_shape (Some odd_page) (lit "CS-CS-103") (lit "5F")).
  vm_compute. reflexivity.
Defined.

(** C4 (the claim as stated fails). The tokens 5F and 999F are stored
    although 5 and 999 lie outside 10..100. *)
Lemma numeric_fail_outside_mark_range :
  extract_data_from_page (Some odd_page) !! lit "CS-CS-103" = Some (lit "5F") /\
  numeric_component (lit "5F") = Some 5 /\ ~ (10 <= 5 <= 100) /\
  extract_data_from_page (Some odd_page) !! lit "CS-CS-104" = Some (lit "999F") /\
  numeric_component (lit "999F") = Some 999 /\ ~ (10 <= 999 <= 100).
Proof. split_and!; try (vm_compute; reflexivity); lia. Qed.

(** C1 (as amended). When two data rows of a page have an entry for the
    same subject code, the mapping holds one token for the code: that of
    the later row, provided no row after it has an entry for the code;
    the later row overwrites the earlier one. *)
Theorem repeated_code_keeps_last_row
    (soup : node) (before mid after : list node) (row1 row2 : node)
    (code v1 v2 : pystr) :
  data_rows soup = before ++ row1 :: mid ++ row2 :: after ->
  row_entry row1 = Some (code, v1) ->
  row_entry row2 = Some (code, v2) ->
  (forall r v', r ∈ after -> row_entry r <> Some (code, v')) ->
  extract_data_from_page (Some soup) !! code = Some v2 /\
  (v1 <> v2 -> extract_data_from_page (Some soup) !! code <> Some v1).
Proof.
  intros Hrows _ H2 Hafter.
  assert (H : extract_data_from_page (Some soup) !! code = Some v2).
  { apply (page_lookup_last soup (before ++ row1 :: mid) after row2);
      [exact H2| |exact Hafter].
    rewrite Hrows. now rewrite <- app_assoc. }
  split; [exact H|]. rewrite H. congruence.
Qed.

Lemma repeated_code_keeps_last_row_witness :
  extract_data_from_page (Some repeated_page) !! lit "CS-CS-101" = Some (lit "40") /\
  (lit "85" <> lit "40" ->
   extract_data_from_page (Some repeated_page) !! lit "CS-CS-101" <> Some (lit "85")).
Proof.
  apply (repeated_code_keeps_last_row repeated_page [] [] [] first_row second_row
           (lit "CS-CS-101") (lit "85") (lit "40")).
  - vm_compute. reflexivity.
  - vm_compute. reflexivity.
  - vm_compute. reflexivity.
  - intros r v' Hr. inversion Hr.
Defined.

(** C1 (the claim as stated fails). On a page whose table has the rows
    [CS-CS-101 ... 85] and then [CS-CS-101 ... 40], the mapping holds 40
    for the code: the later row has overwritten the first. *)
Lemma repeated_code_is_overwritten :
  data_rows repeated_page = [first_row; second_row] /\
  row_entry first_row = Some (lit "CS-CS-101", lit "85") /\
  row_entry second_row = Some (lit "CS-CS-101", lit "40") /\
  extract_data_from_page (Some repeated_page) !! lit "CS-CS-101" = Some (lit "40") /\
  extract_data_from_page (Some repeated_page) !! lit "CS-CS-101" <> Some (lit "85").
Proof.
  split_and!; try (vm_compute; reflexivity).
  apply neq_by_decide. vm_compute. reflexivity.
Qed.

Lemma f_match_complete (prev : option ascii) (tok rest : pystr) :
  f_word prev tok rest ->
  is_Some (match_here true f_pattern prev (tok ++ rest)).
Proof.
  intros (c & -> & Hc & Hb & Ha).
  pose proof (proj2 (chr_ok_F c) Hc) as Hok.
  destruct (upper_F_is_word c Hc) as [Hw _].
  unfold match_here, f_pattern. destruct rest as [|y rest]; simpl;
    unfold word_before, word_after in *; rewrite Hb, Hw, Hok; simpl;
    rewrite ?Ha; eauto.
Qed.

Lemma search_f_complete (s pre tok post : pystr) :
  holds_word f_word s pre tok post -> is_Some (search true f_pattern s).
Proof.
  intros [-> Hw]. unfold search. apply fmap_is_Some.
  apply search_from_complete. now apply f_match_complete.
Qed.

Lemma last_number_in_range_is_recorded_witness :
  row_entry max_row = Some (lit "CS-CS-101", lit "76") /\
  (forall marks_data : gmap pystr pystr,
      process_row marks_data max_row !! lit "CS-CS-101" = Some (lit "76")) /\
  (forall soup before after,
      data_rows soup = before ++ max_row :: after ->
      (forall r v', r ∈ after -> row_entry r <> Some (lit "CS-CS-101", v')) ->
      extract_data_from_page (Some soup) !! lit "CS-CS-101" = Some (lit "76")).
Proof.
  apply (proj2 last_number_in_range_is_recorded max_row (lit "CS-CS-101")
           (lit "CS-CS-101: Algorithms Max:100 Obtained:") (lit "76") []).
  - vm_compute. lia.
  - vm_compute. reflexivity.
  - split; [vm_compute; reflexivity|].
    split_and!; try (vm_compute; reflexivity); try (vm_compute; lia).
    repeat constructor.
  - vm_compute. reflexivity.
  - intros a t b [Hs ((Hlen & _) & _)]. exfalso.
    apply (f_equal length) in Hs. rewrite !length_app in Hs.
    assert (Hn : length (row_text (row_cells max_row)) = 41%nat) by (vm_compute; reflexivity).
    assert (Hp : length (lit "CS-CS-101: Algorithms Max:100 Obtained:") = 39%nat)
      by (vm_compute; reflexivity).
    assert (Ht : length (lit "76") = 2%nat) by (vm_compute; reflexivity).
    rewrite Hn, Hp, Ht in Hs. lia.
  - intros a t b H. apply search_number_f in H as [g Hg].
    assert (Hn : search true number_f_pattern (row_text (row_cells max_row)) = None)
      by (vm_compute; reflexivity).
    congruence.
  - intros a t b H. apply search_f_complete in H as [g Hg].
    assert (Hn : search true f_pattern (row_text (row_cells max_row)) = None)
      by (vm_compute; reflexivity).
    congruence.
Defined.

(* ================================================================== *)
(** * Further properties of the code *)
(* ================================================================== *)

Import Progress.

(* ------------------------------------------------------------------ *)
(** ** Order of the results and the running flag *)

Lemma in_roster_order_same (st st' : job_state) :
  same_counters st st' ->
  identity <$> results st' = identity <$> results st ->
  in_roster_order st -> in_roster_order st'.
Proof.
  unfold in_roster_order. intros (Hs & Hl & _) Hid H. now rewrite Hid, Hs, Hl.
Qed.

Lemma progress_invariant_same (p : pc) (st st' : job_state) :
  same_counters st st' ->
  identity <$> results st' = identity <$> results st ->
  progress_invariant p st -> progress_invariant p st'.
Proof.
  intros Hsame Hid [Ho Hp]. split; [now apply (in_roster_order_same st)|].
  destruct Hsame as (Hs & Hl & _ & _ & _ & Hr).
  destruct p; rewrite ?Hr, ?Hl, ?Hs; exact Hp.
Qed.

Lemma identity_correct_result (m : gmap pystr pystr) (r : result) :
  identity (correct_result m r) = identity r.
Proof. reflexivity. Qed.

Lemma identity_alter (m : gmap pystr pystr) (i : nat) (rs : list result) :
  identity <$> alter (correct_result m) i rs = identity <$> rs.
Proof.
  revert i. induction rs as [|r rs IH]; intros [|i]; cbn; try reflexivity.
  now rewrite IH.
Qed.

Lemma identity_failed_submit (idx : Z) (m : gmap pystr pystr) (ts : pystr) (now : Z)
    (ok : bool) (io : io_outcome) (w : world) :
  identity <$> results (STATE (failed_submit idx m ts now ok io w))
  = identity <$> results (STATE w).
Proof.
  unfold failed_submit. destruct ((idx <? 0) || _); [reflexivity|].
  destruct (save_results_to_excel _ _ _ _) as [w2|] eqn:E.
  - cbn. rewrite STATE_set_result_expiry, (STATE_save_results _ _ _ _ _ E). cbn.
    apply identity_alter.
  - cbn. apply identity_alter.
Qed.

Lemma results_detailed_submit (ts : pystr) (now : Z) (ok : bool) (io : io_outcome)
    (w : world) :
  results (STATE (detailed_submit ts now ok io w)) = results (STATE w).
Proof.
  unfold detailed_submit. destruct (save_results_to_excel _ _ _ _) as [w1|] eqn:E;
    [|reflexivity].
  cbn. now rewrite STATE_set_result_expiry, (STATE_save_results _ _ _ _ _ E).
Qed.

Lemma results_clear_if_current (f : pystr) (st : job_state) :
  results (clear_if_current f st) = results st.
Proof. unfold clear_if_current. now case_bool_decide. Qed.

Lemma results_sweep_result (now : Z) (rm : folder -> pystr -> bool)
    (items : list (pystr * Z)) (w : world) :
  results (STATE (fold_left (sweep_result now rm) items w)) = results (STATE w).
Proof.
  revert w. induction items as [|[f e] items IH]; intros w; [reflexivity|].
  cbn [fold_left]. rewrite IH. unfold sweep_result.
  destruct (now >=? e); [|reflexivity]. cbn. apply results_clear_if_current.
Qed.

Lemma results_sweep (now : Z) (rm : folder -> pystr -> bool) (w : world) :
  results (STATE (sweep now rm w)) = results (STATE w).
Proof.
  unfold sweep. rewrite results_sweep_result.
  now destruct (sweep_upload_frame now rm (map_to_list (UPLOAD_EXPIRY w)) w) as (-> & _).
Qed.

Lemma identity_process_single_student (l : lookup) (st : student) :
  identity (process_single_student l st) = st.
Proof. now destruct l, st. Qed.

Lemma take_snoc_lookup {A : Type} (l : list A) (n : nat) (x : A) :
  l !! n = Some x -> take (S n) l = take n l ++ [x].
Proof. intros H. now apply take_S_r. Qed.

Lemma worker_step_progress (e : env) (p : pc) (w : world) :
  worker_invariant p (STATE w) ->
  progress_invariant p (STATE w) ->
  progress_invariant (worker_step e p w).1 (STATE (worker_step e p w).2).
Proof.
  intros Hw [Ho Hp]. unfold in_roster_order in Ho.
  destruct p; cbn [worker_step progress_invariant] in *.
  - now split.
  - (* AtStart *) cbn. split; [reflexivity|reflexivity].
  - (* AtLoad *)
    destruct (env_excel e) as [df|]; [destruct (load_students df)|]; cbn [fst snd];
      now split.
  - (* AtPublish *)
    cbn in *. destruct Hw as (Hr & _). split; [|exact Hp].
    unfold in_roster_order. cbn. now rewrite Hr.
  - (* AtDriver *)
    destruct (env_driver e); cbn [fst snd]; now split.
  - (* AtNext *)
    destruct (sts !! i) as [st|] eqn:E; cbn [fst snd].
    + split; [exact Ho|]. split; [exact Hp|exact E].
    + cbn in *. destruct Hw as (Hs & _ & Hl & _ & Hle). split; [exact Ho|].
      split; [reflexivity|]. apply lookup_ge_None in E.
      change (length (results (STATE w)) = length (students (STATE w))).
      rewrite Hs. lia.
  - (* AtProcess *)
    cbn in Hw. destruct Hw as (Hs & _ & Hl & _ & _). destruct Hp as [Hr Hst].
    split; [|exact Hr]. unfold in_roster_order.
    change (identity <$> (results (STATE w) ++ [process_single_student (env_lookup e) st])
            = take (length (results (STATE w) ++ [process_single_student (env_lookup e) st]))
                (students (STATE w))).
    rewrite fmap_app, length_app, Ho, Hs. cbn [length fmap list_fmap].
    rewrite Nat.add_1_r. rewrite <- Hl in Hst. cbn [pred] in Hst.
    rewrite (take_snoc_lookup _ _ _ Hst). f_equal.
    now rewrite identity_process_single_student.
  - (* AtSnapshot *)
    destruct ((i mod 5 =? 0)%nat || _); cbn [fst snd]; [|now split].
    destruct (save_results_to_excel _ _ _ _) as [w1|] eqn:E; cbn [fst snd].
    + rewrite STATE_set_result_expiry, (STATE_save_results _ _ _ _ _ E). now split.
    + now split.
  - (* AtPointer *) cbn. now split.
  - now split.
  - now split.
Qed.

Lemma do_action_progress (a : action) (s : system) :
  enabled a s = true ->
  worker_invariant s.1 (STATE s.2) ->
  progress_invariant s.1 (STATE s.2) ->
  progress_invariant (do_action a s).1 (STATE (do_action a s).2).
Proof.
  destruct s as [p w]. intros Hen Hw H. destruct a; cbn [do_action fst snd] in *.
  - now apply worker_step_progress.
  - rewrite STATE_set_upload_expiry. cbn. split; [apply H|exact I].
  - eapply progress_invariant_same;
      [apply same_counters_failed_submit|apply identity_failed_submit|exact H].
  - eapply progress_invariant_same;
      [apply same_counters_detailed_submit| |exact H].
    now rewrite results_detailed_submit.
  - eapply progress_invariant_same; [apply same_counters_sweep| |exact H].
    now rewrite results_sweep.
Qed.

Lemma reachable_progress_invariant (s : system) :
  reachable s -> progress_invariant s.1 (STATE s.2).
Proof.
  induction 1 as [|a s Hr IH Hen].
  - cbn. split; reflexivity.
  - apply do_action_progress; [exact Hen| |exact IH].
    now apply reachable_worker_invariant.
Qed.

(** The results are appended in roster order, one student at a time: in
    every reachable state the students of the results are the first
    students of the roster; and when the worker has returned every student
    has a result. *)
Theorem results_follow_roster_order (s : system) :
  reachable s ->
  identity <$> results (STATE s.2)
  = take (length (results (STATE s.2))) (students (STATE s.2)) /\
  (s.1 = Returned ->
   identity <$> results (STATE s.2) = students (STATE s.2) /\
   length (results (STATE s.2)) = length (students (STATE s.2))).
Proof.
  intros Hr. destruct (reachable_progress_invariant s Hr) as [Ho Hp].
  split; [exact Ho|]. intros Hret. rewrite Hret in Hp. destruct Hp as [_ Hlen].
  split; [|exact Hlen]. unfold in_roster_order in Ho.
  rewrite Ho, Hlen. apply firstn_all.
Qed.

Lemma results_follow_roster_order_witness :
  let s := run_actions two_student_run start in
  identity <$> results (STATE s.2)
  = take (length (results (STATE s.2))) (students (STATE s.2)) /\
  (s.1 = Returned ->
   identity <$> results (STATE s.2) = students (STATE s.2) /\
   length (results (STATE s.2)) = length (students (STATE s.2))).
Proof.
  apply (results_follow_roster_order (run_actions two_student_run start)).
  apply reachable_run; [apply reach_init|vm_compute; reflexivity].
Defined.

(** The [running] flag is set from the worker's first block on, stays set
    while the worker stands anywhere in [worker_process] or has crashed,
    and is clear before the first upload and once the worker has
    returned. *)
Theorem running_flag_follows_worker (s : system) :
  reachable s ->
  match s.1 with
  | Absent | Returned => running (STATE s.2) = false
  | AtStart _ => True
  | _ => running (STATE s.2) = true
  end.
Proof.
  intros Hr. destruct (reachable_progress_invariant s Hr) as [_ Hp].
  destruct s.1; try exact Hp; try exact I; apply Hp.
Qed.

Lemma running_flag_follows_worker_witness :
  match (run_actions two_student_run start).1 with
  | Absent | Returned => running (STATE (run_actions two_student_run start).2) = false
  | AtStart _ => True
  | _ => running (STATE (run_actions two_student_run start).2) = true
  end.
Proof.
  apply (running_flag_follows_worker (run_actions two_student_run start)).
  apply reachable_run; [apply reach_init|vm_compute; reflexivity].
Defined.

(** While a student is being looked up, the status query names that
    student, reports the run as running, and counts one result fewer than
    the current index. *)
Theorem status_names_student_in_flight
    (j : job) (sts : list student) (i : nat) (st : student) (w : world) (now : Z) :
  reachable (AtProcess j sts i st, w) ->
  let v := status_query now w in
  current_student v = Some (name st) /\
  sv_running v = true /\
  current v = i /\
  (sv_successful v + sv_failed v + 1 = i)%nat.
Proof.
  intros Hr v.
  pose proof (reachable_worker_invariant _ Hr) as Hw.
  destruct (reachable_progress_invariant _ Hr) as [_ [Hrun Hst]].
  cbn in Hw, Hrun, Hst. destruct Hw as (Hs & Hsum & Hl & Hc & Hle).
  subst v. unfold status_query. cbn [current_student sv_running current sv_successful
    sv_failed]. rewrite Hc, Hs.
  destruct i as [|i]; [lia|]. cbn [pred] in Hst.
  replace ((S i <=? length sts)%nat) with true by (symmetry; now apply Nat.leb_le).
  cbn. rewrite Hst. split_and!; [reflexivity|exact Hrun|reflexivity|lia].
Qed.

Lemma reachable_at (p : pc) (w : world) (s : system) :
  reachable s -> s.1 = p -> s.2 = w -> reachable (p, w).
Proof. destruct s as [p' w']. cbn. now intros H <- <-. Qed.

Lemma status_names_student_in_flight_witness :
  let v := status_query 1005 (run_actions (take 6 two_student_run) start).2 in
  current_student v = Some (name alice) /\
  sv_running v = true /\
  current v = 1%nat /\
  (sv_successful v + sv_failed v + 1 = 1)%nat.
Proof.
  apply (status_names_student_in_flight a_job [alice; bob] 1 alice _ 1005).
  apply (reachable_at _ _ (run_actions (take 6 two_student_run) start)).
  - apply reachable_run; [apply reach_init|vm_compute; reflexivity].
  - vm_compute. reflexivity.
  - reflexivity.
Defined.

(* ------------------------------------------------------------------ *)
(** ** A manual correction changes one record only *)

Lemma results_failed_submit (idx : Z) (m : gmap pystr pystr) (ts : pystr) (now : Z)
    (ok : bool) (io : io_outcome) (w : world) :
  results (STATE (failed_submit idx m ts now ok io w))
  = if (idx <? 0) || (Z.of_nat (length (results (STATE w))) <=? idx)
    then results (STATE w)
    else alter (correct_result m) (Z.to_nat idx) (results (STATE w)).
Proof.
  unfold failed_submit. destruct ((idx <? 0) || _); [reflexivity|].
  destruct (save_results_to_excel _ _ _ _) as [w2|] eqn:E; [|reflexivity].
  cbn. now rewrite STATE_set_result_expiry, (STATE_save_results _ _ _ _ _ E).
Qed.

(** [failed_submit] with an index outside the list of results answers 404
    and leaves the whole world as it was; with an index inside it replaces
    the marks and the status of that one record, keeps the student the
    record is about, leaves every other record as it was, and changes
    none of the counters: a corrected student still counts as failed. *)
Theorem failed_submit_changes_one_record
    (idx : Z) (m : gmap pystr pystr) (ts : pystr) (now : Z) (ok : bool)
    (io : io_outcome) (w : world) :
  let w' := failed_submit idx m ts now ok io w in
  (idx < 0 \/ Z.of_nat (length (results (STATE w))) <= idx -> w' = w) /\
  (forall r, 0 <= idx -> results (STATE w) !! Z.to_nat idx = Some r ->
     results (STATE w') !! Z.to_nat idx
     = Some {| r_name := r_name r; r_roll := r_roll r; r_reg := r_reg r;
               status := lit "Success (manual)"; marks := m |}) /\
  (forall i, i <> Z.to_nat idx -> results (STATE w') !! i = results (STATE w) !! i) /\
  length (results (STATE w')) = length (results (STATE w)) /\
  successful (STATE w') = successful (STATE w) /\
  failed (STATE w') = failed (STATE w) /\
  current_index (STATE w') = current_index (STATE w) /\
  students (STATE w') = students (STATE w) /\
  running (STATE w') = running (STATE w).
Proof.
  intros w'. subst w'.
  destruct (same_counters_failed_submit idx m ts now ok io w)
    as (Hs & Hl & Hc & Hsu & Hf & Hr).
  split_and!; try assumption.
  - intros Hout. unfold failed_submit.
    replace ((idx <? 0) || (Z.of_nat (length (results (STATE w))) <=? idx)) with true;
      [reflexivity|].
    symmetry. apply orb_true_iff. destruct Hout; [left; lia|right; lia].
  - intros r Hidx Hr'. now apply failed_submit_result.
  - intros i Hi. rewrite results_failed_submit.
    destruct ((idx <? 0) || _); [reflexivity|].
    now apply list_lookup_alter_ne.
Qed.

Lemma failed_submit_changes_one_record_witness :
  let w := (run_actions two_student_run start).2 in
  failed_submit 7 ∅ (lit "20250101_130000") 3000 true Written w = w.
Proof.
  intros w.
  apply (proj1 (failed_submit_changes_one_record 7 ∅ (lit "20250101_130000") 3000 true
                  Written w)).
  right. apply Z.leb_le. vm_compute. reflexivity.
Defined.

(* ------------------------------------------------------------------ *)
(** ** What one round of the cleaner does, in full *)

Section SweepEffect.
Variables (now : Z) (rm : folder -> pystr -> bool).

Lemma sweep_upload_keeps (items : list (pystr * Z)) (w : world) (f : pystr) :
  (forall e, (f, e) ∈ items -> now < e) ->
  UPLOAD_EXPIRY (fold_left (sweep_upload now rm) items w) !! f = UPLOAD_EXPIRY w !! f.
Proof.
  revert w. induction items as [|[g e] items IH]; intros w Hf; [reflexivity|].
  cbn [fold_left]. rewrite IH.
  - unfold sweep_upload. destruct (now >=? e) eqn:Hge; [|reflexivity].
    cbn. apply lookup_delete_ne. intros ->.
    specialize (Hf e (list_elem_of_here _ _)). lia.
  - intros e' He'. apply Hf. now apply list_elem_of_further.
Qed.

Lemma sweep_upload_shrinks (items : list (pystr * Z)) (w : world) (f : pystr) :
  UPLOAD_EXPIRY w !! f = None ->
  UPLOAD_EXPIRY (fold_left (sweep_upload now rm) items w) !! f = None.
Proof.
  revert w. induction items as [|[g e] items IH]; intros w Hf; [exact Hf|].
  cbn [fold_left]. apply IH.
  unfold sweep_upload. destruct (now >=? e); [|exact Hf].
  cbn. rewrite lookup_delete_None. now right.
Qed.

Lemma sweep_upload_drops (items : list (pystr * Z)) (w : world) (f : pystr) (e : Z) :
  (f, e) ∈ items -> e <= now ->
  UPLOAD_EXPIRY (fold_left (sweep_upload now rm) items w) !! f = None.
Proof.
  revert w. induction items as [|[g e'] items IH]; intros w Hin He; [inversion Hin|].
  cbn [fold_left]. apply elem_of_cons in Hin as [[= <- <-]|Hin].
  - apply sweep_upload_shrinks. unfold sweep_upload.
    replace (now >=? e) with true by (symmetry; apply Z.geb_le; lia).
    cbn. apply lookup_delete_eq.
  - now apply IH.
Qed.

Lemma later_than_now_lookup (m : gmap pystr Z) (f : pystr) :
  later_than_now now m !! f
  = match m !! f with
    | Some e => if bool_decide (now < e) then Some e else None
    | None => None
    end.
Proof.
  unfold later_than_now. destruct (m !! f) as [e|] eqn:E.
  - case_bool_decide as Hlt.
    + now apply map_lookup_filter_Some_2.
    + apply map_lookup_filter_None. right. intros e' He'. cbn.
      rewrite E in He'. now injection He' as <-.
  - apply map_lookup_filter_None. now left.
Qed.

Lemma sweep_upload_ledger (w : world) :
  UPLOAD_EXPIRY (fold_left (sweep_upload now rm) (map_to_list (UPLOAD_EXPIRY w)) w)
  = later_than_now now (UPLOAD_EXPIRY w).
Proof.
  apply map_eq. intros f. rewrite later_than_now_lookup.
  destruct (UPLOAD_EXPIRY w !! f) as [e|] eqn:E.
  - case_bool_decide as Hlt.
    + rewrite sweep_upload_keeps; [exact E|].
      intros e' He'. apply elem_of_map_to_list in He'. congruence.
    + apply (sweep_upload_drops _ _ _ e); [now apply elem_of_map_to_list|lia].
  - now apply sweep_upload_shrinks.
Qed.

Lemma sweep_result_ledger (w : world) :
  RESULT_EXPIRY (fold_left (sweep_result now rm) (map_to_list (RESULT_EXPIRY w)) w)
  = later_than_now now (RESULT_EXPIRY w).
Proof.
  apply map_eq. intros f. rewrite later_than_now_lookup.
  destruct (RESULT_EXPIRY w !! f) as [e|] eqn:E.
  - case_bool_decide as Hlt.
    + rewrite sweep_result_keeps; [exact E|].
      intros e' He'. apply elem_of_map_to_list in He'. congruence.
    + apply (sweep_result_drops _ _ _ _ _ e); [now apply elem_of_map_to_list|lia].
  - now apply sweep_result_shrinks.
Qed.

Lemma sweep_ledgers_eq (w : world) :
  UPLOAD_EXPIRY (sweep now rm w) = later_than_now now (UPLOAD_EXPIRY w) /\
  RESULT_EXPIRY (sweep now rm w) = later_than_now now (RESULT_EXPIRY w).
Proof.
  unfold sweep.
  destruct (sweep_upload_frame now rm (map_to_list (UPLOAD_EXPIRY w)) w)
    as (Hs & Hr & Ho & _). cbn zeta in *.
  set (w1 := fold_left (sweep_upload now rm) (map_to_list (UPLOAD_EXPIRY w)) w) in *.
  destruct (sweep_result_frame now rm (map_to_list (RESULT_EXPIRY w1)) w1)
    as (Hu & _ & _). cbn zeta in *.
  split.
  - rewrite Hu. apply sweep_upload_ledger.
  - rewrite sweep_result_ledger. now rewrite Hr.
Qed.

(** A file of the upload folder is there after the loop exactly when it
    was there before and the loop did not carry out its removal. *)
Lemma sweep_upload_files (items : list (pystr * Z)) (w : world) (f : pystr) :
  f ∈ upload_files (fold_left (sweep_upload now rm) items w) <->
  f ∈ upload_files w /\
  ~ (exists e, (f, e) ∈ items /\ e <= now /\ rm UPLOAD_FOLDER f = true).
Proof.
  revert w. induction items as [|[g e] items IH]; intros w.
  - cbn. split; [intros H; split; [exact H|]|tauto].
    intros (e & Hin & _). inversion Hin.
  - cbn [fold_left]. rewrite IH.
    assert (Hstep : f ∈ upload_files (sweep_upload now rm w (g, e)) <->
                    f ∈ upload_files w /\
                    ~ (g = f /\ e <= now /\ rm UPLOAD_FOLDER f = true)).
    { unfold sweep_upload. destruct (now >=? e) eqn:Hge.
      - cbn. unfold remove_if_exists. case_bool_decide as Hg.
        + destruct (rm UPLOAD_FOLDER g) eqn:Hrm.
          * rewrite elem_of_difference, elem_of_singleton.
            split; intros [H1 H2]; (split; [exact H1|]).
            -- intros (-> & _). now apply H2.
            -- intros ->. apply H2. split_and!; [reflexivity|lia|exact Hrm].
          * split; [intros H; split; [exact H|]|tauto].
            intros (-> & _ & Hrm'). congruence.
        + split; [intros H; split; [exact H|]|tauto].
          intros (-> & _). contradiction.
      - split; [intros H; split; [exact H|]|tauto].
        intros (_ & He & _). lia. }
    rewrite Hstep. split.
    + intros [[H1 H2] H3]. split; [exact H1|].
      intros (e' & Hin & He' & Hrm). apply elem_of_cons in Hin as [[= <- <-]|Hin].
      * apply H2. now split_and!.
      * apply H3. now exists e'.
    + intros [H1 H2]. split_and!; [exact H1| |].
      * intros (-> & He & Hrm). apply H2. exists e. split_and!; try assumption.
        apply list_elem_of_here.
      * intros (e' & Hin & He' & Hrm). apply H2. exists e'. split_and!; try assumption.
        now apply list_elem_of_further.
Qed.

Lemma sweep_result_files (items : list (pystr * Z)) (w : world) (f : pystr) :
  f ∈ output_files (fold_left (sweep_result now rm) items w) <->
  f ∈ output_files w /\
  ~ (exists e, (f, e) ∈ items /\ e <= now /\ rm OUTPUT_FOLDER f = true).
Proof.
  revert w. induction items as [|[g e] items IH]; intros w.
  - cbn. split; [intros H; split; [exact H|]|tauto].
    intros (e & Hin & _). inversion Hin.
  - cbn [fold_left]. rewrite IH.
    assert (Hstep : f ∈ output_files (sweep_result now rm w (g, e)) <->
                    f ∈ output_files w /\
                    ~ (g = f /\ e <= now /\ rm OUTPUT_FOLDER f = true)).
    { unfold sweep_result. destruct (now >=? e) eqn:Hge.
      - cbn. unfold remove_if_exists. case_bool_decide as Hg.
        + destruct (rm OUTPUT_FOLDER g) eqn:Hrm.
          * rewrite elem_of_difference, elem_of_singleton.
            split; intros [H1 H2]; (split; [exact H1|]).
            -- intros (-> & _). now apply H2.
            -- intros ->. apply H2. split_and!; [reflexivity|lia|exact Hrm].
          * split; [intros H; split; [exact H|]|tauto].
            intros (-> & _ & Hrm'). congruence.
        + split; [intros H; split; [exact H|]|tauto].
          intros (-> & _). contradiction.
      - split; [intros H; split; [exact H|]|tauto].
        intros (_ & He & _). lia. }
    rewrite Hstep. split.
    + intros [[H1 H2] H3]. split; [exact H1|].
      intros (e' & Hin & He' & Hrm). apply elem_of_cons in Hin as [[= <- <-]|Hin].
      * apply H2. now split_and!.
      * apply H3. now exists e'.
    + intros [H1 H2]. split_and!; [exact H1| |].
      * intros (-> & He & Hrm). apply H2. exists e. split_and!; try assumption.
        apply list_elem_of_here.
      * intros (e' & Hin & He' & Hrm). apply H2. exists e'. split_and!; try assumption.
        now apply list_elem_of_further.
Qed.

Lemma sweep_files_iff (w : world) (f : pystr) :
  (f ∈ upload_files (sweep now rm w) <->
   f ∈ upload_files w /\
   ~ (exists e, UPLOAD_EXPIRY w !! f = Some e /\ e <= now /\ rm UPLOAD_FOLDER f = true)) /\
  (f ∈ output_files (sweep now rm w) <->
   f ∈ output_files w /\
   ~ (exists e, RESULT_EXPIRY w !! f = Some e /\ e <= now /\ rm OUTPUT_FOLDER f = true)).
Proof.
  unfold sweep.
  destruct (sweep_upload_frame now rm (map_to_list (UPLOAD_EXPIRY w)) w)
    as (Hs & Hr & Ho & _). cbn zeta in *.
  pose proof (sweep_upload_files (map_to_list (UPLOAD_EXPIRY w)) w f) as Hup.
  set (w1 := fold_left (sweep_upload now rm) (map_to_list (UPLOAD_EXPIRY w)) w) in *.
  destruct (sweep_result_frame now rm (map_to_list (RESULT_EXPIRY w1)) w1)
    as (_ & Hu & _). cbn zeta in *.
  split.
  - rewrite Hu, Hup. apply and_iff_compat_l, not_iff_compat.
    split; intros (e & H1 & H2); exists e; split; try exact H2;
      now apply elem_of_map_to_list.
  - rewrite sweep_result_files, Ho, Hr. apply and_iff_compat_l, not_iff_compat.
    split; intros (e & H1 & H2); exists e; split; try exact H2;
      now apply elem_of_map_to_list.
Qed.

(** A loop over items none of which has expired changes nothing. *)
Lemma sweep_upload_noop (items : list (pystr * Z)) (w : world) :
  (forall f e, (f, e) ∈ items -> now < e) ->
  fold_left (sweep_upload now rm) items w = w.
Proof.
  revert w. induction items as [|[g e] items IH]; intros w H; [reflexivity|].
  cbn [fold_left]. unfold sweep_upload at 2.
  replace (now >=? e) with false.
  - apply IH. intros f e' Hin. apply (H f e'). now apply list_elem_of_further.
  - symmetry. rewrite Z.geb_leb. apply Z.leb_gt. apply (H g e), list_elem_of_here.
Qed.

Lemma sweep_result_noop (items : list (pystr * Z)) (w : world) :
  (forall f e, (f, e) ∈ items -> now < e) ->
  fold_left (sweep_result now rm) items w = w.
Proof.
  revert w. induction items as [|[g e] items IH]; intros w H; [reflexivity|].
  cbn [fold_left]. unfold sweep_result at 2.
  replace (now >=? e) with false.
  - apply IH. intros f e' Hin. apply (H f e'). now apply list_elem_of_further.
  - symmetry. rewrite Z.geb_leb. apply Z.leb_gt. apply (H g e), list_elem_of_here.
Qed.

Lemma sweep_noop (w : world) :
  (forall f e, UPLOAD_EXPIRY w !! f = Some e -> now < e) ->
  (forall f e, RESULT_EXPIRY w !! f = Some e -> now < e) ->
  sweep now rm w = w.
Proof.
  intros Hu Hr. unfold sweep. rewrite sweep_upload_noop.
  - apply sweep_result_noop. intros f e Hin. apply (Hr f e).
    now apply elem_of_map_to_list.
  - intros f e Hin. apply (Hu f e). now apply elem_of_map_to_list.
Qed.

End SweepEffect.

Lemma later_than_now_future (now : Z) (m : gmap pystr Z) (f : pystr) (e : Z) :
  later_than_now now m !! f = Some e -> m !! f = Some e /\ now < e.
Proof.
  rewrite later_than_now_lookup. destruct (m !! f) as [e'|]; [|discriminate].
  case_bool_decide; [|discriminate]. now intros [= <-].
Qed.

(** One round of [cleaner_loop] at time [now] leaves in each ledger
    exactly the entries whose expiry is later than [now], whatever the
    operating system does with the files. *)
Theorem sweep_keeps_future_entries_only
    (now : Z) (rm : folder -> pystr -> bool) (w : world) :
  UPLOAD_EXPIRY (sweep now rm w) = filter (fun kv => now < kv.2) (UPLOAD_EXPIRY w) /\
  RESULT_EXPIRY (sweep now rm w) = filter (fun kv => now < kv.2) (RESULT_EXPIRY w).
Proof. apply sweep_ledgers_eq. Qed.

(** One round of [cleaner_loop] removes a file exactly when the file has
    an entry in the ledger of its folder that has expired and the
    operating system carries out the removal: a file is in a folder after
    the round exactly when it was there before and was not removed so.
    Files without an entry and files whose entry lies in the future stay. *)
Theorem sweep_removes_expired_files_only
    (now : Z) (rm : folder -> pystr -> bool) (w : world) (f : pystr) :
  (f ∈ upload_files (sweep now rm w) <->
   f ∈ upload_files w /\
   ~ (exists e, UPLOAD_EXPIRY w !! f = Some e /\ e <= now /\ rm UPLOAD_FOLDER f = true)) /\
  (f ∈ output_files (sweep now rm w) <->
   f ∈ output_files w /\
   ~ (exists e, RESULT_EXPIRY w !! f = Some e /\ e <= now /\ rm OUTPUT_FOLDER f = true)).
Proof. apply sweep_files_iff. Qed.

(** A round of the cleaner that follows another round, at the same
    instant or an earlier one (the clock may step back), changes nothing
    at all: rounds are idempotent. *)
Theorem sweep_again_changes_nothing
    (now now' : Z) (rm rm' : folder -> pystr -> bool) (w : world) :
  now' <= now ->
  sweep now' rm' (sweep now rm w) = sweep now rm w.
Proof.
  intros Hle. destruct (sweep_ledgers_eq now rm w) as [Hu Hr].
  apply sweep_noop.
  - intros f e He. rewrite Hu in He. apply later_than_now_future in He. lia.
  - intros f e He. rewrite Hr in He. apply later_than_now_future in He. lia.
Qed.

Lemma sweep_again_changes_nothing_witness :
  sweep 1200 rm_never (sweep 1260 rm_always world_with_report)
  = sweep 1260 rm_always world_with_report.
Proof.
  apply (sweep_again_changes_nothing 1260 1200 rm_always rm_never world_with_report).
  lia.
Defined.

(* ------------------------------------------------------------------ *)
(** ** The ledger across a restart *)

(** Writing the ledger, restarting the process and loading the ledger at
    time [now] gives back exactly the entries that are not zero and lie
    later than [now], with their expiries, in both dictionaries; the
    folders are as before and the job state starts afresh. When the write
    left the file unreadable, both dictionaries come back empty. *)
Theorem ledger_round_trip (w : world) (now : Z) (f : pystr) (e : Z) :
  let w' := load_expiries now (restart (save_expiries Written w)) in
  (UPLOAD_EXPIRY w' !! f = Some e <-> UPLOAD_EXPIRY w !! f = Some e /\ e <> 0 /\ now < e) /\
  (RESULT_EXPIRY w' !! f = Some e <-> RESULT_EXPIRY w !! f = Some e /\ e <> 0 /\ now < e) /\
  upload_files w' = upload_files w /\
  output_files w' = output_files w /\
  STATE w' = initial_state /\
  UPLOAD_EXPIRY (load_expiries now (restart (save_expiries Spoiled w))) = ∅ /\
  RESULT_EXPIRY (load_expiries now (restart (save_expiries Spoiled w))) = ∅.
Proof.
  cbn. rewrite !still_future_lookup. split_and!; reflexivity.
Qed.

(* ------------------------------------------------------------------ *)
(** ** The text area of a manual correction *)

Import Forms.

Example splitlines_examples :
  splitlines (lit "a" ++ [newline]) = [lit "a"] /\
  splitlines [newline; newline] = [[]; []] /\
  splitlines (lit "a" ++ [ascii_of_N 13; newline] ++ lit "b") = [lit "a"; lit "b"] /\
  splitlines (lit "a" ++ [newline; ascii_of_N 13] ++ lit "b") = [lit "a"; []; lit "b"] /\
  split comma (lit "a,b,") = [lit "a"; lit "b"; []] /\
  split comma [] = [[]].
Proof. split_and!; vm_compute; reflexivity. Qed.

Lemma split_nonempty (sep : ascii) (s : pystr) : split sep s <> [].
Proof.
  induction s as [|c s IH]; cbn; [discriminate|].
  destruct (Ascii.eqb c sep); [discriminate|].
  destruct (split sep s); [contradiction|discriminate].
Qed.

Lemma split_part (sep : ascii) (p rest : pystr) :
  Forall (fun c => c <> sep) p ->
  split sep (p ++ sep :: rest) = p :: split sep rest.
Proof.
  induction 1 as [|c p Hc Hp IH]; cbn.
  - now rewrite Ascii.eqb_refl.
  - rewrite IH. apply Ascii.eqb_neq in Hc. now rewrite Hc.
Qed.

Lemma split_last_part (sep : ascii) (p : pystr) :
  Forall (fun c => c <> sep) p -> split sep p = [p].
Proof.
  induction 1 as [|c p Hc Hp IH]; cbn; [reflexivity|].
  rewrite IH. apply Ascii.eqb_neq in Hc. now rewrite Hc.
Qed.

Lemma splitlines_line (l rest : pystr) :
  Forall (fun c => is_linebreak c = false) l ->
  splitlines (l ++ newline :: rest) = l :: splitlines rest.
Proof.
  induction 1 as [|c l Hc Hl IH].
  - reflexivity.
  - cbn [app splitlines]. now rewrite Hc, IH.
Qed.

Lemma splitlines_last_line (l : pystr) :
  Forall (fun c => is_linebreak c = false) l -> l <> [] ->
  splitlines l = [l].
Proof.
  induction 1 as [|c l Hc Hl IH]; intros Hne; [contradiction|].
  cbn [splitlines]. rewrite Hc. destruct l as [|d l]; [reflexivity|].
  now rewrite IH.
Qed.

Lemma splitlines_join (lines : list pystr) :
  Forall (fun l => Forall (fun c => is_linebreak c = false) l /\ l <> []) lines ->
  splitlines (join [newline] lines) = lines.
Proof.
  induction 1 as [|l lines [Hl Hne] Hrest IH]; [reflexivity|].
  destruct lines as [|l' lines].
  - cbn. now apply splitlines_last_line.
  - change (join [newline] (l :: l' :: lines))
      with (l ++ newline :: join [newline] (l' :: lines)).
    now rewrite splitlines_line, IH.
Qed.

Lemma add_line_entry (marks : gmap pystr pystr) (line : pystr) :
  add_line marks line
  = match line_entry line with
    | Some (c, v) => <[c := v]> marks
    | None => marks
    end.
Proof.
  unfold add_line, line_entry.
  destruct (line_parts line) as [|p0 [|p1 [|p2 [|p3 ps]]]]; reflexivity.
Qed.

Lemma length_split (sep : ascii) (s : pystr) :
  length (split sep s) = S (length (List.filter (fun c => Ascii.eqb c sep) s)).
Proof.
  induction s as [|c s IH]; [reflexivity|]. cbn.
  destruct (Ascii.eqb c sep); cbn; [now rewrite IH|].
  destruct (split sep s) as [|p ps] eqn:E; [now apply split_nonempty in E|].
  exact IH.
Qed.

Lemma line_entry_few_parts (line : pystr) :
  (length (List.filter (fun c => Ascii.eqb c comma) line) < 3)%nat ->
  line_entry line = None.
Proof.
  intros H. unfold line_entry.
  assert (Hlen : (length (line_parts line) < 4)%nat).
  { unfold line_parts. rewrite length_fmap, length_split. lia. }
  destruct (line_parts line) as [|p0 [|p1 [|p2 [|p3 ps]]]]; try reflexivity.
  cbn in Hlen. lia.
Qed.

Lemma fold_add_line_origin (lines : list pystr) (m : gmap pystr pystr) (c v : pystr) :
  fold_left add_line lines m !! c = Some v ->
  m !! c = Some v \/ exists line, line ∈ lines /\ line_entry line = Some (c, v).
Proof.
  revert m. induction lines as [|l lines IH]; intros m H; [now left|].
  cbn [fold_left] in H. apply IH in H as [H|(line & Hin & Hl)].
  - rewrite add_line_entry in H. destruct (line_entry l) as [[c' v']|] eqn:E.
    + destruct (decide (c' = c)) as [->|Hne].
      * rewrite lookup_insert_eq in H. injection H as ->.
        right. exists l. split; [apply list_elem_of_here|exact E].
      * rewrite lookup_insert_ne in H by exact Hne. now left.
    + now left.
  - right. exists line. split; [now apply list_elem_of_further|exact Hl].
Qed.

Lemma fold_add_line_keeps (lines : list pystr) (m : gmap pystr pystr) (c : pystr) :
  (forall l v, l ∈ lines -> line_entry l <> Some (c, v)) ->
  fold_left add_line lines m !! c = m !! c.
Proof.
  revert m. induction lines as [|l lines IH]; intros m H; [reflexivity|].
  cbn [fold_left]. rewrite IH.
  - rewrite add_line_entry. destruct (line_entry l) as [[c' v']|] eqn:E; [|reflexivity].
    apply lookup_insert_ne. intros ->. apply (H l v'); [apply list_elem_of_here|exact E].
  - intros l' v' Hin. apply H. now apply list_elem_of_further.
Qed.

Lemma fold_add_line_last (before after : list pystr) (line c v : pystr)
    (m : gmap pystr pystr) :
  line_entry line = Some (c, v) ->
  (forall l v', l ∈ after -> line_entry l <> Some (c, v')) ->
  fold_left add_line (before ++ line :: after) m !! c = Some v.
Proof.
  intros Hl Hafter. rewrite fold_left_app. cbn [fold_left].
  rewrite fold_add_line_keeps by exact Hafter.
  rewrite add_line_entry, Hl. apply lookup_insert_eq.
Qed.

(** Every mark [failed_submit] reads from the text area comes from a
    line of at least four comma-separated parts, whose first part,
    stripped, is the subject and whose fourth part, stripped, is the
    mark; when every line has fewer than three commas nothing is read. *)
Theorem manual_marks_come_from_lines (manual : pystr) :
  (forall c v, parse_manual_marks manual !! c = Some v ->
     exists line p0 p1 p2 p3 more,
       line ∈ splitlines manual /\
       split comma line = p0 :: p1 :: p2 :: p3 :: more /\
       c = strip p0 /\ v = strip p3) /\
  ((forall line, line ∈ splitlines manual ->
      (length (List.filter (fun c => Ascii.eqb c comma) line) < 3)%nat) ->
   parse_manual_marks manual = ∅).
Proof.
  split.
  - intros c v H. apply fold_add_line_origin in H as [H|(line & Hin & Hl)].
    + rewrite lookup_empty in H. discriminate.
    + unfold line_entry, line_parts in Hl.
      destruct (split comma line) as [|p0 [|p1 [|p2 [|p3 more]]]] eqn:E;
        try discriminate.
      cbn [fmap list_fmap] in Hl. injection Hl as <- <-.
      exists line, p0, p1, p2, p3, more. now split_and!.
  - intros Hfew. apply map_empty. intros c.
    apply eq_None_not_Some. intros [v H].
    apply fold_add_line_origin in H as [H|(line & Hin & Hl)].
    + rewrite lookup_empty in H. discriminate.
    + rewrite line_entry_few_parts in Hl by now apply Hfew. discriminate.
Qed.

(** When several lines of the text area name the same subject, the last
    of them gives the mark. *)
Theorem manual_marks_last_line_wins
    (manual : pystr) (before after : list pystr) (line c v : pystr) :
  splitlines manual = before ++ line :: after ->
  line_entry line = Some (c, v) ->
  (forall l v', l ∈ after -> line_entry l <> Some (c, v')) ->
  parse_manual_marks manual !! c = Some v.
Proof.
  intros Hsplit Hl Hafter. unfold parse_manual_marks. rewrite Hsplit.
  now apply fold_add_line_last.
Qed.

Lemma manual_marks_last_line_wins_witness :
  parse_manual_marks (lit "CS-CS-101, Algorithms, 100, 35" ++ [newline]
                      ++ lit "oops" ++ [ascii_of_N 13; newline]
                      ++ lit " CS-CS-101 ,Algorithms,100, 53 ,checked")
    !! lit "CS-CS-101"
  = Some (lit "53").
Proof.
  apply (manual_marks_last_line_wins _
           [lit "CS-CS-101, Algorithms, 100, 35"; lit "oops"] []
           (lit " CS-CS-101 ,Algorithms,100, 53 ,checked")).
  - vm_compute. reflexivity.
  - vm_compute. reflexivity.
  - intros l v' Hin. inversion Hin.
Defined.

Lemma plain_no_break (s : pystr) :
  plain_field s -> Forall (fun c => is_linebreak c = false) s.
Proof. intros H. eapply Forall_impl; [exact H|]. cbn. tauto. Qed.

Lemma plain_no_comma (s : pystr) :
  plain_field s -> Forall (fun c => c <> comma) s.
Proof. intros H. eapply Forall_impl; [exact H|]. cbn. tauto. Qed.

Lemma line_entry_render (c n t o : pystr) :
  plain_record (c, n, t, o) ->
  line_entry (render_line (c, n, t, o)) = Some (strip c, strip o).
Proof.
  intros (Hc & Hn & Ht & Ho). unfold line_entry, line_parts, render_line.
  cbn [app].
  rewrite !split_part, split_last_part by now apply plain_no_comma.
  reflexivity.
Qed.

Lemma render_line_is_line (rec : pystr * pystr * pystr * pystr) :
  plain_record rec ->
  Forall (fun c => is_linebreak c = false) (render_line rec) /\ render_line rec <> [].
Proof.
  destruct rec as [[[c n] t] o]. intros (Hc & Hn & Ht & Ho).
  unfold render_line. split.
  - repeat (apply Forall_app; split); try (now apply plain_no_break);
      now repeat constructor.
  - destruct c; discriminate.
Qed.

(** The text area round trip: when the lines are written as the page
    asks for them, [CODE,NAME,TOTAL,OBTAINED] with fields free of commas
    and line boundaries, one per line, the marks read back give every
    subject the obtained mark of its last line, both stripped. *)
Theorem manual_marks_round_trip
    (before after : list (pystr * pystr * pystr * pystr)) (c n t o : pystr) :
  Forall plain_record (before ++ (c, n, t, o) :: after) ->
  (forall c' n' t' o', (c', n', t', o') ∈ after -> strip c' <> strip c) ->
  parse_manual_marks
    (join [newline] (render_line <$> (before ++ (c, n, t, o) :: after))) !! strip c
  = Some (strip o).
Proof.
  intros Hplain Hafter. unfold parse_manual_marks.
  rewrite splitlines_join.
  - rewrite fmap_app, fmap_cons. apply fold_add_line_last.
    + apply line_entry_render.
      apply Forall_app in Hplain as [_ Hp]. now inversion Hp.
    + intros l v' Hin Hl. apply list_elem_of_fmap in Hin as ([[[c' n'] t'] o'] & -> & Hin).
      rewrite line_entry_render in Hl.
      * injection Hl as Hc _. now apply (Hafter c' n' t' o').
      * apply Forall_app in Hplain as [_ Hp]. inversion Hp as [|? ? _ Hp']. subst.
        rewrite Forall_forall in Hp'. now apply Hp'.
  - apply Forall_fmap. eapply Forall_impl; [exact Hplain|].
    intros rec Hrec. now apply render_line_is_line.
Qed.

Lemma manual_marks_round_trip_witness :
  parse_manual_marks (lit "CS-CS-102,Logic,100,71" ++ [newline]
                      ++ lit "CS-CS-101 ,Algorithms,100, 53 ")
    !! lit "CS-CS-101"
  = Some (lit "53").
Proof.
  apply (manual_marks_round_trip
           [(lit "CS-CS-102", lit "Logic", lit "100", lit "71")] []
           (lit "CS-CS-101 ") (lit "Algorithms") (lit "100") (lit " 53 ")).
  - refine (by_decide _ _). vm_compute. reflexivity.
  - intros c' n' t' o' Hin. inversion Hin.
Defined.

(* ------------------------------------------------------------------ *)
(** ** The form of the subject names and totals *)

Lemma startswith_spec (p s : pystr) :
  startswith p s = true <-> exists rest, s = p ++ rest.
Proof.
  revert s. induction p as [|a p IH]; intros s; cbn.
  - split; [intros _; now exists s|reflexivity].
  - destruct s as [|b s]; cbn.
    + split; [discriminate|intros [rest H]; discriminate].
    + rewrite andb_true_iff, Ascii.eqb_eq, IH. split.
      * intros [-> [rest ->]]. now exists rest.
      * intros [rest [= -> ->]]. split; [reflexivity|now exists rest].
Qed.

Lemma startswith_code (key : pystr) :
  startswith (lit "code_") key = true <-> key = lit "code_" ++ drop 5 key.
Proof.
  rewrite startswith_spec. split.
  - intros [rest ->]. reflexivity.
  - intros H. now exists (drop 5 key).
Qed.

Lemma add_subject_lookup (form : gmap pystr pystr) (key val : pystr)
    (info : gmap pystr subject) (code : pystr) :
  (startswith (lit "code_") key = true -> info !! drop 5 key = None) ->
  add_subject form key val info !! code
  = if bool_decide (key = lit "code_" ++ code) then subject_entry form code val
    else info !! code.
Proof.
  intros Hfresh. unfold add_subject.
  destruct (startswith (lit "code_") key) eqn:Hs.
  - specialize (Hfresh eq_refl). apply startswith_code in Hs. case_bool_decide as Hk.
    + assert (Hc : drop 5 key = code) by now rewrite Hk.
      rewrite Hc in *. unfold subject_entry.
      destruct (strip val) as [|c name]; [exact Hfresh|].
      destruct (int_of_str _) as [total|]; [|exact Hfresh].
      destruct (total =? 0); [exact Hfresh|]. apply lookup_insert_eq.
    + assert (Hc : drop 5 key <> code) by (intros <-; now apply Hk).
      destruct (strip val) as [|c name]; [reflexivity|].
      destruct (int_of_str _) as [total|]; [|reflexivity].
      destruct (total =? 0); [reflexivity|]. now apply lookup_insert_ne.
  - case_bool_decide as Hk; [|reflexivity].
    rewrite Hk in Hs. discriminate Hs.
Qed.

Lemma parse_subject_info_lookup (form : gmap pystr pystr) (code : pystr) :
  parse_subject_info form !! code
  = form !! (lit "code_" ++ code) ≫= subject_entry form code.
Proof.
  unfold parse_subject_info.
  generalize (add_subject_lookup form). generalize (add_subject form) as f.
  generalize (subject_entry form) as g. intros g f Hf. revert code.
  apply (map_fold_weak_ind
           (fun acc m => forall code, acc !! code = m !! (lit "code_" ++ code) ≫= g code)).
  - intros code. now rewrite !lookup_empty.
  - intros key val m acc Hnone IH code. rewrite Hf.
    + case_bool_decide as Hk.
      * subst key. now rewrite lookup_insert_eq.
      * rewrite lookup_insert_ne by exact Hk. apply IH.
    + intros Hs. apply startswith_code in Hs. rewrite IH, <- Hs, Hnone. reflexivity.
Qed.

(** [detailed_submit] reads the subject [code] from the two fields
    [code_<code>] and [total_<code>] alone, whatever else the form holds
    and in whatever order: the entry is there exactly when the name is
    not blank and the total is an integer other than 0, and it holds the
    stripped name and that integer. No entry has an empty name or the
    total 0, which the grade analysis divides by. *)
Theorem subject_info_reads_two_fields (form : gmap pystr pystr) (code : pystr) :
  parse_subject_info form !! code
  = match form !! (lit "code_" ++ code) with
    | Some val =>
        match strip val,
              int_of_str (strip (default [] (form !! (lit "total_" ++ code)))) with
        | _ :: _, Some total =>
            if total =? 0 then None
            else Some {| subject_name := strip val; total_marks := total |}
        | _, _ => None
        end
    | None => None
    end /\
  (forall s, parse_subject_info form !! code = Some s ->
     subject_name s <> [] /\ total_marks s <> 0 /\
     exists tv, form !! (lit "total_" ++ code) = Some tv /\
                int_of_str (strip tv) = Some (total_marks s)).
Proof.
  rewrite parse_subject_info_lookup. unfold subject_entry. split.
  - now destruct (form !! (lit "code_" ++ code)).
  - intros s. destruct (form !! (lit "code_" ++ code)) as [val|]; [|discriminate].
    cbn [mbind option_bind].
    destruct (strip val) as [|c name]; [discriminate|].
    destruct (form !! (lit "total_" ++ code)) as [tv|]; cbn [default id].
    + destruct (int_of_str (strip tv)) as [total|] eqn:E; [|discriminate].
      destruct (total =? 0) eqn:Hz; [discriminate|]. intros [= <-]. cbn.
      split_and!; [discriminate|now apply Z.eqb_neq|now exists tv].
    + assert (E : int_of_str (strip []) = None) by reflexivity.
      rewrite E. discriminate.
Qed.

(* ------------------------------------------------------------------ *)
(** ** Downloading the report *)

Lemma in_range_bool (idx : Z) (n : nat) :
  0 <= idx < Z.of_nat n -> (idx <? 0) || (Z.of_nat n <=? idx) = false.
Proof.
  intros H. apply orb_false_iff. split; [apply Z.ltb_ge|apply Z.leb_gt]; lia.
Qed.

Lemma download_results_pointer (accept f : pystr) (w : world) :
  filename (STATE w) = Some f -> f <> [] -> f ∈ output_files w ->
  download_results accept w = SendFile f.
Proof.
  intros Hp Hne Hin. unfold download_results. rewrite Hp.
  destruct f as [|c f]; [contradiction|]. now rewrite bool_decide_eq_true_2.
Qed.

Lemma save_results_nonempty (rs : list result) (f : pystr) (w : world) :
  rs <> [] ->
  save_results_to_excel true rs f w
  = Some (with_output_files ({[f]} ∪ output_files w) w).
Proof. destruct rs; [contradiction|reflexivity]. Qed.

Lemma output_files_set_result_expiry (f : pystr) (ttl now : Z) (io : io_outcome)
    (w : world) :
  output_files (set_result_expiry f ttl now io w) = output_files w.
Proof. now destruct io. Qed.

(** After a manual correction of a record that exists, with the report
    written, [download_results] sends the report the correction wrote,
    [Dashboard_Results_<timestamp>.xlsx]; the same holds after
    [detailed_submit] when there is at least one result. *)
Theorem download_serves_regenerated_report
    (idx : Z) (manual : option pystr) (ts accept : pystr) (now : Z)
    (io : io_outcome) (w : world) :
  0 <= idx < Z.of_nat (length (results (STATE w))) ->
  download_results accept (failed_submit_request idx manual ts now true io w)
  = SendFile (lit "Dashboard_Results_" ++ ts ++ lit ".xlsx") /\
  download_results accept (detailed_submit ts now true io w)
  = SendFile (lit "Dashboard_Results_" ++ ts ++ lit ".xlsx").
Proof.
  intros Hidx. split.
  - unfold failed_submit_request, failed_submit. rewrite in_range_bool by exact Hidx.
    rewrite save_results_nonempty.
    + apply download_results_pointer; [reflexivity|discriminate|].
      cbn. rewrite output_files_set_result_expiry. cbn.
      apply elem_of_union_l. now apply elem_of_singleton.
    + cbn. intros Hnil. apply (f_equal length) in Hnil.
      rewrite length_alter in Hnil. cbn in Hnil. lia.
  - unfold detailed_submit. rewrite save_results_nonempty.
    + apply download_results_pointer; [reflexivity|discriminate|].
      cbn. rewrite output_files_set_result_expiry. cbn.
      apply elem_of_union_l. now apply elem_of_singleton.
    + intros Hnil. rewrite Hnil in Hidx. cbn in Hidx. lia.
Qed.

Lemma download_serves_regenerated_report_witness :
  let w := (run_actions two_student_run start).2 in
  download_results [] (failed_submit_request 1 None (lit "20250101_130000") 3000 true
                         Written w)
  = SendFile (lit "Dashboard_Results_20250101_130000.xlsx") /\
  download_results [] (detailed_submit (lit "20250101_130000") 3000 true Written w)
  = SendFile (lit "Dashboard_Results_20250101_130000.xlsx").
Proof.
  intros w.
  apply (download_serves_regenerated_report 1 None (lit "20250101_130000") [] 3000
           Written w).
  split; [lia|]. apply Z.ltb_lt. vm_compute. reflexivity.
Defined.

(** Once a round of the cleaner has found the current report expired,
    [download_results] answers 404 with "no results", whether or not the
    file could be removed from the folder. *)
Theorem download_after_eviction_is_refused
    (accept f : pystr) (e now : Z) (rm : folder -> pystr -> bool) (w : world) :
  filename (STATE w) = Some f ->
  RESULT_EXPIRY w !! f = Some e -> e <= now ->
  download_results accept (sweep now rm w)
  = if contains (lit "application/json") (lower accept) then NoResultsJson
    else NoResultsText.
Proof.
  intros Hp He Hle.
  destruct (sweep_expired now rm w f e He Hle) as (_ & Hne & _).
  unfold download_results.
  destruct (filename (STATE (sweep now rm w))) as [g|] eqn:Hg; [|reflexivity].
  exfalso. apply Hne.
  destruct (sweep_only_removes now rm w g) as (_ & Hfrom & _).
  specialize (Hfrom Hg). congruence.
Qed.

Lemma download_after_eviction_is_refused_witness :
  download_results (lit "Application/JSON") (sweep 1200 rm_never world_with_report)
  = NoResultsJson.
Proof.
  apply (download_after_eviction_is_refused (lit "Application/JSON") report 1200 1200
           rm_never world_with_report).
  - reflexivity.
  - apply eq_by_decide. vm_compute. reflexivity.
  - lia.
Defined.

(** [detailed_submit] with no results writes no file, since
    [save_results_to_excel] returns at once, and still registers the
    name and points the download at it: unless a file of that name was
    there before, [download_results] then finds no file. *)
Theorem detailed_submit_without_results_points_at_no_file
    (ts accept : pystr) (now : Z) (ok : bool) (io : io_outcome) (w : world) :
  results (STATE w) = [] ->
  lit "Dashboard_Results_" ++ ts ++ lit ".xlsx" ∉ output_files w ->
  let w' := detailed_submit ts now ok io w in
  output_files w' = output_files w /\
  RESULT_EXPIRY w' !! (lit "Dashboard_Results_" ++ ts ++ lit ".xlsx")
  = Some (now + 20 * 60) /\
  download_results accept w' = FileMissing (lit "Dashboard_Results_" ++ ts ++ lit ".xlsx").
Proof.
  intros Hnil Hfresh w'. subst w'. unfold detailed_submit. rewrite Hnil.
  cbn [save_results_to_excel]. split_and!.
  - cbn. apply output_files_set_result_expiry.
  - cbn. destruct io; cbn; apply lookup_insert_eq.
  - unfold download_results. cbn.
    rewrite output_files_set_result_expiry. now rewrite bool_decide_eq_false_2.
Qed.

Lemma detailed_submit_without_results_points_at_no_file_witness :
  download_results [] (detailed_submit (lit "20250101_130000") 3000 true Written
                         initial_world)
  = FileMissing (lit "Dashboard_Results_20250101_130000.xlsx").
Proof.
  apply (detailed_submit_without_results_points_at_no_file (lit "20250101_130000") []
           3000 true Written initial_world).
  - reflexivity.
  - apply not_elem_of_empty.
Defined.

(** The page of a failed record shows, after a manual correction of that
    record, the corrected record; both handlers answer 404 for the same
    indices. *)
Lemma failed_detail_shows_correction
    (idx : Z) (m : gmap pystr pystr) (ts : pystr) (now : Z) (ok : bool)
    (io : io_outcome) (w : world) :
  failed_detail idx (failed_submit idx m ts now ok io w)
  = correct_result m <$> failed_detail idx w.
Proof.
  unfold failed_detail. rewrite results_failed_submit.
  destruct ((idx <? 0) || (Z.of_nat (length (results (STATE w))) <=? idx)) eqn:E.
  - now rewrite E.
  - rewrite length_alter, E. rewrite list_lookup_alter. now rewrite decide_True.
Qed.

(* ------------------------------------------------------------------ *)
(** ** The browser steps of one lookup *)

Import Navigation MoreSamples.

Lemma require_inr (e : element) (msg : string) (u : unit) :
  require e msg = inr u <-> responds e.
Proof.
  unfold responds. destruct e as [|[fault|]]; cbn; destruct u;
    split; intros H; try discriminate; reflexivity.
Qed.

Lemma confirm_inr (b : browser) (u : unit) :
  confirm b = inr u <-> confirm_passes b.
Proof.
  unfold confirm, confirm_passes, responds, harmless.
  destruct (confirm_img b) as [|[f1|]], (confirm_cmd b) as [|[f2|]]; cbn; destruct u;
    split; intros H; try discriminate; try reflexivity; try tauto;
    destruct H as [H|[H1 [H2|H2]]]; discriminate.
Qed.

(** A lookup ends with the status 'Success' exactly when the two inputs,
    the submit button and the view link are found and respond, and the
    confirm step raises nothing, which it also does when neither confirm
    button appears; the marks are then those extracted from the result
    page. *)
Theorem lookup_succeeds_iff (b : browser) (st : student) :
  (status (lookup_student b st) = lit "Success" <->
   responds (roll_input b) /\ responds (reg_input b) /\ responds (submit_btn b) /\
   confirm_passes b /\ responds (view_link b)) /\
  (status (lookup_student b st) = lit "Success" ->
   marks (lookup_student b st) = Extractor.extract_data_from_page (page_source b)).
Proof.
  unfold lookup_student, navigate, steps.
  destruct (require (roll_input b) _) as [m1|[]] eqn:E1.
  { cbn. split; [split; [discriminate|]|discriminate].
    intros (H & _). unfold responds in H. rewrite H in *. discriminate. }
  destruct (require (reg_input b) _) as [m2|[]] eqn:E2.
  { cbn. split; [split; [discriminate|]|discriminate].
    intros (_ & H & _). unfold responds in H. rewrite H in *. discriminate. }
  destruct (require (submit_btn b) _) as [m3|[]] eqn:E3.
  { cbn. split; [split; [discriminate|]|discriminate].
    intros (_ & _ & H & _). unfold responds in H. rewrite H in *. discriminate. }
  destruct (confirm b) as [m4|[]] eqn:E4.
  { cbn. split; [split; [discriminate|]|discriminate].
    intros (_ & _ & _ & H & _). apply (confirm_inr _ tt) in H. congruence. }
  destruct (require (view_link b) _) as [m5|[]] eqn:E5.
  { cbn. split; [split; [discriminate|]|discriminate].
    intros (_ & _ & _ & _ & H). unfold responds in H. rewrite H in *. discriminate. }
  cbn. split; [|reflexivity]. split; [intros _|reflexivity].
  apply require_inr in E1, E2, E3, E5. apply confirm_inr in E4. now split_and!.
Qed.

Lemma lookup_succeeds_iff_witness :
  status (lookup_student plain_browser alice) = lit "Success" /\
  marks (lookup_student plain_browser alice) !! lit "CS-CS-101" = Some (lit "85").
Proof.
  assert (H : status (lookup_student plain_browser alice) = lit "Success").
  { apply (proj1 (lookup_succeeds_iff plain_browser alice)).
    unfold responds, confirm_passes, harmless. cbn. tauto. }
  split; [exact H|].
  rewrite (proj2 (lookup_succeeds_iff plain_browser alice) H).
  vm_compute. reflexivity.
Defined.

Lemma steps_raised (b : browser) (st : student) (msg : pystr) :
  steps b = inl msg ->
  lookup_student b st
  = {| r_name := name st; r_roll := roll st; r_reg := reg st;
       status := lit "Failed: " ++ msg; marks := ∅ |}.
Proof. intros H. unfold lookup_student, navigate. now rewrite H. Qed.

(** A lookup that fails reports the first control that was not found:
    the roll input, then the registration input, then the submit button,
    then, the confirm step passed, the view link; a control that is found
    and raises when used gives the message of its exception, be it the
    roll input, the registration input, the submit button, the first
    confirm button, the second confirm button (looked for when the first
    is not there) or the view link, the controls before it having
    responded. The record of a failed lookup has no marks and names the
    student asked for. *)
Theorem lookup_failure_names_first_missing_control (b : browser) (st : student) :
  (roll_input b = Missing ->
   status (lookup_student b st) = lit "Failed: Roll input not found") /\
  (responds (roll_input b) -> reg_input b = Missing ->
   status (lookup_student b st) = lit "Failed: Registration input not found") /\
  (responds (roll_input b) -> responds (reg_input b) -> submit_btn b = Missing ->
   status (lookup_student b st) = lit "Failed: Submit button not found") /\
  (responds (roll_input b) -> responds (reg_input b) -> responds (submit_btn b) ->
   confirm_passes b -> view_link b = Missing ->
   status (lookup_student b st) = lit "Failed: View link not found") /\
  (forall fault, roll_input b = Present (Some fault) ->
   status (lookup_student b st) = lit "Failed: " ++ fault) /\
  (forall fault, responds (roll_input b) -> reg_input b = Present (Some fault) ->
   status (lookup_student b st) = lit "Failed: " ++ fault) /\
  (forall fault, responds (roll_input b) -> responds (reg_input b) ->
   submit_btn b = Present (Some fault) ->
   status (lookup_student b st) = lit "Failed: " ++ fault) /\
  (forall fault, responds (roll_input b) -> responds (reg_input b) ->
   responds (submit_btn b) -> confirm_img b = Present (Some fault) ->
   status (lookup_student b st) = lit "Failed: " ++ fault) /\
  (forall fault, responds (roll_input b) -> responds (reg_input b) ->
   responds (submit_btn b) -> confirm_img b = Missing ->
   confirm_cmd b = Present (Some fault) ->
   status (lookup_student b st) = lit "Failed: " ++ fault) /\
  (forall fault, responds (roll_input b) -> responds (reg_input b) ->
   responds (submit_btn b) -> confirm_passes b ->
   view_link b = Present (Some fault) ->
   status (lookup_student b st) = lit "Failed: " ++ fault) /\
  (status (lookup_student b st) <> lit "Success" ->
   marks (lookup_student b st) = ∅) /\
  r_name (lookup_student b st) = name st /\
  r_roll (lookup_student b st) = roll st /\
  r_reg (lookup_student b st) = reg st.
Proof.
  unfold responds. split_and!.
  - intros H. rewrite (steps_raised b st (lit "Roll input not found")); [reflexivity|].
    unfold steps. now rewrite H.
  - intros H1 H2.
    rewrite (steps_raised b st (lit "Registration input not found")); [reflexivity|].
    unfold steps. now rewrite H1, H2.
  - intros H1 H2 H3.
    rewrite (steps_raised b st (lit "Submit button not found")); [reflexivity|].
    unfold steps. now rewrite H1, H2, H3.
  - intros H1 H2 H3 H4 H5.
    rewrite (steps_raised b st (lit "View link not found")); [reflexivity|].
    unfold steps. apply (confirm_inr b tt) in H4. now rewrite H1, H2, H3, H4, H5.
  - intros fault H. rewrite (steps_raised b st fault); [reflexivity|].
    unfold steps. now rewrite H.
  - intros fault H1 H2. rewrite (steps_raised b st fault); [reflexivity|].
    unfold steps. now rewrite H1, H2.
  - intros fault H1 H2 H3. rewrite (steps_raised b st fault); [reflexivity|].
    unfold steps. now rewrite H1, H2, H3.
  - intros fault H1 H2 H3 H4. rewrite (steps_raised b st fault); [reflexivity|].
    unfold steps, confirm. now rewrite H1, H2, H3, H4.
  - intros fault H1 H2 H3 H4 H5. rewrite (steps_raised b st fault); [reflexivity|].
    unfold steps, confirm. now rewrite H1, H2, H3, H4, H5.
  - intros fault H1 H2 H3 H4 H5. rewrite (steps_raised b st fault); [reflexivity|].
    unfold steps. apply (confirm_inr b tt) in H4. now rewrite H1, H2, H3, H4, H5.
  - unfold lookup_student, navigate. destruct (steps b); [reflexivity|].
    intros H. now contradiction H.
  - unfold lookup_student. now destruct (navigate b).
  - unfold lookup_student. now destruct (navigate b).
  - unfold lookup_student. now destruct (navigate b).
Qed.

Lemma lookup_failure_names_first_missing_control_witness :
  status (lookup_student browser_without_view bob) = lit "Failed: View link not found" /\
  status (lookup_student
            (with_confirm Missing (Present (Some (lit "stale element"))) plain_browser)
            bob)
  = lit "Failed: stale element".
Proof.
  split.
  - apply (proj1 (proj2 (proj2 (proj2
             (lookup_failure_names_first_missing_control browser_without_view bob)))));
      unfold responds, confirm_passes, harmless; cbn; tauto.
  - apply (proj1 (proj2 (proj2 (proj2 (proj2 (proj2 (proj2 (proj2 (proj2
             (lookup_failure_names_first_missing_control
                (with_confirm Missing (Present (Some (lit "stale element"))) plain_browser)
                bob))))))))));
      unfold responds; reflexivity.
Defined.

Lemma steps_with_confirm (img cmd : element) (b : browser) :
  steps (with_confirm img cmd b)
  = (require (roll_input b) "Roll input not found";;
     require (reg_input b) "Registration input not found";;
     require (submit_btn b) "Submit button not found";;
     confirm (with_confirm img cmd b);;
     require (view_link b) "View link not found").
Proof. reflexivity. Qed.

(** The confirm step is optional: whether a confirm button appears and
    responds or none appears makes no difference to the record of the
    lookup; and the second button, [cmdconfirm], is not even looked for
    when the first, [imgComfirm], is found. *)
Theorem confirm_buttons_are_optional
    (b : browser) (st : student) (img cmd img' cmd' : element) :
  (confirm_passes (with_confirm img cmd b) ->
   confirm_passes (with_confirm img' cmd' b) ->
   lookup_student (with_confirm img cmd b) st
   = lookup_student (with_confirm img' cmd' b) st) /\
  (img <> Missing ->
   lookup_student (with_confirm img cmd b) st
   = lookup_student (with_confirm img cmd' b) st).
Proof.
  unfold lookup_student, navigate. rewrite !steps_with_confirm. split.
  - intros H H'. apply (confirm_inr _ tt) in H, H'. now rewrite H, H'.
  - intros Himg.
    assert (Hc : confirm (with_confirm img cmd b) = confirm (with_confirm img cmd' b)).
    { unfold confirm. cbn. destruct img as [|[fault|]]; [contradiction| |]; reflexivity. }
    now rewrite Hc.
Qed.

Lemma confirm_buttons_are_optional_witness :
  lookup_student (with_confirm Missing Missing plain_browser) alice
  = lookup_student (with_confirm (Present None) (Present (Some [])) plain_browser) alice.
Proof.
  apply (proj1 (confirm_buttons_are_optional plain_browser alice Missing Missing
                  (Present None) (Present (Some [])))).
  - right. split; [reflexivity|now left].
  - now left.
Defined.

(* ------------------------------------------------------------------ *)
(** ** The report table *)

Import Report.

Lemma code_inj (x y : ascii) : code x = code y -> x = y.
Proof.
  unfold code. intros H. apply (f_equal ascii_of_N) in H.
  now rewrite !ascii_N_embedding in H.
Qed.

Lemma str_leb_refl (a : pystr) : str_leb a a = true.
Proof.
  induction a as [|x a IH]; [reflexivity|]. cbn.
  rewrite N.eqb_refl, IH. apply orb_true_r.
Qed.

Lemma str_leb_total (a b : pystr) : str_leb a b = true \/ str_leb b a = true.
Proof.
  revert b. induction a as [|x a IH]; intros [|y b]; cbn; try tauto.
  destruct (N.lt_trichotomy (code x) (code y)) as [H|[H|H]].
  - left. apply orb_true_iff. left. now apply N.ltb_lt.
  - rewrite H, N.eqb_refl. destruct (IH b) as [Hab|Hba]; rewrite ?Hab, ?Hba; cbn.
    + left. apply orb_true_r.
    + right. apply orb_true_r.
  - right. apply orb_true_iff. left. now apply N.ltb_lt.
Qed.

Lemma str_leb_trans (a b c : pystr) :
  str_leb a b = true -> str_leb b c = true -> str_leb a c = true.
Proof.
  revert b c. induction a as [|x a IH]; intros [|y b] [|z c]; cbn; try congruence.
  rewrite !orb_true_iff, !andb_true_iff, !N.ltb_lt, !N.eqb_eq.
  intros [H1|[H1 H1']] [H2|[H2 H2']].
  - left. lia.
  - left. lia.
  - left. lia.
  - right. split; [lia|]. now apply (IH b).
Qed.

Lemma str_leb_antisym (a b : pystr) :
  str_leb a b = true -> str_leb b a = true -> a = b.
Proof.
  revert b. induction a as [|x a IH]; intros [|y b]; cbn; try congruence.
  rewrite !orb_true_iff, !andb_true_iff, !N.ltb_lt, !N.eqb_eq.
  intros [H1|[H1 H1']] [H2|[H2 H2']]; try lia.
  f_equal; [now apply code_inj|now apply IH].
Qed.

Lemma insert_sorted_perm (x : pystr) (l : list pystr) :
  insert_sorted x l ≡ₚ x :: l.
Proof.
  induction l as [|y l IH]; cbn; [reflexivity|].
  destruct (str_leb x y); [reflexivity|]. rewrite IH. apply Permutation_swap.
Qed.

Lemma sorted_perm (l : list pystr) : sorted l ≡ₚ l.
Proof.
  induction l as [|x l IH]; cbn; [reflexivity|].
  rewrite insert_sorted_perm. now rewrite IH.
Qed.

Lemma insert_sorted_ascending (x : pystr) (l : list pystr) :
  ascending (fun a b => str_leb a b = true) l ->
  ascending (fun a b => str_leb a b = true) (insert_sorted x l).
Proof.
  induction l as [|y l IH]; cbn [insert_sorted ascending].
  - intros _. split; [constructor|exact I].
  - intros [Hy Hl]. destruct (str_leb x y) eqn:E.
    + cbn [ascending]. split_and!; try assumption.
      constructor; [exact E|].
      eapply Forall_impl; [exact Hy|]. intros z Hz. now apply (str_leb_trans x y z).
    + cbn [ascending]. split; [|now apply IH].
      rewrite insert_sorted_perm. constructor; [|exact Hy].
      destruct (str_leb_total x y); congruence.
Qed.

Lemma sorted_ascending (l : list pystr) :
  ascending (fun a b => str_leb a b = true) (sorted l).
Proof.
  induction l as [|x l IH]; cbn [sorted foldr]; [exact I|].
  now apply insert_sorted_ascending.
Qed.

Lemma ascending_strict (l : list pystr) :
  NoDup l -> ascending (fun a b => str_leb a b = true) l -> ascending str_lt l.
Proof.
  induction 1 as [|x l Hx Hnd IH]; cbn [ascending]; [tauto|].
  intros [Hall Hl]. split; [|now apply IH].
  rewrite Forall_forall in *. intros y Hy. split; [now apply Hall|].
  intros ->. contradiction.
Qed.

Lemma subjects_fold (rs : list result) (acc : gset pystr) (s : pystr) :
  s ∈ fold_left update_subjects rs acc <->
  s ∈ acc \/ exists r, r ∈ rs /\ is_Some (marks r !! s).
Proof.
  revert acc. induction rs as [|r rs IH]; intros acc; cbn [fold_left].
  - split; [now left|]. intros [H|(r & Hin & _)]; [exact H|inversion Hin].
  - rewrite IH. unfold update_subjects. split.
    + intros [H|(r' & Hin & Hs)].
      * case_bool_decide as He; [now left|].
        apply elem_of_union in H as [H|H]; [now left|].
        right. exists r. split; [apply list_elem_of_here|now apply elem_of_dom].
      * right. exists r'. split; [now apply list_elem_of_further|exact Hs].
    + intros [H|(r' & Hin & Hs)].
      * left. case_bool_decide; [exact H|]. now apply elem_of_union_l.
      * apply elem_of_cons in Hin as [->|Hin].
        -- left. case_bool_decide as He.
           ++ rewrite He, lookup_empty in Hs. now destruct Hs.
           ++ apply elem_of_union_r. now apply elem_of_dom.
        -- right. now exists r'.
Qed.

Lemma all_subjects_spec (rs : list result) (s : pystr) :
  s ∈ all_subjects rs <-> exists r, r ∈ rs /\ is_Some (marks r !! s).
Proof.
  unfold all_subjects. rewrite sorted_perm, elem_of_elements, subjects_fold.
  split; [intros [H|H]; [now apply not_elem_of_empty in H|exact H]|now right].
Qed.

Lemma all_subjects_NoDup (rs : list result) : NoDup (all_subjects rs).
Proof. unfold all_subjects. rewrite sorted_perm. apply NoDup_elements. Qed.

Lemma excel_row_fold (subjects : list pystr) (r : result) (row : gmap pystr pystr)
    (k : pystr) :
  fold_left (fun row s => <[s := default NA (marks r !! s)]> row) subjects row !! k
  = if bool_decide (k ∈ subjects) then Some (default NA (marks r !! k)) else row !! k.
Proof.
  revert row. induction subjects as [|s subjects IH]; intros row; cbn [fold_left].
  - now rewrite bool_decide_eq_false_2 by apply not_elem_of_nil.
  - rewrite IH. destruct (decide (k ∈ subjects)) as [Hin|Hnin].
    + rewrite !bool_decide_eq_true_2; [reflexivity|now apply list_elem_of_further|exact Hin].
    + rewrite (bool_decide_eq_false_2 _ Hnin). destruct (decide (k = s)) as [->|Hne].
      * rewrite lookup_insert_eq. now rewrite bool_decide_eq_true_2 by apply list_elem_of_here.
      * rewrite lookup_insert_ne by congruence.
        rewrite bool_decide_eq_false_2; [reflexivity|].
        intros [?|?]%elem_of_cons; contradiction.
Qed.

Lemma fixed_row_dom (r : result) (k : pystr) :
  is_Some (fixed_row r !! k) <-> k ∈ fixed_columns.
Proof.
  unfold fixed_row, fixed_columns.
  rewrite !lookup_insert_is_Some, lookup_empty, !elem_of_cons, elem_of_nil.
  split.
  - intros [H|[_ [H|[_ [H|[_ [H|[_ H]]]]]]]]; try (symmetry in H; tauto).
    now destruct H.
  - intros [H|[H|[H|[H|[]]]]]; subst k.
    + right. split; [discriminate|]. right. split; [discriminate|]. right.
      split; [discriminate|]. now left.
    + right. split; [discriminate|]. right. split; [discriminate|]. now left.
    + right. split; [discriminate|]. now left.
    + now left.
Qed.

(** The sheet [Student_Results]: the subject columns are the codes that
    have a mark in some record, each once, in ascending order; every row
    has the four fixed columns and all subject columns, whatever the
    student; a subject cell holds the student's mark or [N/A]; and a
    fixed column holds the student's data unless a subject code has the
    name of that column, in which case the mark overwrites it. *)
Theorem report_table_layout (rs : list result) (r : result) (k : pystr) :
  (k ∈ all_subjects rs <-> exists r', r' ∈ rs /\ is_Some (marks r' !! k)) /\
  NoDup (all_subjects rs) /\
  ascending str_lt (all_subjects rs) /\
  (is_Some (excel_row (all_subjects rs) r !! k) <->
   k ∈ fixed_columns \/ k ∈ all_subjects rs) /\
  excel_row (all_subjects rs) r !! k
  = (if bool_decide (k ∈ all_subjects rs) then Some (default NA (marks r !! k))
     else fixed_row r !! k) /\
  fixed_row r !! lit "Student_Name" = Some (r_name r) /\
  fixed_row r !! lit "Roll_Number" = Some (r_roll r) /\
  fixed_row r !! lit "Registration_Number" = Some (r_reg r) /\
  fixed_row r !! lit "Status" = Some (status r).
Proof.
  split_and!.
  - apply all_subjects_spec.
  - apply all_subjects_NoDup.
  - apply ascending_strict; [apply all_subjects_NoDup|apply sorted_ascending].
  - unfold excel_row. rewrite excel_row_fold. case_bool_decide as Hin.
    + split; [now right|eauto].
    + rewrite fixed_row_dom. tauto.
  - apply excel_row_fold.
  - reflexivity.
  - reflexivity.
  - reflexivity.
  - reflexivity.
Qed.

Lemma sumZ_cons (x : Z) (l : list Z) : sumZ (x :: l) = x + sumZ l.
Proof. reflexivity. Qed.

Lemma sumZ_perm (l l' : list Z) : l ≡ₚ l' -> sumZ l = sumZ l'.
Proof.
  unfold sumZ. induction 1 as [|x l l' _ IH|x y l|l l' l'' _ IH1 _ IH2]; cbn in *; lia.
Qed.

Lemma fold_left_add (f : pystr -> Z) (l : list pystr) (acc : Z) :
  fold_left (fun total s => total + f s) l acc = acc + sumZ (f <$> l).
Proof.
  revert acc. induction l as [|s l IH]; intros acc; cbn [fold_left].
  - unfold sumZ. cbn. lia.
  - rewrite IH, fmap_cons, sumZ_cons. lia.
Qed.

Lemma sumZ_same (f g : pystr -> Z) (l : list pystr) :
  (forall s, s ∈ l -> g s = f s) -> sumZ (g <$> l) = sumZ (f <$> l).
Proof.
  induction l as [|t l IH]; intros H; [reflexivity|].
  rewrite !fmap_cons, !sumZ_cons, IH, H; [reflexivity|apply list_elem_of_here|].
  intros s Hs. apply H. now apply list_elem_of_further.
Qed.

Lemma sumZ_change_one (f g : pystr -> Z) (l : list pystr) (k : pystr) :
  NoDup l -> k ∈ l -> (forall s, s <> k -> g s = f s) ->
  sumZ (g <$> l) = sumZ (f <$> l) + (g k - f k).
Proof.
  intros Hnd Hin Hsame. induction Hnd as [|s l Hs Hnd IH]; [inversion Hin|].
  rewrite !fmap_cons, !sumZ_cons. destruct (decide (s = k)) as [->|Hne].
  - rewrite (sumZ_same f g l); [lia|].
    intros s Hsl. apply Hsame. intros ->. contradiction.
  - apply elem_of_cons in Hin as [Hin|Hin]; [congruence|].
    rewrite (Hsame s Hne), (IH Hin). lia.
Qed.

Lemma cell_value_NA : cell_value NA = 0.
Proof. reflexivity. Qed.

Lemma sum_over_columns (l : list pystr) (m : gmap pystr pystr) :
  NoDup l -> (forall k, is_Some (m !! k) -> k ∈ l) ->
  sumZ ((fun s => cell_value (default NA (m !! s))) <$> l)
  = sumZ ((fun kv => cell_value kv.2) <$> map_to_list m).
Proof.
  intros Hnd. induction m as [|k v m Hk IH] using map_ind; intros Hdom.
  - rewrite map_to_list_empty.
    rewrite (sumZ_same (fun _ => 0)); [|intros s _; now rewrite lookup_empty].
    clear. induction l as [|s l IHl]; [reflexivity|].
    rewrite fmap_cons, sumZ_cons, IHl. reflexivity.
  - rewrite (sumZ_perm _ _ (fmap_Permutation _ _ _ (map_to_list_insert m k v Hk))).
    rewrite fmap_cons, sumZ_cons. cbn [snd]. rewrite <- IH.
    + rewrite (sumZ_change_one (fun s => cell_value (default NA (m !! s)))
                 (fun s => cell_value (default NA (<[k:=v]> m !! s))) l k Hnd).
      * cbn beta. rewrite lookup_insert_eq, Hk.
        change (default NA (Some v)) with v. change (default NA None) with NA.
        rewrite cell_value_NA. lia.
      * apply Hdom. rewrite lookup_insert_eq. eauto.
      * intros s Hs. now rewrite lookup_insert_ne by congruence.
    + intros s Hs. apply Hdom. rewrite lookup_insert_is_Some.
      destruct (decide (k = s)); [now left|now right].
Qed.

Lemma cell_value_digits (d : pystr) :
  all_digits d -> cell_value d = int_of_digits d.
Proof.
  intros Hd. unfold cell_value. rewrite filter_digits by exact Hd.
  now destruct d.
Qed.

Lemma cell_value_digits_F (d : pystr) :
  all_digits d -> cell_value (d ++ lit "F") = int_of_digits d.
Proof.
  intros Hd. unfold cell_value. rewrite List.filter_app, filter_digits by exact Hd.
  cbn. rewrite app_nil_r. now destruct d.
Qed.

(** The column [Total] of [/results]: a student's total is the sum over
    the student's own marks of the number their digits spell, whatever
    subjects the other students have, since a cell [N/A] counts 0; a
    mark [F] counts 0, a number counts itself, and a number followed by
    [F], a failed paper, counts the number. *)
Theorem results_total_sums_own_marks (rs : list result) (r : result) :
  r ∈ rs ->
  row_total (all_subjects rs) r
  = sumZ ((fun kv => cell_value kv.2) <$> map_to_list (marks r)) /\
  cell_value (lit "F") = 0 /\
  (forall d, all_digits d -> cell_value d = int_of_digits d) /\
  (forall d, all_digits d -> cell_value (d ++ lit "F") = int_of_digits d).
Proof.
  intros Hin. split_and!.
  - unfold row_total. rewrite fold_left_add, Z.add_0_l.
    apply sum_over_columns; [apply all_subjects_NoDup|].
    intros k Hk. apply all_subjects_spec. now exists r.
  - reflexivity.
  - apply cell_value_digits.
  - apply cell_value_digits_F.
Qed.

Lemma results_total_sums_own_marks_witness :
  row_total (all_subjects [alice_result; bob_result]) alice_result
  = sumZ ((fun kv => cell_value kv.2) <$> map_to_list (marks alice_result)).
Proof.
  apply (proj1 (results_total_sums_own_marks [alice_result; bob_result] alice_result
                  (list_elem_of_here _ _))).
Defined.

Example results_totals_example :
  results_totals [alice_result; bob_result] = [114; 0] /\
  all_subjects [alice_result; bob_result]
  = [lit "CS-CS-101"; lit "CS-CS-102"; lit "CS-CS-103"].
Proof. split; vm_compute; reflexivity. Qed.

(* ------------------------------------------------------------------ *)
(** ** Where the extracted marks come from *)

Lemma data_rows_spec (soup : node) (row : node) :
  row ∈ data_rows soup <->
  exists table, table ∈ find_all ["table"]%string soup /\
                table_selected table = true /\
                row ∈ tail (find_all ["tr"]%string table).
Proof.
  unfold data_rows. rewrite list_elem_of_In, in_flat_map. split.
  - intros (table & Ht & Hr). exists table. apply list_elem_of_In in Ht.
    destruct (table_selected table); [|inversion Hr].
    apply list_elem_of_In in Hr. now split_and!.
  - intros (table & Ht & Hsel & Hr). exists table. rewrite Hsel.
    split; now apply list_elem_of_In.
Qed.

(** Every mark [extract_data_from_page] stores comes from a row, other
    than the first, of a table whose text contains TOTAL or MARKS in any
    case; the row has at least three cells, its first cell gives the
    subject code and its text the mark. A page without such a table, and
    a driver whose page source raises, give the empty mapping. *)
Theorem marks_come_from_selected_tables (page : option node) :
  (forall code v, extract_data_from_page page !! code = Some v ->
     exists soup table row,
       page = Some soup /\
       table ∈ find_all ["table"]%string soup /\
       table_selected table = true /\
       row ∈ tail (find_all ["tr"]%string table) /\
       (3 <= length (row_cells row))%nat /\
       subject_code_of (first_cell row) = Some code /\
       mark_of_row (row_text (row_cells row)) = Some v) /\
  ((forall soup table, page = Some soup -> table ∈ find_all ["table"]%string soup ->
      table_selected table = false) ->
   extract_data_from_page page = ∅).
Proof.
  split.
  - intros code v H. destruct page as [soup|];
      [|cbn [extract_data_from_page] in H; now rewrite lookup_empty in H].
    cbn [extract_data_from_page] in H. rewrite extract_marks_data_rows in H.
    apply process_rows_origin in H as [H|(row & Hin & Hr)];
      [now rewrite lookup_empty in H|].
    apply data_rows_spec in Hin as (table & Ht & Hsel & Hrow).
    apply row_entry_Some in Hr as (Hlen & Hcode & Hmark).
    exists soup, table, row. now split_and!.
  - intros Hnone. destruct page as [soup|]; [|reflexivity].
    cbn [extract_data_from_page]. rewrite extract_marks_data_rows.
    assert (Hrows : data_rows soup = []).
    { destruct (data_rows soup) as [|row rows] eqn:E; [reflexivity|].
      assert (Hin : row ∈ data_rows soup) by (rewrite E; apply list_elem_of_here).
      apply data_rows_spec in Hin as (table & Ht & Hsel & _).
      rewrite (Hnone soup table eq_refl Ht) in Hsel. discriminate. }
    now rewrite Hrows.
Qed.

(* ------------------------------------------------------------------ *)
(** ** The matcher against what the patterns accept *)

Import Accepts.

Section MatcherSound.
Context {A : Type}.

Lemma rep_sound
    (mr : option pystr -> option ascii -> pystr -> @cont A -> option A)
    (one : option pystr -> option ascii -> pystr -> pystr -> option pystr -> Prop) :
  (forall cap prev s k x, mr cap prev s k = Some x ->
     exists u rest cap', s = u ++ rest /\ one cap prev u rest cap' /\
                         k cap' (char_before prev u) rest = Some x) ->
  forall n lo cap prev s k x, rep mr lo n cap prev s k = Some x ->
    exists u rest cap', s = u ++ rest /\ rounds one lo n cap prev u rest cap' /\
                        k cap' (char_before prev u) rest = Some x.
Proof.
  intros Hmr. induction n as [|n IH]; intros lo cap prev s k x; cbn [rep].
  - destruct (lo =? 0)%nat eqn:Hlo; [|discriminate]. apply Nat.eqb_eq in Hlo. subst lo.
    intros Hk. exists [], s, cap. split_and!; [reflexivity|constructor|exact Hk].
  - destruct (mr cap prev s _) as [y|] eqn:E.
    + intros [= ->]. apply Hmr in E as (u & rest1 & cap1 & -> & Hone & Hrep).
      apply IH in Hrep as (v & rest & cap2 & -> & Hrounds & Hk).
      exists (u ++ v), rest, cap2. split_and!.
      * now rewrite app_assoc.
      * now apply rounds_more with cap1.
      * now rewrite char_before_app.
    + destruct (lo =? 0)%nat eqn:Hlo; [|discriminate]. apply Nat.eqb_eq in Hlo. subst lo.
      intros Hk. exists [], s, cap. split_and!; [reflexivity|constructor|exact Hk].
Qed.

End MatcherSound.

Lemma run_sound (ic : bool) (r : re) :
  forall (A : Type) cap prev s (k : @cont A) x,
    run ic r cap prev s k = Some x ->
    exists u rest cap', s = u ++ rest /\ accepts ic r cap prev u rest cap' /\
                        k cap' (char_before prev u) rest = Some x.
Proof.
  induction r as [c|p|r1 IH1 r2 IH2|r IH lo hi| | |r IH]; intros A cap prev s k x;
    cbn [run accepts].
  - destruct s as [|a s]; [discriminate|]. destruct (chr_ok ic c a) eqn:E; [|discriminate].
    intros Hk. exists [a], s, cap. split_and!; [reflexivity|now exists a|exact Hk].
  - destruct s as [|a s]; [discriminate|]. destruct (cls_ok ic p a) eqn:E; [|discriminate].
    intros Hk. exists [a], s, cap. split_and!; [reflexivity|now exists a|exact Hk].
  - intros H. apply IH1 in H as (u1 & rest1 & cap1 & -> & H1 & H).
    apply IH2 in H as (u2 & rest & cap2 & -> & H2 & Hk).
    exists (u1 ++ u2), rest, cap2. split_and!.
    + now rewrite app_assoc.
    + now exists u1, u2, cap1.
    + now rewrite char_before_app.
  - intros H. apply (rep_sound _ (accepts ic r)) in H.
    + destruct H as (u & rest & cap' & -> & H & Hk).
      exists u, rest, cap'. now split_and!.
    + intros cap0 prev0 s0 k0 x0. apply IH.
  - destruct prev; [discriminate|]. intros Hk.
    exists [], s, cap. now split_and!.
  - destruct (xorb _ _) eqn:E; [|discriminate]. intros Hk.
    exists [], s, cap. now split_and!.
  - intros H. apply IH in H as (u & rest & cap1 & -> & H & Hk).
    exists u, rest, (Some u). split; [reflexivity|].
    split; [split; [now exists cap1|reflexivity]|].
    rewrite length_app in Hk.
    replace (length u + length rest - length rest)%nat with (length u) in Hk by lia.
    now rewrite take_app_length in Hk.
Qed.

Lemma rep_complete {A : Type}
    (mr : option pystr -> option ascii -> pystr -> @cont A -> option A)
    (one : option pystr -> option ascii -> pystr -> pystr -> option pystr -> Prop) :
  (forall cap prev u rest cap' k, one cap prev u rest cap' ->
     is_Some (k cap' (char_before prev u) rest) ->
     is_Some (mr cap prev (u ++ rest) k)) ->
  forall lo n cap prev u rest cap' k, rounds one lo n cap prev u rest cap' ->
    is_Some (k cap' (char_before prev u) rest) ->
    is_Some (rep mr lo n cap prev (u ++ rest) k).
Proof.
  intros Hmr lo n cap prev u rest cap' k Hr. revert k.
  induction Hr as [n cap prev rest|lo n cap prev u v rest cap1 cap2 Hone Hr IH];
    intros k Hk.
  - cbn [app]. destruct n as [|n]; cbn [rep Nat.eqb]; [exact Hk|].
    destruct (mr cap prev rest _); [eauto|exact Hk].
  - cbn [rep]. rewrite <- app_assoc.
    destruct (Hmr cap prev u (v ++ rest) cap1
                (fun cap' prev' s' => rep mr (pred lo) n cap' prev' s' k) Hone) as [x Hx].
    + apply IH. now rewrite <- char_before_app.
    + rewrite Hx. eauto.
Qed.

Lemma run_complete (ic : bool) (r : re) :
  forall (A : Type) cap prev u rest cap' (k : @cont A),
    accepts ic r cap prev u rest cap' ->
    is_Some (k cap' (char_before prev u) rest) ->
    is_Some (run ic r cap prev (u ++ rest) k).
Proof.
  induction r as [c|p|r1 IH1 r2 IH2|r IH lo hi| | |r IH];
    intros A cap prev u rest cap' k; cbn [run accepts].
  - intros (a & -> & Hok & ->) Hk. cbn [app]. now rewrite Hok.
  - intros (a & -> & Hok & ->) Hk. cbn [app]. now rewrite Hok.
  - intros (u1 & u2 & cap1 & -> & H1 & H2) Hk. rewrite <- app_assoc.
    apply (IH1 A cap prev u1 (u2 ++ rest) cap1); [exact H1|].
    apply (IH2 A _ _ u2 rest cap'); [exact H2|]. now rewrite <- char_before_app.
  - intros H Hk. apply (rep_complete _ (accepts ic r)) with cap'; [|exact H|exact Hk].
    intros cap0 prev0 u0 rest0 cap0' k0. apply IH.
  - intros (-> & -> & ->) Hk. exact Hk.
  - intros (Hx & -> & ->) Hk. cbn [app]. now rewrite Hx.
  - intros ((cap1 & H) & ->) Hk.
    apply (IH A cap prev u rest cap1); [exact H|].
    rewrite length_app.
    replace (length u + length rest - length rest)%nat with (length u) by lia.
    now rewrite take_app_length.
Qed.

Lemma rounds_cls_elim (ic : bool) (p : ascii -> bool) lo n cap prev u rest cap' :
  rounds (accepts ic (Cls p)) lo n cap prev u rest cap' ->
  (lo <= length u <= n)%nat /\ Forall (fun a => cls_ok ic p a = true) u /\ cap' = cap.
Proof.
  induction 1 as [n cap prev rest|lo n cap prev u v rest cap1 cap2 Hone Hr IH].
  - cbn. split_and!; [lia|lia|constructor|reflexivity].
  - destruct Hone as (a & -> & Hok & ->). destruct IH as (Hlen & Hall & ->).
    cbn. split_and!; [lia|lia|now constructor|reflexivity].
Qed.

Lemma rounds_cls_intro (ic : bool) (p : ascii -> bool) (u : pystr) :
  forall lo n cap prev rest,
    (lo <= length u <= n)%nat -> Forall (fun a => cls_ok ic p a = true) u ->
    rounds (accepts ic (Cls p)) lo n cap prev u rest cap.
Proof.
  induction u as [|a u IH]; intros lo n cap prev rest Hlen Hall.
  - cbn in Hlen. replace lo with 0%nat by lia. constructor.
  - cbn in Hlen. destruct n as [|n]; [lia|].
    inversion Hall as [|? ? Ha Hu]; subst.
    apply (rounds_more _ lo n cap prev [a] u rest cap cap).
    + now exists a.
    + apply IH; [lia|exact Hu].
Qed.

Lemma run_of_rounds (p : ascii -> bool) (lo hi : nat) cap prev u rest cap' :
  rounds (accepts false (Cls p)) lo hi cap prev u rest cap' ->
  run_of p lo hi u /\ cap' = cap.
Proof.
  intros H. apply rounds_cls_elim in H as (Hlen & Hall & ->).
  split; [|reflexivity]. split; [exact Hlen|].
  eapply Forall_impl; [exact Hall|]. intros a Ha. cbn beta in Ha.
  now rewrite cls_ok_plain in Ha.
Qed.

Lemma rounds_run_of (p : ascii -> bool) (lo hi n : nat) cap prev u rest :
  run_of p lo hi u -> (hi <= n)%nat ->
  rounds (accepts false (Cls p)) lo n cap prev u rest cap.
Proof.
  intros [Hlen Hall] Hn. apply rounds_cls_intro; [lia|].
  eapply Forall_impl; [exact Hall|]. intros a Ha. cbn beta.
  now rewrite cls_ok_plain.
Qed.

Lemma chr_ok_plain (c a : ascii) : chr_ok false c a = true <-> a = c.
Proof.
  unfold chr_ok. rewrite orb_false_r, Ascii.eqb_eq. split; congruence.
Qed.

Lemma char_before_None (pre : pystr) : char_before None pre = None -> pre = [].
Proof.
  unfold char_before. destruct pre as [|a pre]; [reflexivity|].
  destruct (last (a :: pre)) eqn:E; [discriminate|].
  apply last_None in E. discriminate.
Qed.

Lemma accepts_seq ic r1 r2 cap prev u rest cap' :
  accepts ic (Seq r1 r2) cap prev u rest cap' <->
  exists u1 u2 cap1,
    u = u1 ++ u2 /\ accepts ic r1 cap prev u1 (u2 ++ rest) cap1 /\
    accepts ic r2 cap1 (char_before prev u1) u2 rest cap'.
Proof. reflexivity. Qed.

Lemma accepts_run_of (p : ascii -> bool) (lo hi : nat) cap prev u rest cap' :
  accepts false (Rep (Cls p) lo (Some hi)) cap prev u rest cap' <->
  run_of p lo hi u /\ cap' = cap.
Proof.
  split.
  - apply run_of_rounds.
  - intros [H ->]. now apply (rounds_run_of p lo hi hi).
Qed.

Lemma accepts_some (p : ascii -> bool) cap prev u rest cap' :
  accepts false (Rep (Cls p) 1 None) cap prev u rest cap' <->
  (u <> [] /\ Forall (fun c => p c = true) u) /\ cap' = cap.
Proof.
  split.
  - intros H. apply run_of_rounds in H as [[Hlen Hall] ->].
    split; [|reflexivity]. split; [|exact Hall]. destruct u; [cbn in Hlen; lia|discriminate].
  - intros [[Hne Hall] ->]. apply (rounds_run_of p 1 (length u)).
    + split; [|exact Hall]. destruct u; [contradiction|cbn; lia].
    + cbn. rewrite length_app. lia.
Qed.

Lemma accepts_chr (c : ascii) cap prev u rest cap' :
  accepts false (Chr c) cap prev u rest cap' <-> u = [c] /\ cap' = cap.
Proof.
  split.
  - intros (a & -> & Hok & ->). apply chr_ok_plain in Hok. now subst.
  - intros [-> ->]. exists c. split_and!; [reflexivity|now apply chr_ok_plain|reflexivity].
Qed.

Lemma accepts_cls (p : ascii -> bool) cap prev u rest cap' :
  accepts false (Cls p) cap prev u rest cap' <->
  exists a, u = [a] /\ p a = true /\ cap' = cap.
Proof.
  split; intros (a & -> & Hok & ->); exists a; rewrite cls_ok_plain in *; now split_and!.
Qed.

(** The bodies of the three groups. *)
Lemma numbered_body (code rest : pystr) cap prev cap' :
  accepts false
    (cat [uppers 2 3; Chr "-"; uppers 2 4; Chr "-"; digits 2 3; uppers 0 1])
    cap prev code rest cap' <->
  numbered_code code /\ cap' = cap.
Proof.
  unfold uppers, digits, numbered_code. cbn [cat]. split.
  - intros H.
    apply accepts_seq in H as (a & u1 & c1 & -> & Ha & H). apply accepts_run_of in Ha as [Ha ->].
    apply accepts_seq in H as (d1 & u2 & c2 & -> & Hd1 & H). apply accepts_chr in Hd1 as [-> ->].
    apply accepts_seq in H as (b & u3 & c3 & -> & Hb & H). apply accepts_run_of in Hb as [Hb ->].
    apply accepts_seq in H as (d2 & u4 & c4 & -> & Hd2 & H). apply accepts_chr in Hd2 as [-> ->].
    apply accepts_seq in H as (d & o & c5 & -> & Hd & H). apply accepts_run_of in Hd as [Hd ->].
    apply accepts_run_of in H as [Ho ->].
    split; [|reflexivity]. exists a, b, d, o. now split_and!.
  - intros [(a & b & d & o & -> & Ha & Hb & Hd & Ho) ->].
    apply accepts_seq. exists a, (dash :: b ++ dash :: d ++ o), cap.
    split_and!; [reflexivity|now apply accepts_run_of|].
    apply accepts_seq. exists [dash], (b ++ dash :: d ++ o), cap.
    split_and!; [reflexivity|now apply accepts_chr|].
    apply accepts_seq. exists b, (dash :: d ++ o), cap.
    split_and!; [reflexivity|now apply accepts_run_of|].
    apply accepts_seq. exists [dash], (d ++ o), cap.
    split_and!; [reflexivity|now apply accepts_chr|].
    apply accepts_seq. exists d, o, cap.
    split_and!; [reflexivity|now apply accepts_run_of|now apply accepts_run_of].
Qed.

Lemma roman_body (code rest : pystr) cap prev cap' :
  accepts false
    (cat [uppers 2 3; Chr "-"; uppers 2 4; Chr "-"; Rep (Cls is_roman) 1 None])
    cap prev code rest cap' <->
  roman_code code /\ cap' = cap.
Proof.
  unfold uppers, roman_code. cbn [cat]. split.
  - intros H.
    apply accepts_seq in H as (a & u1 & c1 & -> & Ha & H). apply accepts_run_of in Ha as [Ha ->].
    apply accepts_seq in H as (d1 & u2 & c2 & -> & Hd1 & H). apply accepts_chr in Hd1 as [-> ->].
    apply accepts_seq in H as (b & u3 & c3 & -> & Hb & H). apply accepts_run_of in Hb as [Hb ->].
    apply accepts_seq in H as (d2 & n & c4 & -> & Hd2 & H). apply accepts_chr in Hd2 as [-> ->].
    apply accepts_some in H as [[Hne Hn] ->].
    split; [|reflexivity]. exists a, b, n. now split_and!.
  - intros [(a & b & n & -> & Ha & Hb & Hne & Hn) ->].
    apply accepts_seq. exists a, (dash :: b ++ dash :: n), cap.
    split_and!; [reflexivity|now apply accepts_run_of|].
    apply accepts_seq. exists [dash], (b ++ dash :: n), cap.
    split_and!; [reflexivity|now apply accepts_chr|].
    apply accepts_seq. exists b, (dash :: n), cap.
    split_and!; [reflexivity|now apply accepts_run_of|].
    apply accepts_seq. exists [dash], n, cap.
    split_and!; [reflexivity|now apply accepts_chr|now apply accepts_some].
Qed.

Lemma short_body (code rest : pystr) cap prev cap' :
  accepts false (cat [uppers 2 3; Chr "-"; digits 2 3; uppers 0 1])
    cap prev code rest cap' <->
  short_code code /\ cap' = cap.
Proof.
  unfold uppers, digits, short_code. cbn [cat]. split.
  - intros H.
    apply accepts_seq in H as (a & u1 & c1 & -> & Ha & H). apply accepts_run_of in Ha as [Ha ->].
    apply accepts_seq in H as (d1 & u2 & c2 & -> & Hd1 & H). apply accepts_chr in Hd1 as [-> ->].
    apply accepts_seq in H as (d & o & c5 & -> & Hd & H). apply accepts_run_of in Hd as [Hd ->].
    apply accepts_run_of in H as [Ho ->].
    split; [|reflexivity]. exists a, d, o. now split_and!.
  - intros [(a & d & o & -> & Ha & Hd & Ho) ->].
    apply accepts_seq. exists a, (dash :: d ++ o), cap.
    split_and!; [reflexivity|now apply accepts_run_of|].
    apply accepts_seq. exists [dash], (d ++ o), cap.
    split_and!; [reflexivity|now apply accepts_chr|].
    apply accepts_seq. exists d, o, cap.
    split_and!; [reflexivity|now apply accepts_run_of|now apply accepts_run_of].
Qed.

(** A pattern [^(body)[\s:]] matches at a position exactly when the
    position is the start, the body accepts a prefix, and a space or a
    colon follows; group 1 is that prefix. *)
Lemma anchored_sound (body : re) (prev : option ascii) (s : pystr)
    (cap : option pystr) (rest : pystr) :
  match_here false (cat [Bol; Grp body; Cls is_space_or_colon]) prev s = Some (cap, rest) ->
  prev = None /\
  exists code c cap0,
    s = code ++ c :: rest /\ cap = Some code /\ is_space_or_colon c = true /\
    accepts false body None None code (c :: rest) cap0.
Proof.
  unfold match_here. intros H.
  apply run_sound in H as (u & rest0 & cap' & -> & H & [= <- <-]).
  cbn [cat] in H.
  apply accepts_seq in H as (u1 & u2 & cap1 & -> & (-> & -> & ->) & H).
  apply accepts_seq in H as (code & u4 & cap2 & -> & ((cap0 & Hbody) & ->) & H).
  apply accepts_cls in H as (c & -> & Hc & ->).
  split; [reflexivity|]. exists code, c, cap0.
  split_and!; [cbn [app]; now rewrite <- app_assoc|reflexivity|exact Hc|exact Hbody].
Qed.

Lemma anchored_complete (body : re) (code rest : pystr) (c : ascii) (cap0 : option pystr) :
  accepts false body None None code (c :: rest) cap0 ->
  is_space_or_colon c = true ->
  is_Some (match_here false (cat [Bol; Grp body; Cls is_space_or_colon]) None
             (code ++ c :: rest)).
Proof.
  intros Hbody Hc. unfold match_here.
  replace (code ++ c :: rest) with ((code ++ [c]) ++ rest)
    by now rewrite <- app_assoc.
  apply (run_complete false _ _ None None (code ++ [c]) rest (Some code)); [|eauto].
  cbn [cat]. apply accepts_seq. exists [], (code ++ [c]), None.
  split_and!; [reflexivity|now split_and!|].
  apply accepts_seq. exists code, [c], (Some code).
  split_and!; [reflexivity|split; [now exists cap0|reflexivity]|].
  apply accepts_cls. now exists c.
Qed.

Lemma search_anchored (body : re) (s g : pystr) :
  search false (cat [Bol; Grp body; Cls is_space_or_colon]) s = Some g <->
  exists rest, match_here false (cat [Bol; Grp body; Cls is_space_or_colon]) None s
               = Some (Some g, rest).
Proof.
  unfold search. split.
  - intros H. destruct (search_from _ _ _ _) as [[cap rest]|] eqn:E; [|discriminate].
    cbn in H. injection H as <-.
    apply search_from_sound in E as (pre & post & -> & Hm).
    destruct (anchored_sound _ _ _ _ _ Hm) as (Hprev & code & c & cap0 & _ & -> & _).
    apply char_before_None in Hprev. subst pre. cbn [app] in *.
    exists rest. exact Hm.
  - intros [rest H]. rewrite search_from_unfold, H. reflexivity.
Qed.

(** The characters of a subject code are no spaces and no colons. *)
Lemma upper_not_separator (c : ascii) :
  is_upper c = true -> is_space_or_colon c = false.
Proof. each_char c; vm_compute; congruence. Qed.

Lemma digit_not_separator (c : ascii) :
  is_digit c = true -> is_space_or_colon c = false.
Proof. each_char c; vm_compute; congruence. Qed.

Lemma roman_not_separator (c : ascii) :
  is_roman c = true -> is_space_or_colon c = false.
Proof. each_char c; vm_compute; congruence. Qed.

Lemma run_of_no_separator (p : ascii -> bool) (lo hi : nat) (s : pystr) :
  (forall c, p c = true -> is_space_or_colon c = false) ->
  run_of p lo hi s -> Forall (fun c => is_space_or_colon c = false) s.
Proof.
  intros Hp [_ H]. eapply Forall_impl; [exact H|]. exact Hp.
Qed.

Lemma code_shape_no_separator (code : pystr) :
  code_shape code -> Forall (fun c => is_space_or_colon c = false) code.
Proof.
  pose proof (run_of_no_separator is_upper) as HU.
  pose proof (run_of_no_separator is_digit) as HD.
  intros [(a & b & d & o & -> & Ha & Hb & Hd & Ho)|
          [(a & b & n & -> & Ha & Hb & _ & Hn)|(a & d & o & -> & Ha & Hd & Ho)]].
  - apply Forall_app; split; [eapply HU; eauto using upper_not_separator|].
    apply Forall_cons; split; [reflexivity|].
    apply Forall_app; split; [eapply HU; eauto using upper_not_separator|].
    apply Forall_cons; split; [reflexivity|].
    apply Forall_app; split; [eapply HD; eauto using digit_not_separator|].
    eapply HU; eauto using upper_not_separator.
  - apply Forall_app; split; [eapply HU; eauto using upper_not_separator|].
    apply Forall_cons; split; [reflexivity|].
    apply Forall_app; split; [eapply HU; eauto using upper_not_separator|].
    apply Forall_cons; split; [reflexivity|].
    eapply Forall_impl; [exact Hn|]. exact roman_not_separator.
  - apply Forall_app; split; [eapply HU; eauto using upper_not_separator|].
    apply Forall_cons; split; [reflexivity|].
    apply Forall_app; split; [eapply HD; eauto using digit_not_separator|].
    eapply HU; eauto using upper_not_separator.
Qed.

(** Two readings of a text as code, separator, rest agree on the code. *)
Lemma code_prefix_unique (code code' rest rest' : pystr) (c c' : ascii) :
  code ++ c :: rest = code' ++ c' :: rest' ->
  Forall (fun x => is_space_or_colon x = false) code ->
  Forall (fun x => is_space_or_colon x = false) code' ->
  is_space_or_colon c = true -> is_space_or_colon c' = true ->
  code = code'.
Proof.
  intros Heq Hcode. revert code' Heq.
  induction Hcode as [|x code Hx Hcode IH]; intros [|y code'] Heq Hcode' Hc Hc'.
  - reflexivity.
  - cbn in Heq. injection Heq as -> _. inversion Hcode'; subst. congruence.
  - cbn in Heq. injection Heq as -> _. congruence.
  - cbn in Heq. injection Heq as -> Heq. inversion Hcode'; subst.
    f_equal. now apply IH.
Qed.

Lemma pattern_match_shape (body : re) (shape : pystr -> Prop) (s g : pystr) :
  (forall code rest cap prev cap',
      accepts false body cap prev code rest cap' <-> shape code /\ cap' = cap) ->
  (forall code, shape code -> Forall (fun c => is_space_or_colon c = false) code) ->
  search false (cat [Bol; Grp body; Cls is_space_or_colon]) s = Some g <->
  exists c rest, s = g ++ c :: rest /\ is_space_or_colon c = true /\ shape g.
Proof.
  intros Hbody Hplain. rewrite search_anchored. split.
  - intros [rest H]. apply anchored_sound in H as (_ & code & c & cap0 & -> & [= <-] & Hc & H).
    apply Hbody in H as [H _]. now exists c, rest.
  - intros (c & rest & -> & Hc & Hg).
    assert (Hacc : accepts false body None None g (c :: rest) None) by now apply Hbody.
    destruct (anchored_complete body g rest c None Hacc Hc) as [[cap rest'] Hm].
    exists rest'. rewrite Hm.
    apply anchored_sound in Hm as (_ & code & c' & cap0 & Heq & -> & Hc' & H).
    apply Hbody in H as [H _].
    rewrite (code_prefix_unique g code rest rest' c c' Heq); auto.
Qed.

Lemma subject_code_of_unfold (cell : pystr) :
  subject_code_of cell
  = match search false
            (cat [Bol;
                  Grp (cat [uppers 2 3; Chr "-"; uppers 2 4; Chr "-"; digits 2 3;
                            uppers 0 1]);
                  Cls is_space_or_colon]) cell with
    | Some g => Some g
    | None =>
        match search false
                (cat [Bol;
                      Grp (cat [uppers 2 3; Chr "-"; uppers 2 4; Chr "-";
                                Rep (Cls is_roman) 1 None]);
                      Cls is_space_or_colon]) cell with
        | Some g => Some g
        | None =>
            search false
              (cat [Bol; Grp (cat [uppers 2 3; Chr "-"; digits 2 3; uppers 0 1]);
                    Cls is_space_or_colon]) cell
        end
    end.
Proof.
  unfold subject_code_of, subject_patterns. cbn [first_match].
  repeat match goal with
         | |- context [match ?x with _ => _ end] => destruct x
         end; reflexivity.
Qed.

Lemma search_numbered (cell g : pystr) :
  search false
    (cat [Bol;
          Grp (cat [uppers 2 3; Chr "-"; uppers 2 4; Chr "-"; digits 2 3; uppers 0 1]);
          Cls is_space_or_colon]) cell = Some g <->
  exists c rest, cell = g ++ c :: rest /\ is_space_or_colon c = true /\ numbered_code g.
Proof.
  apply pattern_match_shape; [apply numbered_body|].
  intros code H. apply code_shape_no_separator. now left.
Qed.

Lemma search_roman (cell g : pystr) :
  search false
    (cat [Bol;
          Grp (cat [uppers 2 3; Chr "-"; uppers 2 4; Chr "-"; Rep (Cls is_roman) 1 None]);
          Cls is_space_or_colon]) cell = Some g <->
  exists c rest, cell = g ++ c :: rest /\ is_space_or_colon c = true /\ roman_code g.
Proof.
  apply pattern_match_shape; [apply roman_body|].
  intros code H. apply code_shape_no_separator. right. now left.
Qed.

Lemma search_short (cell g : pystr) :
  search false
    (cat [Bol; Grp (cat [uppers 2 3; Chr "-"; digits 2 3; uppers 0 1]);
          Cls is_space_or_colon]) cell = Some g <->
  exists c rest, cell = g ++ c :: rest /\ is_space_or_colon c = true /\ short_code g.
Proof.
  apply pattern_match_shape; [apply short_body|].
  intros code H. apply code_shape_no_separator. right. now right.
Qed.

Lemma subject_code_of_iff (cell code : pystr) :
  subject_code_of cell = Some code <->
  exists c rest, cell = code ++ c :: rest /\ is_space_or_colon c = true /\
                 code_shape code.
Proof.
  rewrite subject_code_of_unfold.
  assert (Huniq : forall g g' c c' rest rest',
             cell = g ++ c :: rest -> cell = g' ++ c' :: rest' ->
             is_space_or_colon c = true -> is_space_or_colon c' = true ->
             code_shape g -> code_shape g' -> g = g').
  { intros g g' c c' rest rest' -> Heq Hc Hc' Hg Hg'.
    apply (code_prefix_unique g g' rest rest' c c' Heq);
      auto using code_shape_no_separator. }
  split.
  - match goal with |- context [match ?x with _ => _ end] =>
      destruct x as [g1|] eqn:E1 end.
    { intros Heq. assert (Hg : g1 = code) by congruence. subst code.
      apply search_numbered in E1 as (c & rest & -> & Hc & Hs).
      exists c, rest. split_and!; [reflexivity|exact Hc|now left]. }
    match goal with |- context [match ?x with _ => _ end] =>
      destruct x as [g2|] eqn:E2 end.
    { intros Heq. assert (Hg : g2 = code) by congruence. subst code.
      apply search_roman in E2 as (c & rest & -> & Hc & Hs).
      exists c, rest. split_and!; [reflexivity|exact Hc|right; now left]. }
    intros E3. apply search_short in E3 as (c & rest & -> & Hc & Hs).
    exists c, rest. split_and!; [reflexivity|exact Hc|right; now right].
  - intros (c & rest & Hcell & Hc & Hshape).
    match goal with |- context [match ?x with _ => _ end] =>
      destruct x as [g1|] eqn:E1 end.
    { apply search_numbered in E1 as (c1 & rest1 & Hcell1 & Hc1 & Hs1). f_equal.
      apply (Huniq g1 code c1 c rest1 rest); auto. now left. }
    match goal with |- context [match ?x with _ => _ end] =>
      destruct x as [g2|] eqn:E2 end.
    { apply search_roman in E2 as (c2 & rest2 & Hcell2 & Hc2 & Hs2). f_equal.
      apply (Huniq g2 code c2 c rest2 rest); auto. right. now left. }
    destruct Hshape as [Hs|[Hs|Hs]].
    + assert (E : search false
                    (cat [Bol;
                          Grp (cat [uppers 2 3; Chr "-"; uppers 2 4; Chr "-";
                                    digits 2 3; uppers 0 1]);
                          Cls is_space_or_colon]) cell = Some code)
        by (apply search_numbered; now exists c, rest).
      congruence.
    + assert (E : search false
                    (cat [Bol;
                          Grp (cat [uppers 2 3; Chr "-"; uppers 2 4; Chr "-";
                                    Rep (Cls is_roman) 1 None]);
                          Cls is_space_or_colon]) cell = Some code)
        by (apply search_roman; now exists c, rest).
      congruence.
    + apply search_short. now exists c, rest.
Qed.

(** [subject_code_of] finds a subject code in a first cell exactly when
    the cell starts with a code of one of the three shapes followed by a
    space or a colon, and the code found is that one; so a cell that
    holds a code and nothing after it gives no subject. *)
Theorem subject_code_is_separated_prefix (cell code : pystr) :
  (subject_code_of cell = Some code <->
   exists c rest, cell = code ++ c :: rest /\ is_space_or_colon c = true /\
                  code_shape code) /\
  (code_shape cell -> subject_code_of cell = None).
Proof.
  split; [apply subject_code_of_iff|].
  intros Hshape. apply eq_None_not_Some. intros [g Hg].
  apply subject_code_of_iff in Hg as (c & rest & -> & Hc & _).
  apply code_shape_no_separator in Hshape.
  apply Forall_app in Hshape as [_ Hshape]. inversion Hshape; subst. congruence.
Qed.

(* ------------------------------------------------------------------ *)
(** ** The command-line run *)

Import Cli.

Lemma subject_code_is_separated_prefix_witness :
  subject_code_of (lit "CS-CS-101") = None.
Proof.
  apply (proj2 (subject_code_is_separated_prefix (lit "CS-CS-101") [])).
  left. exists (lit "CS"), (lit "CS"), (lit "101"), [].
  split; [reflexivity|].
  unfold run_of. split_and!; cbn; try lia; repeat constructor.
Defined.

Lemma ask_name_spec (inputs : list pystr) (name : pystr) (rest : list pystr) :
  ask_name inputs = Some (name, rest) ->
  name <> [] /\
  exists skipped x, inputs = skipped ++ x :: rest /\ name = strip x /\
                    Forall (fun y => strip y = []) skipped.
Proof.
  induction inputs as [|x inputs IH]; cbn [ask_name]; [discriminate|].
  destruct (strip x) as [|c n] eqn:E.
  - intros H. destruct (IH H) as (Hne & skipped & y & -> & -> & Hs).
    split; [exact Hne|]. exists (x :: skipped), y. split_and!; try reflexivity.
    now constructor.
  - intros [= <- <-]. split; [discriminate|].
    exists [], x. split_and!; [reflexivity|now rewrite E|constructor].
Qed.

Lemma ask_total_spec (inputs : list pystr) (total : Z) (rest : list pystr) :
  ask_total inputs = Some (total, rest) ->
  0 < total /\
  exists skipped x, inputs = skipped ++ x :: rest /\
                    int_of_str (strip x) = Some total /\
                    Forall (fun y => forall t, int_of_str (strip y) = Some t -> t <= 0)
                      skipped.
Proof.
  induction inputs as [|x inputs IH]; cbn [ask_total]; [discriminate|].
  destruct (int_of_str (strip x)) as [t|] eqn:E.
  - destruct (0 <? t) eqn:Hpos.
    + intros [= <- <-]. split; [now apply Z.ltb_lt|].
      exists [], x. split_and!; [reflexivity|exact E|constructor].
    + intros H. destruct (IH H) as (Hlt & skipped & y & -> & Hy & Hs).
      split; [exact Hlt|]. exists (x :: skipped), y. split_and!; try reflexivity; [exact Hy|].
      constructor; [|exact Hs]. intros t' Ht'. rewrite E in Ht'. injection Ht' as <-.
      apply Z.ltb_ge in Hpos. exact Hpos.
  - intros H. destruct (IH H) as (Hlt & skipped & y & -> & Hy & Hs).
    split; [exact Hlt|]. exists (x :: skipped), y. split_and!; try reflexivity; [exact Hy|].
    constructor; [|exact Hs]. intros t' Ht'. rewrite E in Ht'. discriminate.
Qed.

(** The entry was typed: its name and its total are among the lines. *)
Lemma collect_from_spec (subjects : list pystr) :
  forall inputs info info' rest,
    collect_from subjects inputs info = Some (info', rest) ->
    (exists used, inputs = used ++ rest) /\
    (forall s, s ∉ subjects -> info' !! s = info !! s) /\
    (forall s, s ∈ subjects ->
       exists e, info' !! s = Some e /\ subject_name e <> [] /\ 0 < total_marks e /\
                 (exists x, x ∈ inputs /\ subject_name e = strip x) /\
                 (exists y, y ∈ inputs /\ int_of_str (strip y) = Some (total_marks e))).
Proof.
  induction subjects as [|s subjects IH]; intros inputs info info' rest;
    cbn [collect_from].
  - intros [= <- <-]. split_and!.
    + now exists [].
    + reflexivity.
    + intros s Hs. inversion Hs.
  - destruct (ask_name inputs) as [[name rest1]|] eqn:En; [|discriminate].
    destruct (ask_total rest1) as [[total rest2]|] eqn:Et; [|discriminate].
    intros H. apply IH in H as ((used & Hused) & Hout & Hin).
    apply ask_name_spec in En as (Hne & sk1 & x & -> & Hx & _).
    apply ask_total_spec in Et as (Hpos & sk2 & y & -> & Hy & _).
    split_and!.
    + exists (sk1 ++ x :: sk2 ++ y :: used). rewrite Hused.
      now rewrite <- !app_assoc, <- !app_comm_cons, <- !app_assoc.
    + intros s' Hs'. rewrite Hout.
      * apply lookup_insert_ne. intros ->. apply Hs'. apply list_elem_of_here.
      * intros Hin'. apply Hs'. now apply list_elem_of_further.
    + intros s' Hs'. destruct (decide (s' ∈ subjects)) as [Hd|Hd].
      * destruct (Hin s' Hd) as (e & He & He1 & He2 & (x' & Hx' & Hx'') & (y' & Hy' & Hy'')).
        exists e. split_and!; try assumption.
        -- exists x'. split; [|exact Hx''].
           rewrite !elem_of_app, !elem_of_cons, !elem_of_app, !elem_of_cons. tauto.
        -- exists y'. split; [|exact Hy''].
           rewrite !elem_of_app, !elem_of_cons, !elem_of_app, !elem_of_cons. tauto.
      * apply elem_of_cons in Hs' as [->|Hs']; [|contradiction].
        exists {| subject_name := name; total_marks := total |}.
        rewrite (Hout s Hd), lookup_insert_eq. cbn. split_and!; try assumption.
        -- reflexivity.
        -- exists x. split; [|exact Hx].
           rewrite !elem_of_app, !elem_of_cons. tauto.
        -- exists y. split; [|exact Hy].
           rewrite !elem_of_app, !elem_of_cons, !elem_of_app, !elem_of_cons. tauto.
Qed.

Lemma sorted_elements (S : gset pystr) (s : pystr) :
  s ∈ sorted (elements S) <-> s ∈ S.
Proof. now rewrite sorted_perm, elem_of_elements. Qed.

(** When [collect_subject_names] returns, the information has an entry
    for every subject asked about and for no other; every name is a line
    typed, stripped and not empty, and every total a line typed that
    reads as an integer greater than 0. The lines not used are a suffix
    of the lines typed. *)
Theorem collected_subject_info_is_complete_and_positive
    (subjects : gset pystr) (inputs rest : list pystr) (info : gmap pystr subject) :
  collect_subject_names subjects inputs = Some (info, rest) ->
  (forall s, is_Some (info !! s) <-> s ∈ subjects) /\
  (forall s e, info !! s = Some e ->
     subject_name e <> [] /\ 0 < total_marks e /\
     (exists x, x ∈ inputs /\ subject_name e = strip x) /\
     (exists y, y ∈ inputs /\ int_of_str (strip y) = Some (total_marks e))) /\
  (exists used, inputs = used ++ rest).
Proof.
  unfold collect_subject_names. intros H.
  apply collect_from_spec in H as (Hused & Hout & Hin). split_and!.
  - intros s. split.
    + intros Hs. destruct (decide (s ∈ subjects)) as [Hd|Hd]; [exact Hd|].
      rewrite Hout, lookup_empty in Hs; [now destruct Hs|].
      now rewrite sorted_elements.
    + intros Hs. apply sorted_elements in Hs.
      destruct (Hin s Hs) as (e & He & _). eauto.
  - intros s e He. destruct (decide (s ∈ subjects)) as [Hd|Hd].
    + apply sorted_elements in Hd. destruct (Hin s Hd) as (e' & He' & Hrest).
      rewrite He in He'. injection He' as <-. exact Hrest.
    + rewrite Hout, lookup_empty in He; [discriminate|]. now rewrite sorted_elements.
  - exact Hused.
Qed.

Lemma collected_subject_info_is_complete_and_positive_witness :
  exists used, typed_lines = used ++ [lit "left over"].
Proof.
  refine (proj2 (proj2
            (collected_subject_info_is_complete_and_positive two_subjects typed_lines
               [lit "left over"]
               (<[lit "CS-CS-102" := {| subject_name := lit "Logic"; total_marks := 50 |}]>
                  (<[lit "CS-CS-101" := {| subject_name := lit "Algorithms";
                                           total_marks := 100 |}]> ∅)) _))).
  apply eq_by_decide. vm_compute. reflexivity.
Defined.

Lemma collect_from_answers (ans : pystr -> pystr * pystr) (subjects : list pystr) :
  NoDup subjects ->
  (forall s, s ∈ subjects -> valid_answer (ans s)) ->
  forall info rest,
  exists info',
    collect_from subjects (answers_for ans subjects ++ rest) info = Some (info', rest) /\
    (forall s, s ∈ subjects ->
       exists t, int_of_str (strip (ans s).2) = Some t /\
                 info' !! s = Some {| subject_name := strip (ans s).1;
                                      total_marks := t |}) /\
    (forall s, s ∉ subjects -> info' !! s = info !! s).
Proof.
  induction 1 as [|s subjects Hs Hnd IH]; intros Hvalid info rest.
  - exists info. split_and!; [reflexivity| |reflexivity].
    intros s Hs. inversion Hs.
  - destruct (Hvalid s (list_elem_of_here _ _)) as (Hname & t & Ht & Hpos).
    destruct (IH (fun s' Hs' => Hvalid s' (list_elem_of_further _ _ _ Hs'))
                (<[s := {| subject_name := strip (ans s).1; total_marks := t |}]> info)
                rest) as (info' & Hrun & Hin & Hout).
    exists info'. split_and!.
    + cbn [answers_for flat_map app collect_from ask_name ask_total].
      destruct (strip (ans s).1) as [|c n] eqn:E; [contradiction|].
      cbn [ask_total]. rewrite Ht. replace (0 <? t) with true by (symmetry; now apply Z.ltb_lt).
      exact Hrun.
    + intros s' Hs'. apply elem_of_cons in Hs' as [->|Hs'].
      * exists t. split; [exact Ht|]. rewrite (Hout s Hs). apply lookup_insert_eq.
      * now apply Hin.
    + intros s' Hs'. rewrite Hout.
      * apply lookup_insert_ne. intros ->. apply Hs'. apply list_elem_of_here.
      * intros Hin'. apply Hs'. now apply list_elem_of_further.
Qed.

(** [collect_subject_names] returns when the lines typed answer the
    questions in the order asked, the subjects in ascending order, a name
    and then a total for each: the information then holds, for every
    subject, the stripped name and the total typed for it, and the lines
    after the answers are left over. A blank name and a total that is no
    integer greater than 0 are asked again. *)
Theorem collect_subject_names_reads_answers_in_order
    (subjects : gset pystr) (ans : pystr -> pystr * pystr) (rest : list pystr) :
  (forall s, s ∈ subjects -> valid_answer (ans s)) ->
  (exists info,
     collect_subject_names subjects
       (answers_for ans (sorted (elements subjects)) ++ rest) = Some (info, rest) /\
     forall s, s ∈ subjects ->
       exists t, int_of_str (strip (ans s).2) = Some t /\
                 info !! s = Some {| subject_name := strip (ans s).1;
                                     total_marks := t |}) /\
  (forall x inputs, strip x = [] -> ask_name (x :: inputs) = ask_name inputs) /\
  (forall y inputs, (forall t, int_of_str (strip y) = Some t -> t <= 0) ->
     ask_total (y :: inputs) = ask_total inputs).
Proof.
  intros Hvalid. split_and!.
  - destruct (collect_from_answers ans (sorted (elements subjects))) with (info := (∅ : gmap pystr subject)) (rest := rest)
      as (info & Hrun & Hin & _).
    + rewrite sorted_perm. apply NoDup_elements.
    + intros s Hs. apply Hvalid. now apply sorted_elements.
    + exists info. split; [exact Hrun|].
      intros s Hs. apply Hin. now apply sorted_elements.
  - intros x inputs Hx. cbn [ask_name]. now rewrite Hx.
  - intros y inputs Hy. cbn [ask_total].
    destruct (int_of_str (strip y)) as [t|] eqn:E; [|reflexivity].
    specialize (Hy t eq_refl).
    replace (0 <? t) with false by (symmetry; apply Z.ltb_ge; lia). reflexivity.
Qed.

Lemma collect_subject_names_reads_answers_in_order_witness :
  exists info,
    collect_subject_names two_subjects
      (answers_for typed_answers (sorted (elements two_subjects)) ++ [lit "left over"])
    = Some (info, [lit "left over"]) /\
    forall s, s ∈ two_subjects ->
      exists t, int_of_str (strip (typed_answers s).2) = Some t /\
                info !! s = Some {| subject_name := strip (typed_answers s).1;
                                    total_marks := t |}.
Proof.
  apply (proj1 (collect_subject_names_reads_answers_in_order two_subjects typed_answers
                  [lit "left over"]
                  ltac:(intros s Hs; unfold two_subjects in Hs;
                        apply elem_of_union in Hs as [Hs|Hs];
                        apply elem_of_singleton in Hs; subst s;
                        (split; [vm_compute; discriminate|]);
                        [exists 50|exists 100]; split; (vm_compute; reflexivity)))).
Defined.

Lemma count_result_spec (rs : list result) (ok bad : nat) (r : result) :
  exists ok' bad',
    count_result (rs, ok, bad) r = (rs ++ [r], ok', bad') /\
    (ok' + bad' = S (ok + bad))%nat /\
    (ok = length (List.filter is_success rs) ->
     ok' = length (List.filter is_success (rs ++ [r]))).
Proof.
  unfold count_result. rewrite List.filter_app, length_app. cbn [List.filter].
  unfold is_success. destruct (bool_decide (status r = lit "Success")).
  - exists (S ok), bad. split_and!; [reflexivity|lia|cbn; lia].
  - exists ok, (S bad). split_and!; [reflexivity|lia|cbn; lia].
Qed.

Lemma process_students_spec (e : cli_env) (sts : list student) :
  forall i rs0 ok0 bad0 rs ok bad,
    process_students e i sts (rs0, ok0, bad0) = Some (rs, ok, bad) ->
    length rs = (length rs0 + length sts)%nat /\
    (ok + bad = ok0 + bad0 + length sts)%nat /\
    (forall k r, rs0 !! k = Some r -> rs !! k = Some r) /\
    (forall k st, sts !! k = Some st ->
       rs !! (length rs0 + k)%nat
       = Some (process_single_student (cli_lookup e (i + k)) st)) /\
    (forall k, (S k < length sts)%nat -> cli_reload e (i + k) = true) /\
    (ok0 = length (List.filter is_success rs0) ->
     ok = length (List.filter is_success rs)).
Proof.
  induction sts as [|st sts IH]; intros i rs0 ok0 bad0 rs ok bad; cbn [process_students].
  - intros [= <- <- <-]. cbn. split_and!; try lia; try tauto.
    + intros k st H. rewrite lookup_nil in H. discriminate.
  - destruct (count_result_spec rs0 ok0 bad0 (process_single_student (cli_lookup e i) st))
      as (ok1 & bad1 & -> & Hsum & Hcount).
    assert (Hfirst : (rs0 ++ [process_single_student (cli_lookup e i) st]) !! length rs0
                     = Some (process_single_student (cli_lookup e i) st)).
    { rewrite lookup_app_r by lia. now rewrite Nat.sub_diag. }
    destruct sts as [|st' sts].
    + intros [= <- <- <-]. rewrite length_app. cbn [length].
      split_and!; try lia; try exact Hcount.
      * intros k r Hk. now apply lookup_app_l_Some.
      * intros [|k] st0 Hk; [|rewrite lookup_cons, lookup_nil in Hk; discriminate].
        injection Hk as <-. now rewrite !Nat.add_0_r.
    + destruct (cli_reload e i) eqn:Hre; [|discriminate].
      intros H. apply IH in H as (Hlen & Hs & Hold & Hnew & Hrel & Hc).
      rewrite length_app in *. cbn [length] in *.
      split_and!; try lia.
      * intros k r Hk. apply Hold. now apply lookup_app_l_Some.
      * intros [|k] st0 Hk.
        -- injection Hk as <-. rewrite !Nat.add_0_r. now apply Hold.
        -- replace (length rs0 + S k)%nat with (length rs0 + 1 + k)%nat by lia.
           replace (i + S k)%nat with (S i + k)%nat by lia. now apply Hnew.
      * intros [|k] Hk; [now rewrite Nat.add_0_r|].
        replace (i + S k)%nat with (S i + k)%nat by lia. apply Hrel. lia.
Qed.

(** A run of [run_cli] that reaches its end processed every student of
    the roster, in order, each with the lookup of its turn: the two
    counts logged add up to the number of students, the browser was
    closed, every reload between two students went through, and the
    report, named [Complete_Results_<timestamp>.xlsx], holds one record
    per student, the successful ones as many as the count; only for an
    empty roster no report is written. *)
Theorem run_cli_reports_every_student
    (interactive : bool) (e : cli_env) (ok bad : nat) :
  cli_counts (run_cli interactive e) = Some (ok, bad) ->
  exists sts,
    cli_excel e ≫= load_students = Some sts /\
    (ok + bad = length sts)%nat /\
    cli_quit (run_cli interactive e) = true /\
    (forall k, (S k < length sts)%nat -> cli_reload e k = true) /\
    match cli_report (run_cli interactive e) with
    | Some (fname, rs, info) =>
        fname = lit "Complete_Results_" ++ cli_timestamp e ++ lit ".xlsx" /\
        length rs = length sts /\ sts <> [] /\
        (forall k st, sts !! k = Some st ->
           rs !! k = Some (process_single_student (cli_lookup e k) st)) /\
        ok = length (List.filter is_success rs)
    | None => sts = []
    end.
Proof.
  unfold run_cli. destruct (cli_excel e ≫= load_students) as [sts|]; [|discriminate].
  destruct (cli_driver e); [|discriminate].
  destruct (with_driver interactive e sts) as [[rep counts]|] eqn:E; [|discriminate].
  cbn. intros [= ->]. exists sts. unfold with_driver in E.
  destruct (cli_setup e); [|discriminate].
  destruct (process_students e 0 sts ([], 0%nat, 0%nat)) as [[[rs ok'] bad']|] eqn:Ep;
    [|discriminate].
  apply process_students_spec in Ep as (Hlen & Hsum & _ & Hnew & Hrel & Hc).
  cbn [length Nat.add] in *.
  destruct (ask_subject_info _ _ _) as [info|]; [|discriminate].
  destruct rs as [|r rs].
  - injection E as <- <- <-. split_and!.
    + reflexivity.
    + lia.
    + reflexivity.
    + exact Hrel.
    + destruct sts; [reflexivity|cbn in Hlen; lia].
  - destruct (cli_save e); [|discriminate]. injection E as <- <- <-.
    split_and!.
    + reflexivity.
    + lia.
    + reflexivity.
    + exact Hrel.
    + reflexivity.
    + exact Hlen.
    + intros ->. cbn in Hlen. lia.
    + exact Hnew.
    + now apply Hc.
Qed.

Lemma process_students_aborts (e : cli_env) (sts : list student) :
  forall i acc k,
    (S k < length sts)%nat -> cli_reload e (i + k) = false ->
    process_students e i sts acc = None.
Proof.
  induction sts as [|st sts IH]; intros i acc k Hk Hre; [cbn in Hk; lia|].
  cbn [process_students]. destruct sts as [|st' sts]; [cbn in Hk; lia|].
  destruct k as [|k].
  - rewrite Nat.add_0_r in Hre. now rewrite Hre.
  - destruct (cli_reload e i); [|reflexivity].
    apply (IH (S i) _ k); [cbn in *; lia|].
    now replace (S i + k)%nat with (i + S k)%nat by lia.
Qed.

(** When loading the page again after a student other than the last
    raises, [run_cli] writes no report and logs no counts, whatever was
    gathered before: all records of the run are lost. The browser is
    closed all the same when it was opened. *)
Theorem run_cli_reload_failure_loses_all_results
    (interactive : bool) (e : cli_env) (sts : list student) (k : nat) :
  cli_excel e ≫= load_students = Some sts ->
  (S k < length sts)%nat -> cli_reload e k = false ->
  cli_report (run_cli interactive e) = None /\
  cli_counts (run_cli interactive e) = None /\
  cli_quit (run_cli interactive e) = cli_driver e.
Proof.
  intros Hload Hk Hre. unfold run_cli, with_driver. rewrite Hload.
  destruct (cli_driver e); [|now split_and!].
  rewrite (process_students_aborts e sts 0 _ k Hk Hre).
  now destruct (cli_setup e).
Qed.

Lemma run_cli_reports_every_student_witness :
  exists sts,
    cli_excel cli_env0 ≫= load_students = Some sts /\
    (1 + 1 = length sts)%nat /\
    cli_quit (run_cli false cli_env0) = true.
Proof.
  destruct (run_cli_reports_every_student false cli_env0 1 1) as (sts & H1 & H2 & H3 & _).
  - vm_compute. reflexivity.
  - exists sts. now split_and!.
Defined.

Lemma run_cli_reload_failure_loses_all_results_witness :
  cli_report (run_cli true cli_env_no_reload) = None /\
  cli_counts (run_cli true cli_env_no_reload) = None /\
  cli_quit (run_cli true cli_env_no_reload) = cli_driver cli_env_no_reload.
Proof.
  apply (run_cli_reload_failure_loses_all_results true cli_env_no_reload [alice; bob] 0).
  - vm_compute. reflexivity.
  - cbn. lia.
  - reflexivity.
Defined.

Example run_cli_example :
  let out := run_cli true cli_env0 in
  cli_counts out = Some (1%nat, 1%nat) /\
  (fun rep : saved_report => (rep.1.1, status <$> rep.1.2, rep.2)) <$> cli_report out
  = Some (lit "Complete_Results_20250101_120000.xlsx",
          [lit "Success"; lit "Failed: View link not found"], None).
Proof. split; vm_compute; reflexivity. Qed.

(* ------------------------------------------------------------------ *)
(** ** Only the cleaner removes *)

Lemma save_expiries_fields (io : io_outcome) (w : world) :
  UPLOAD_EXPIRY (save_expiries io w) = UPLOAD_EXPIRY w /\
  RESULT_EXPIRY (save_expiries io w) = RESULT_EXPIRY w /\
  upload_files (save_expiries io w) = upload_files w /\
  output_files (save_expiries io w) = output_files w.
Proof. now destruct io. Qed.

Lemma kept_refl (f : pystr) (w : world) : kept f w w.
Proof. unfold kept. tauto. Qed.

Lemma kept_trans (f : pystr) (a b c : world) : kept f a b -> kept f b c -> kept f a c.
Proof.
  unfold kept. intros (H1 & H2 & H3 & H4 & H5) (G1 & G2 & G3 & G4 & G5).
  split_and!; try congruence; auto.
Qed.

Lemma kept_with_state (f : pystr) (g : job_state -> job_state) (w : world) :
  (is_Some (filename (STATE w)) -> is_Some (filename (g (STATE w)))) ->
  kept f w (with_state g w).
Proof. unfold kept. cbn. tauto. Qed.

Lemma kept_save_results (f : pystr) (ok : bool) (rs : list result) (o : pystr)
    (w w' : world) :
  save_results_to_excel ok rs o w = Some w' -> kept f w w'.
Proof.
  unfold save_results_to_excel. destruct rs; [|destruct ok]; intros [= <-];
    try apply kept_refl.
  unfold kept. cbn. split_and!; try tauto. intros H. now apply elem_of_union_r.
Qed.

Lemma kept_set_result_expiry (f o : pystr) (ttl now : Z) (io : io_outcome) (w : world) :
  kept f w (set_result_expiry o ttl now io w).
Proof.
  unfold kept, set_result_expiry.
  destruct (save_expiries_fields io
              (with_result_expiry (<[o := now + ttl]> (RESULT_EXPIRY w)) w))
    as (-> & -> & -> & ->).
  rewrite STATE_save_expiries. cbn. split_and!; try tauto.
  intros H. apply lookup_insert_is_Some. destruct (decide (o = f)); [now left|now right].
Qed.

Lemma kept_worker_step (f : pystr) (e : env) (p : pc) (w : world) :
  kept f w (worker_step e p w).2.
Proof.
  destruct p; cbn [worker_step snd]; try apply kept_refl;
    try (apply kept_with_state; cbn; tauto).
  - destruct (env_excel e) as [df|]; [destruct (load_students df)|]; apply kept_refl.
  - destruct (env_driver e); apply kept_refl.
  - destruct (sts !! i); apply kept_with_state; cbn; tauto.
  - destruct ((i mod 5 =? 0)%nat || _); [|apply kept_refl].
    destruct (save_results_to_excel _ _ _ _) as [w1|] eqn:E; [|apply kept_refl].
    cbn [snd]. eapply kept_trans; [eapply kept_save_results; exact E|].
    apply kept_set_result_expiry.
  - apply kept_with_state. cbn. eauto.
Qed.

Lemma kept_detailed_submit (f ts : pystr) (now : Z) (ok : bool) (io : io_outcome)
    (w : world) :
  kept f w (detailed_submit ts now ok io w).
Proof.
  unfold detailed_submit.
  destruct (save_results_to_excel _ _ _ _) as [w1|] eqn:E; [|apply kept_refl].
  eapply kept_trans; [eapply kept_save_results; exact E|].
  eapply kept_trans; [apply kept_set_result_expiry|].
  apply kept_with_state. cbn. eauto.
Qed.

Lemma kept_failed_submit (f : pystr) (idx : Z) (m : gmap pystr pystr) (ts : pystr)
    (now : Z) (ok : bool) (io : io_outcome) (w : world) :
  kept f w (failed_submit idx m ts now ok io w).
Proof.
  unfold failed_submit. destruct ((idx <? 0) || _); [apply kept_refl|].
  match goal with |- context [save_results_to_excel ok ?rs ?o ?w1] =>
    assert (H1 : kept f w w1) by (apply kept_with_state; cbn; tauto);
    destruct (save_results_to_excel ok rs o w1) as [w2|] eqn:E; [|exact H1]
  end.
  eapply kept_trans; [exact H1|].
  eapply kept_trans; [eapply kept_save_results; exact E|].
  eapply kept_trans; [apply kept_set_result_expiry|].
  apply kept_with_state. cbn. eauto.
Qed.

Lemma kept_quiet (f : pystr) (a : action) (s : system) :
  is_quiet a = true -> kept f s.2 (do_action a s).2.
Proof.
  destruct a; cbn; try discriminate; intros _.
  - apply kept_worker_step.
  - apply kept_failed_submit.
  - apply kept_detailed_submit.
Qed.

Lemma kept_run_quiet (f : pystr) (acts : list action) (s : system) :
  forallb is_quiet acts = true -> kept f s.2 (run_actions acts s).2.
Proof.
  revert s. induction acts as [|a acts IH]; intros s H; [apply kept_refl|].
  cbn in H. apply andb_true_iff in H as [Ha Hrest]. cbn [run_actions fold_left].
  eapply kept_trans; [apply (kept_quiet f a s Ha)|]. now apply IH.
Qed.

(** Nothing but a round of the cleaner removes anything: every other
    action, of the worker or of a handler, leaves each file in its
    folder, each entry in its ledger (possibly with a new expiry), and a
    report pointer that is set stays set, also when a new batch starts. *)
Theorem only_the_cleaner_removes (a : action) (s : system) (f : pystr) :
  is_sweep a = false ->
  (f ∈ upload_files s.2 -> f ∈ upload_files (do_action a s).2) /\
  (f ∈ output_files s.2 -> f ∈ output_files (do_action a s).2) /\
  (is_Some (UPLOAD_EXPIRY s.2 !! f) -> is_Some (UPLOAD_EXPIRY (do_action a s).2 !! f)) /\
  (is_Some (RESULT_EXPIRY s.2 !! f) -> is_Some (RESULT_EXPIRY (do_action a s).2 !! f)) /\
  (is_Some (filename (STATE s.2)) -> is_Some (filename (STATE (do_action a s).2))).
Proof.
  intros Ha. destruct (is_upload a) eqn:Hu.
  - destruct a; try discriminate. cbn [do_action snd].
    unfold set_upload_expiry.
    match goal with |- context [save_expiries io ?w0] =>
      destruct (save_expiries_fields io w0) as (-> & -> & -> & ->);
      rewrite (STATE_save_expiries io w0)
    end.
    cbn. split_and!; try tauto.
    + intros H. now apply elem_of_union_r.
    + intros H. apply lookup_insert_is_Some.
      destruct (decide (fname = f)); [now left|now right].
  - assert (Hq : is_quiet a = true) by (unfold is_quiet; now rewrite Ha, Hu).
    destruct (kept_quiet f a s Hq) as (H1 & H2 & H3 & H4 & H5).
    rewrite H1, H2. tauto.
Qed.

Lemma only_the_cleaner_removes_witness :
  is_Some (filename (STATE (do_action upload1 (run_actions two_student_run start)).2)).
Proof.
  apply (proj2 (proj2 (proj2 (proj2
           (only_the_cleaner_removes upload1 (run_actions two_student_run start) []
              eq_refl))))).
  refine (by_decide _ _). vm_compute. reflexivity.
Defined.

(** An uploaded roster stays in the upload folder, with its expiry ten
    minutes after the upload, whatever the worker and the handlers other
    than [upload] do; a round of the cleaner before the expiry leaves it
    there, and the first round at or after the expiry removes it, if the
    operating system carries out the removal, and drops its entry,
    whether or not the worker is still running. *)
Theorem uploaded_roster_is_removed_after_ten_minutes
    (fname : pystr) (j : job) (t : Z) (io : io_outcome) (s : system)
    (acts : list action) (now : Z) (rm : folder -> pystr -> bool) :
  forallb is_quiet acts = true ->
  let s' := run_actions acts (do_action (Upload fname j t io) s) in
  UPLOAD_EXPIRY s'.2 !! fname = Some (t + 10 * 60) /\
  fname ∈ upload_files s'.2 /\
  (now < t + 10 * 60 ->
   UPLOAD_EXPIRY (sweep now rm s'.2) !! fname = Some (t + 10 * 60) /\
   fname ∈ upload_files (sweep now rm s'.2)) /\
  (t + 10 * 60 <= now ->
   UPLOAD_EXPIRY (sweep now rm s'.2) !! fname = None /\
   (rm UPLOAD_FOLDER fname = true -> fname ∉ upload_files (sweep now rm s'.2)) /\
   (do_action (Sweep now rm) s').1 = s'.1).
Proof.
  intros Hq s'.
  destruct (kept_run_quiet fname acts (do_action (Upload fname j t io) s) Hq)
    as (Hu & Hf & _).
  fold s' in Hu, Hf.
  assert (He : UPLOAD_EXPIRY s'.2 !! fname = Some (t + 10 * 60)).
  { rewrite Hu. cbn [do_action snd]. unfold set_upload_expiry.
    match goal with |- context [save_expiries io ?w0] =>
      destruct (save_expiries_fields io w0) as (-> & _)
    end.
    cbn. apply lookup_insert_eq. }
  assert (Hin : fname ∈ upload_files s'.2).
  { rewrite Hf. cbn [do_action snd]. unfold set_upload_expiry.
    match goal with |- context [save_expiries io ?w0] =>
      destruct (save_expiries_fields io w0) as (_ & _ & -> & _)
    end.
    cbn. apply elem_of_union_l. now apply elem_of_singleton. }
  destruct (sweep_ledgers_eq now rm s'.2) as [Hl _].
  destruct (sweep_files_iff now rm s'.2 fname) as [Hfiles _].
  split_and!; [exact He|exact Hin| |].
  - intros Hlt. split.
    + rewrite Hl, later_than_now_lookup, He. now rewrite bool_decide_eq_true_2.
    + apply Hfiles. split; [exact Hin|]. intros (e & He' & Hle & _).
      rewrite He in He'. injection He' as <-. lia.
  - intros Hle. split_and!.
    + rewrite Hl, later_than_now_lookup, He. rewrite bool_decide_eq_false_2; [reflexivity|lia].
    + intros Hrm Hstill. apply Hfiles in Hstill as [_ Hno]. apply Hno.
      exists (t + 10 * 60). now split_and!.
    + reflexivity.
Qed.

Lemma uploaded_roster_is_removed_after_ten_minutes_witness :
  let s' := run_actions (tail two_student_run) (do_action upload1 start) in
  UPLOAD_EXPIRY (sweep 1590 rm_always s'.2) !! lit "upload_00ff.xlsx" = None /\
  (rm_always UPLOAD_FOLDER (lit "upload_00ff.xlsx") = true ->
   lit "upload_00ff.xlsx" ∉ upload_files (sweep 1590 rm_always s'.2)) /\
  (do_action (Sweep 1590 rm_always) s').1 = s'.1.
Proof.
  refine (proj2 (proj2 (proj2
            (uploaded_roster_is_removed_after_ten_minutes (lit "upload_00ff.xlsx") a_job
               990 Written start (tail two_student_run) 1590 rm_always eq_refl))) _).
  lia.
Defined.

(* ------------------------------------------------------------------ *)
(** ** From the page of the subjects to the subject information *)

Lemma detailed_spec (w : world) (subjects : list pystr) :
  detailed w = Some subjects -> subjects = all_subjects (results (STATE w)).
Proof.
  unfold detailed. destruct (all_subjects _); [discriminate|]. now intros [= <-].
Qed.

(** When the form posted to [detailed_submit] fills in, for every
    subject the page [/detailed] lists, a name that is not blank and a
    total that reads as an integer other than 0, and holds no other
    field [code_...], the subject information has an entry for exactly
    the subjects listed, which are the codes with a mark in some record;
    the page is shown only if there is such a code. *)
Theorem detailed_form_covers_listed_subjects
    (w : world) (form : gmap pystr pystr) (subjects : list pystr) :
  detailed w = Some subjects ->
  (forall s, s ∈ subjects ->
     exists name total t,
       form !! (lit "code_" ++ s) = Some name /\ strip name <> [] /\
       form !! (lit "total_" ++ s) = Some total /\
       int_of_str (strip total) = Some t /\ t <> 0) ->
  (forall s, is_Some (form !! (lit "code_" ++ s)) -> s ∈ subjects) ->
  subjects <> [] /\
  forall code,
    (is_Some (parse_subject_info form !! code) <-> code ∈ subjects) /\
    (code ∈ subjects <->
     exists r, r ∈ results (STATE w) /\ is_Some (marks r !! code)).
Proof.
  intros Hd Hfilled Honly. split.
  - unfold detailed in Hd. destruct (all_subjects _); [discriminate|].
    injection Hd as <-. discriminate.
  - intros code. split.
    + rewrite parse_subject_info_lookup. split.
      * intros Hs. apply Honly.
        destruct (form !! (lit "code_" ++ code)); [eauto|].
        cbn in Hs. now destruct Hs.
      * intros Hs. destruct (Hfilled code Hs) as (name & total & t & Hn & Hne & Ht & Hi & Hz).
        rewrite Hn. cbn [mbind option_bind]. unfold subject_entry.
        rewrite Ht. cbn [default id].
        destruct (strip name) as [|c n]; [contradiction|].
        rewrite Hi. apply Z.eqb_neq in Hz. rewrite Hz. eauto.
    + rewrite (detailed_spec w subjects Hd). apply all_subjects_spec.
Qed.

Lemma detailed_form_covers_listed_subjects_witness :
  [lit "CS-CS-101"; lit "CS-CS-102"; lit "CS-CS-103"] <> [] /\
  forall code,
    (is_Some (parse_subject_info subjects_form !! code) <->
     code ∈ [lit "CS-CS-101"; lit "CS-CS-102"; lit "CS-CS-103"]) /\
    (code ∈ [lit "CS-CS-101"; lit "CS-CS-102"; lit "CS-CS-103"] <->
     exists r, r ∈ results (STATE world_with_results) /\ is_Some (marks r !! code)).
Proof.
  apply (detailed_form_covers_listed_subjects world_with_results subjects_form).
  - vm_compute. reflexivity.
  - intros s Hs. repeat (apply elem_of_cons in Hs as [->|Hs]); [| | |inversion Hs].
    + exists (lit " Algorithms "), (lit "100"), 100.
      split_and!; [reflexivity|vm_compute; discriminate|reflexivity|reflexivity|lia].
    + exists (lit "Logic"), (lit "50"), 50.
      split_and!; [reflexivity|vm_compute; discriminate|reflexivity|reflexivity|lia].
    + exists (lit "Networks"), (lit "-75"), (-75).
      split_and!; [reflexivity|vm_compute; discriminate|reflexivity|reflexivity|lia].
  - intros s Hs. unfold subjects_form in Hs.
    repeat (apply lookup_insert_is_Some in Hs as [Hs|[_ Hs]];
            [first [ injection Hs as <-; rewrite !elem_of_cons; tauto
                   | discriminate Hs ]|]).
    rewrite lookup_empty in Hs. now destruct Hs.
Defined.
